(** * MSSQL MCP server: security validator, pool registry, query executor
      and bulk-insert engine of [src/index.ts], embedded and verified.

    Modelling conventions.
    - JavaScript strings are [string]s of ASCII characters; whitespace is
      TAB, LF, VT, FF, CR and SPACE, line terminators are LF and CR, and
      case mapping touches the 26 Latin letters only.
    - JavaScript numbers that the code uses as counters, lengths, ports,
      row limits and clock readings are integers of [Z]; they print in
      decimal, as JavaScript prints integers below 10^21.  The running
      average is the one non-integer quantity: its arithmetic is kept
      abstract in the class [JsNumber].
    - The [mssql] driver is the environment: an [Env] answers each connect
      and each query, knowing the calls made so far; every call is logged
      in the state, so that "no database call" is a statement about the log.
    - Pool objects live in a heap indexed by allocation order; the cache
      [connectionPools] maps a connection key to a heap index, so that
      two callers holding the same index hold the same object.
    - Rows are plain objects: a list of own properties, with property
      access falling back on what [Object.prototype] defines. *)

From Stdlib Require Import ZArith String Ascii List Lia Bool.
From Stdlib Require Import Decimal DecimalString DecimalPos DecimalZ QArith.
From stdpp Require Import gmap strings list.

Open Scope Z_scope.
Open Scope string_scope.

(** ** JavaScript string primitives *)

Module JS.

Definition code (c : ascii) : nat := nat_of_ascii c.

Definition in_range (lo hi : nat) (c : ascii) : bool :=
  ((lo <=? code c) && (code c <=? hi))%nat.

(** [\s] and the characters stripped by [String.prototype.trim]. *)
Definition is_space (c : ascii) : bool :=
  in_range 9 13 c || (code c =? 32)%nat.

(** The characters [.] refuses and before which [$] matches under [m]. *)
Definition is_line_terminator (c : ascii) : bool :=
  (code c =? 10)%nat || (code c =? 13)%nat.

Definition is_digit (c : ascii) : bool := in_range 48 57 c.
Definition is_upper (c : ascii) : bool := in_range 65 90 c.
Definition is_lower (c : ascii) : bool := in_range 97 122 c.

(** [\w] *)
Definition is_word (c : ascii) : bool :=
  is_upper c || is_lower c || is_digit c || (code c =? 95)%nat.

Definition lower (c : ascii) : ascii :=
  if is_upper c then ascii_of_nat (code c + 32) else c.

Definition upper (c : ascii) : ascii :=
  if is_lower c then ascii_of_nat (code c - 32) else c.

Fixpoint map_chars (f : ascii -> ascii) (s : string) : string :=
  match s with
  | EmptyString => EmptyString
  | String c s' => String (f c) (map_chars f s')
  end.

Definition toLowerCase : string -> string := map_chars lower.
Definition toUpperCase : string -> string := map_chars upper.

Fixpoint trimStart (s : string) : string :=
  match s with
  | String c s' => if is_space c then trimStart s' else s
  | EmptyString => EmptyString
  end.

(** Drops the trailing whitespace: a character is kept when it is not
    whitespace or when something is kept after it. *)
Fixpoint trimEnd (s : string) : string :=
  match s with
  | EmptyString => EmptyString
  | String c s' =>
      match trimEnd s' with
      | EmptyString => if is_space c then EmptyString else String c EmptyString
      | t => String c t
      end
  end.

Definition trim (s : string) : string := trimEnd (trimStart s).

Fixpoint startsWith (s p : string) : bool :=
  match p, s with
  | EmptyString, _ => true
  | String a p', String b s' => Ascii.eqb a b && startsWith s' p'
  | String _ _, EmptyString => false
  end.

Fixpoint includes (s sub : string) : bool :=
  startsWith s sub ||
  match s with
  | EmptyString => false
  | String _ s' => includes s' sub
  end.

(** [Array.prototype.join] *)
Definition join (sep : string) (l : list string) : string := String.concat sep l.

(** [Array.prototype.includes] on an array of strings. *)
Definition array_includes (l : list string) (x : string) : bool :=
  existsb (String.eqb x) l.

Definition length (s : string) : Z := Z.of_nat (String.length s).

(** A string is falsy exactly when it is empty. *)
Definition truthy (s : string) : bool :=
  match s with EmptyString => false | _ => true end.

(** Template-literal rendering of an integer number. *)
Definition show (n : Z) : string := NilZero.string_of_int (Z.to_int n).

(** [s.split(/\s+/)[0]]: the text before the first run of whitespace. *)
Fixpoint split_ws_first (s : string) : string :=
  match s with
  | EmptyString => EmptyString
  | String c s' => if is_space c then EmptyString else String c (split_ws_first s')
  end.

End JS.

(** ** Regular expressions

    A backtracking matcher with the priorities of the JavaScript one:
    alternatives left to right, a greedy star tries one more iteration
    first, a lazy star tries to stop first, and an iteration that consumes
    nothing is refused.  [run r s k] matches [r] at the head of [s] and
    hands the rest of the input to the continuation [k]. *)

Module Regex.

Inductive regex : Type :=
| Eps
| Chr (p : ascii -> bool)
| Seq (r1 r2 : regex)
| Alt (r1 r2 : regex)
| Star (greedy : bool) (r : regex)
| Eol.

(** The iterations of a star whose body is matched by [step]: [fuel]
    bounds their number, and every iteration must consume input. *)
Fixpoint star_loop (step : string -> (string -> option string) -> option string)
    (greedy : bool) (k : string -> option string) (fuel : nat) (s : string)
  : option string :=
  match fuel with
  | O => k s
  | S fuel' =>
      let more s' :=
        if (String.length s' <? String.length s)%nat
        then star_loop step greedy k fuel' s' else None in
      if greedy then
        match step s more with
        | Some rest => Some rest
        | None => k s
        end
      else
        match k s with
        | Some rest => Some rest
        | None => step s more
        end
  end.

Fixpoint run (r : regex) (s : string) (k : string -> option string)
  : option string :=
  match r with
  | Eps => k s
  | Chr p =>
      match s with
      | String c s' => if p c then k s' else None
      | EmptyString => None
      end
  | Seq r1 r2 => run r1 s (fun s' => run r2 s' k)
  | Alt r1 r2 =>
      match run r1 s k with
      | Some rest => Some rest
      | None => run r2 s k
      end
  | Star greedy r' => star_loop (run r') greedy k (S (String.length s)) s
  | Eol =>
      match s with
      | EmptyString => k s
      | String c _ => if JS.is_line_terminator c then k s else None
      end
  end.

(** A match anchored at the head of [s]: the input left after it. *)
Definition exec (r : regex) (s : string) : option string := run r s Some.

(** [RegExp.prototype.test] of a regex whose [lastIndex] is 0. *)
Fixpoint test (r : regex) (s : string) : bool :=
  match exec r s with
  | Some _ => true
  | None =>
      match s with
      | EmptyString => false
      | String _ s' => test r s'
      end
  end.

(** [s.replace(r, rep)] for a global [r] and a replacement text without
    [$]: scan left to right, replace each match, resume after it. *)
Fixpoint replace_all_fuel (fuel : nat) (r : regex) (rep s : string) : string :=
  match fuel with
  | O => s
  | S fuel' =>
      match exec r s with
      | Some rest =>
          if (String.length rest <? String.length s)%nat
          then rep +:+ replace_all_fuel fuel' r rep rest
          else
            match s with
            | EmptyString => rep
            | String c s' => rep +:+ String c (replace_all_fuel fuel' r rep s')
            end
      | None =>
          match s with
          | EmptyString => EmptyString
          | String c s' => String c (replace_all_fuel fuel' r rep s')
          end
      end
  end.

Definition replace_all (r : regex) (rep s : string) : string :=
  replace_all_fuel (S (String.length s)) r rep s.

(** [s.replace(r, rep)] for a regex [^r] without flags [g] and [m]: only
    a match at the very start of [s] is replaced. *)
Definition replace_at_start (r : regex) (rep s : string) : string :=
  match exec r s with
  | Some rest => rep +:+ rest
  | None => s
  end.

(** Building blocks of the literals below. *)
Definition chr (c : ascii) : regex := Chr (Ascii.eqb c).
Definition chr_i (c : ascii) : regex :=
  Chr (fun x => Ascii.eqb (JS.lower x) (JS.lower c)).

Fixpoint lit (s : string) : regex :=
  match s with
  | EmptyString => Eps
  | String c s' => Seq (chr c) (lit s')
  end.

Fixpoint lit_i (s : string) : regex :=
  match s with
  | EmptyString => Eps
  | String c s' => Seq (chr_i c) (lit_i s')
  end.

Definition ws : regex := Chr JS.is_space.
Definition word : regex := Chr JS.is_word.
Definition dot : regex := Chr (fun c => negb (JS.is_line_terminator c)).
Definition plus (r : regex) : regex := Seq r (Star true r).
Definition star (r : regex) : regex := Star true r.
Definition star_lazy (r : regex) : regex := Star false r.

Fixpoint seq (l : list regex) : regex :=
  match l with
  | [] => Eps
  | [r] => r
  | r :: l' => Seq r (seq l')
  end.

End Regex.

(** ** Configuration *)

Record SecurityConfig := {
  enableQueryValidation : bool;
  maxQueryLength : Z;
  allowedOperations : list string;
  blockedKeywords : list string;
  maxRowsPerQuery : Z
}.

Record PoolSizing := {
  pool_max : Z;
  pool_min : Z;
  idleTimeoutMillis : Z
}.

Record ConnectionDefaults := {
  requestTimeout : Z;
  connectionTimeout : Z;
  pool : PoolSizing
}.

Record Features := {
  enableCaching : bool;
  cacheTimeout : Z;
  enableMetrics : bool;
  maxConcurrentQueries : Z
}.

Record MCPConfig := {
  security : SecurityConfig;
  connectionDefaults : ConnectionDefaults;
  features : Features
}.

Definition DEFAULT_CONFIG : MCPConfig := {|
  security := {|
    enableQueryValidation := true;
    maxQueryLength := 10000;
    allowedOperations := ["SELECT"; "INSERT"; "UPDATE"; "DELETE"; "WITH"];
    blockedKeywords :=
      ["xp_cmdshell"; "sp_execute"; "openrowset"; "opendatasource";
       "bulk"; "exec("; "execute("];
    maxRowsPerQuery := 10000 |};
  connectionDefaults := {|
    requestTimeout := 30000;
    connectionTimeout := 15000;
    pool := {| pool_max := 10; pool_min := 1; idleTimeoutMillis := 30000 |} |};
  features := {|
    enableCaching := true;
    cacheTimeout := 300;
    enableMetrics := true;
    maxConcurrentQueries := 5 |}
|}.

(** [DEFAULT_CONFIG] after the override applied when [NODE_ENV] is
    [production]. *)
Definition PRODUCTION_CONFIG : MCPConfig := {|
  security := {|
    enableQueryValidation := true;
    maxQueryLength := 5000;
    allowedOperations := ["SELECT"];
    blockedKeywords := blockedKeywords (security DEFAULT_CONFIG);
    maxRowsPerQuery := 1000 |};
  connectionDefaults := connectionDefaults DEFAULT_CONFIG;
  features := {|
    enableCaching := true;
    cacheTimeout := 300;
    enableMetrics := true;
    maxConcurrentQueries := 3 |}
|}.

(** ** Security validator *)

Module SecurityValidator.
Import Regex.

Record ValidationResult := {
  isValid : bool;
  errors : list string
}.

(** A regex literal: its [source] text and its meaning. *)
Record Pattern := {
  source : string;
  re : regex
}.

Definition dangerousPatterns : list Pattern := [
  {| source := ";\s*(drop|truncate|alter)\s+";
     re := seq [chr ";"; star ws;
                Alt (lit_i "drop") (Alt (lit_i "truncate") (lit_i "alter"));
                plus ws] |};
  {| source := "union\s+.*select";
     re := seq [lit_i "union"; plus ws; star dot; lit_i "select"] |};
  {| source := "\/\*.*\*\/";
     re := seq [lit "/*"; star dot; lit "*/"] |};
  {| source := "--.*$";
     re := seq [lit "--"; star dot; Eol] |};
  {| source := "xp_[\w]+";
     re := seq [lit_i "xp_"; plus word] |};
  {| source := "sp_[\w]+";
     re := seq [lit_i "sp_"; plus word] |}
].

(** [errors.push(e)] when [cond] holds. *)
Definition push_if (cond : bool) (e : string) (errors : list string)
  : list string :=
  if cond then errors ++ [e] else errors.

Definition check_length (config : SecurityConfig) (query : string)
    (errors : list string) : list string :=
  push_if (maxQueryLength config <? JS.length query)%Z
    ("Query exceeds maximum length of " +:+ JS.show (maxQueryLength config)
       +:+ " characters")
    errors.

Definition check_blocked (config : SecurityConfig) (query : string)
    (errors : list string) : list string :=
  let lowercaseQuery := JS.toLowerCase query in
  fold_left
    (fun errors keyword =>
       push_if (JS.includes lowercaseQuery (JS.toLowerCase keyword))
         ("Query contains blocked keyword: " +:+ keyword) errors)
    (blockedKeywords config) errors.

Definition check_patterns (query : string) (errors : list string)
  : list string :=
  fold_left
    (fun errors pattern =>
       push_if (test (re pattern) query)
         ("Query contains potentially dangerous pattern: " +:+ source pattern)
         errors)
    dangerousPatterns errors.

(** [query.trim().split(/\s+/)[0]?.toUpperCase()] *)
Definition firstWord (query : string) : string :=
  JS.toUpperCase (JS.split_ws_first (JS.trim query)).

Definition operation_error (config : SecurityConfig) (word : string) : string :=
  "Operation '" +:+ word +:+ "' is not allowed. Allowed operations: "
    +:+ JS.join ", " (allowedOperations config).

Definition check_operation (config : SecurityConfig) (query : string)
    (errors : list string) : list string :=
  if (0 <? List.length (allowedOperations config))%nat then
    push_if (JS.truthy (firstWord query)
             && negb (JS.array_includes (allowedOperations config) (firstWord query)))
      (operation_error config (firstWord query)) errors
  else errors.

Definition validateQuery (config : SecurityConfig) (query : string)
  : ValidationResult :=
  if negb (enableQueryValidation config) then
    {| isValid := true; errors := [] |}
  else
    let errors :=
      check_operation config query
        (check_patterns query
           (check_blocked config query
              (check_length config query []))) in
    {| isValid := (List.length errors =? 0)%nat; errors := errors |}.

Definition line_comment : regex := seq [lit "--"; star dot; Eol].
Definition block_comment : regex := seq [lit "/*"; star_lazy dot; lit "*/"].

Definition sanitizeQuery (query : string) : string :=
  JS.trim (replace_all block_comment "" (replace_all line_comment "" query)).

End SecurityValidator.

(** ** Values, connection arguments and errors *)

(** The values a row holds, and [JInherited name]: what a plain object
    that has no own property [name] answers for a name that
    [Object.prototype] defines (a built-in function, or the prototype
    itself for [__proto__]). *)
Inductive JsValue :=
| JUndefined
| JNull
| JBool (b : bool)
| JNum (n : Z)
| JStr (s : string)
| JInherited (name : string).

(** A plain object: its own keys in [Object.keys] order, each once. *)
Definition Row : Type := list (string * JsValue).

Definition keys (row : Row) : list string := map fst row.

(** The property names every plain object inherits from
    [Object.prototype]. *)
Definition prototype_names : list string :=
  ["constructor"; "__defineGetter__"; "__defineSetter__"; "hasOwnProperty";
   "__lookupGetter__"; "__lookupSetter__"; "isPrototypeOf";
   "propertyIsEnumerable"; "toString"; "valueOf"; "__proto__";
   "toLocaleString"].

Definition inherited (col : string) : bool :=
  existsb (String.eqb col) prototype_names.

(** [row[col]]: the row's own property, else the one it inherits from
    [Object.prototype], else [undefined]. *)
Fixpoint get (row : Row) (col : string) : JsValue :=
  match row with
  | [] => if inherited col then JInherited col else JUndefined
  | (k, v) :: row' => if String.eqb k col then v else get row' col
  end.

(** [values.includes(col)] for a string [col]. *)
Definition values_include (values : list JsValue) (col : string) : bool :=
  existsb (fun v => match v with JStr s => String.eqb s col | _ => false end)
    values.

(** The text [Array.prototype.join] gives to an element; an inherited
    built-in function prints as V8 prints native code, the prototype
    object as any plain object. *)
Definition join_text (v : JsValue) : string :=
  match v with
  | JUndefined | JNull => ""
  | JBool true => "true"
  | JBool false => "false"
  | JNum n => JS.show n
  | JStr s => s
  | JInherited name =>
      if String.eqb name "__proto__" then "[object Object]"
      else "function "
             +:+ (if String.eqb name "constructor" then "Object" else name)
             +:+ "() { [native code] }"
  end.

(** The connection fields of an argument bag, before [ConnectionSchema]. *)
Record RawConnection := {
  raw_server : option string;
  raw_port : option Z;
  raw_user : option string;
  raw_password : option string;
  raw_database : option string;
  raw_encrypt : option bool;
  raw_trustServerCertificate : option bool
}.

Record ConnectionConfig := {
  server : string;
  port : Z;
  user : string;
  password : string;
  database : option string;
  encrypt : bool;
  trustServerCertificate : bool
}.

(** [ConnectionSchema.parse]: three required strings, three defaults, one
    optional field; [None] stands for the [ZodError] it throws. *)
Definition ConnectionSchema_parse (args : RawConnection) : option ConnectionConfig :=
  match raw_server args, raw_user args, raw_password args with
  | Some s, Some u, Some p =>
      Some {| server := s;
              port := default 1433 (raw_port args);
              user := u;
              password := p;
              database := raw_database args;
              encrypt := default true (raw_encrypt args);
              trustServerCertificate := default true (raw_trustServerCertificate args) |}
  | _, _, _ => None
  end.

(** An optional string inside a template literal. *)
Definition show_optional (o : option string) : string :=
  default "undefined" o.

Inductive Details :=
| NoDetails
| ValidationDetails (errors : list string)
| ConnectionDetails (server : string) (port : Z) (database : option string)
    (originalError : string)
| BulkInsertDetails (table : string) (rowCount : Z).

(** What the code can throw: a library [Error] with its name and message
    (a driver error, a [ZodError], a [TypeError]) or the server's own
    [MCPError] with its code. *)
Inductive JsError :=
| Error (name message : string)
| MCPError (message code : string) (details : Details).

Definition error_message (e : JsError) : string :=
  match e with
  | Error _ m => m
  | MCPError m _ _ => m
  end.

Definition error_name (e : JsError) : string :=
  match e with
  | Error n _ => n
  | MCPError _ _ _ => "MCPError"
  end.

Definition error_code (e : JsError) : option string :=
  match e with
  | Error _ _ => None
  | MCPError _ c _ => Some c
  end.

(** Reading [.length] of [undefined] (the wording of V8). *)
Definition undefined_length : JsError :=
  Error "TypeError" "Cannot read properties of undefined (reading 'length')".

(** ** The environment: driver, schema library *)

Record PoolConfig := {
  pc_server : string;
  pc_port : Z;
  pc_user : string;
  pc_password : string;
  pc_database : option string;
  pc_encrypt : bool;
  pc_trustServerCertificate : bool;
  pc_pool : PoolSizing;
  pc_requestTimeout : Z;
  pc_connectionTimeout : Z
}.

Inductive DbCall :=
| Connect (pc : PoolConfig)
| Query (pool : nat) (text : string) (params : list (string * JsValue)).

(** [recordset] is [undefined] when the batch produced no result set. *)
Record QueryResult := {
  recordset : option (list Row);
  rowsAffected : list Z
}.

Inductive QueryReply :=
| Rejected (e : JsError)
| Resolved (r : QueryResult).

Record Env := {
  zod_message : RawConnection -> string;
  db_connect : list DbCall -> PoolConfig -> option JsError;
  db_query : list DbCall -> nat -> string -> list (string * JsValue) -> QueryReply
}.

Definition is_query (c : DbCall) : bool :=
  match c with Query _ _ _ => true | Connect _ => false end.

(** ** Server state *)

Class JsNumber (F : Type) := {
  num_of_int : Z -> F;
  num_add : F -> F -> F;
  num_div : F -> F -> F
}.

#[export] Instance Q_JsNumber : JsNumber Q := {|
  num_of_int := inject_Z;
  num_add := Qplus;
  num_div := Qdiv
|}.

Record ConnectionPool := {
  poolConfig : PoolConfig;
  connected : bool;
  healthy : bool
}.

Record Metrics (F : Type) := {
  totalQueries : Z;
  failedQueries : Z;
  avgExecutionTime : F;
  connectionCount : Z;
  cacheHits : Z
}.
Arguments totalQueries {F}.
Arguments failedQueries {F}.
Arguments avgExecutionTime {F}.
Arguments connectionCount {F}.
Arguments cacheHits {F}.

Record State (F : Type) := {
  connectionPools : gmap string nat;
  metrics : Metrics F;
  heap : list ConnectionPool;
  calls : list DbCall
}.
Arguments connectionPools {F}.
Arguments metrics {F}.
Arguments heap {F}.
Arguments calls {F}.

Inductive Result (A : Type) :=
| Ok (a : A)
| Throw (e : JsError).
Arguments Ok {A}.
Arguments Throw {A}.

Section Server.
Context {F : Type} `{JsNumber F}.
Variable env : Env.
Variable config : MCPConfig.

(** Handlers thread the state and may throw. *)
Definition M (A : Type) : Type := State F -> Result A * State F.

Definition ret {A} (a : A) : M A := fun st => (Ok a, st).
Definition throw {A} (e : JsError) : M A := fun st => (Throw e, st).

Definition bind {A B} (m : M A) (k : A -> M B) : M B :=
  fun st =>
    match m st with
    | (Ok a, st') => k a st'
    | (Throw e, st') => (Throw e, st')
    end.

Definition try_catch {A} (m : M A) (handler : JsError -> M A) : M A :=
  fun st =>
    match m st with
    | (Ok a, st') => (Ok a, st')
    | (Throw e, st') => handler e st'
    end.

Definition modify (f : State F -> State F) : M unit := fun st => (Ok tt, f st).
Definition gets {A} (f : State F -> A) : M A := fun st => (Ok (f st), st).

Notation "x <- m ;; k" := (bind m (fun x => k))
  (at level 100, m at next level, right associativity).
Notation "m ;;; k" := (bind m (fun _ => k))
  (at level 100, right associativity).

Definition with_metrics (f : Metrics F -> Metrics F) (st : State F) : State F :=
  {| connectionPools := connectionPools st;
     metrics := f (metrics st);
     heap := heap st;
     calls := calls st |}.

Definition with_pools (f : gmap string nat -> gmap string nat) (st : State F)
  : State F :=
  {| connectionPools := f (connectionPools st);
     metrics := metrics st;
     heap := heap st;
     calls := calls st |}.

Definition inc_totalQueries (m : Metrics F) : Metrics F :=
  {| totalQueries := totalQueries m + 1;
     failedQueries := failedQueries m;
     avgExecutionTime := avgExecutionTime m;
     connectionCount := connectionCount m;
     cacheHits := cacheHits m |}.

Definition inc_failedQueries (m : Metrics F) : Metrics F :=
  {| totalQueries := totalQueries m;
     failedQueries := failedQueries m + 1;
     avgExecutionTime := avgExecutionTime m;
     connectionCount := connectionCount m;
     cacheHits := cacheHits m |}.

Definition inc_connectionCount (m : Metrics F) : Metrics F :=
  {| totalQueries := totalQueries m;
     failedQueries := failedQueries m;
     avgExecutionTime := avgExecutionTime m;
     connectionCount := connectionCount m + 1;
     cacheHits := cacheHits m |}.

Definition inc_cacheHits (m : Metrics F) : Metrics F :=
  {| totalQueries := totalQueries m;
     failedQueries := failedQueries m;
     avgExecutionTime := avgExecutionTime m;
     connectionCount := connectionCount m;
     cacheHits := cacheHits m + 1 |}.

Definition set_avgExecutionTime (a : F) (m : Metrics F) : Metrics F :=
  {| totalQueries := totalQueries m;
     failedQueries := failedQueries m;
     avgExecutionTime := a;
     connectionCount := connectionCount m;
     cacheHits := cacheHits m |}.

(** [pool.connected], read from the pool object. *)
Definition pool_connected (st : State F) (pool : nat) : bool :=
  match heap st !! pool with
  | Some o => connected o
  | None => false
  end.

(** [new sql.ConnectionPool(poolConfig)] followed by [await pool.connect()]:
    the call is logged; when the driver resolves, the pool object exists,
    connected and healthy, at a fresh heap index. *)
Definition open_pool (pc : PoolConfig) : M nat :=
  fun st =>
    let st' := {| connectionPools := connectionPools st;
                  metrics := metrics st;
                  heap := heap st;
                  calls := calls st ++ [Connect pc] |} in
    match db_connect env (calls st) pc with
    | Some e => (Throw e, st')
    | None =>
        (Ok (List.length (heap st)),
         {| connectionPools := connectionPools st';
            metrics := metrics st';
            heap := heap st ++ [{| poolConfig := pc; connected := true; healthy := true |}];
            calls := calls st' |})
    end.

(** [await pool.request().query(text)] with the inputs [params]. *)
Definition run_query (pool : nat) (text : string) (params : list (string * JsValue))
  : M QueryResult :=
  fun st =>
    let st' := {| connectionPools := connectionPools st;
                  metrics := metrics st;
                  heap := heap st;
                  calls := calls st ++ [Query pool text params] |} in
    match db_query env (calls st) pool text params with
    | Rejected e => (Throw e, st')
    | Resolved r => (Ok r, st')
    end.

(** ** Connection pool registry *)

(** [config.database || 'default'] *)
Definition database_or_default (c : ConnectionConfig) : string :=
  match database c with
  | Some d => if JS.truthy d then d else "default"
  | None => "default"
  end.

Definition createConnectionKey (c : ConnectionConfig) : string :=
  server c +:+ ":" +:+ JS.show (port c) +:+ ":" +:+ user c +:+ ":" +:+
  database_or_default c.

Definition make_poolConfig (c : ConnectionConfig) : PoolConfig :=
  {| pc_server := server c;
     pc_port := port c;
     pc_user := user c;
     pc_password := password c;
     pc_database := database c;
     pc_encrypt := encrypt c;
     pc_trustServerCertificate := trustServerCertificate c;
     pc_pool := pool (connectionDefaults config);
     pc_requestTimeout := requestTimeout (connectionDefaults config);
     pc_connectionTimeout := connectionTimeout (connectionDefaults config) |}.

Definition connection_error (c : ConnectionConfig) (error : JsError) : JsError :=
  MCPError ("Failed to connect to database: " +:+ error_message error)
    "CONNECTION_ERROR"
    (ConnectionDetails (server c) (port c) (database c) (error_name error)).

(** The [try] block of [getConnection]. *)
Definition connect_and_register (c : ConnectionConfig) (connectionKey : string)
  : M nat :=
  try_catch
    (pool <- open_pool (make_poolConfig c) ;;
     modify (with_pools (insert connectionKey pool)) ;;;
     modify (with_metrics inc_connectionCount) ;;;
     ret pool)
    (fun error =>
       modify (with_metrics inc_failedQueries) ;;;
       throw (connection_error c error)).

Definition getConnection (c : ConnectionConfig) : M nat :=
  let connectionKey := createConnectionKey c in
  cached <- gets (fun st => connectionPools st !! connectionKey) ;;
  match cached with
  | Some pool =>
      is_connected <- gets (fun st => pool_connected st pool) ;;
      if is_connected then
        modify (with_metrics inc_cacheHits) ;;;
        ret pool
      else
        modify (with_pools (delete connectionKey)) ;;;
        connect_and_register c connectionKey
  | None => connect_and_register c connectionKey
  end.

(** ** Query executor *)

Record QueryArgs := {
  q_connection : RawConnection;
  q_query : string;
  q_limit : option Z
}.

(** The three readings of [Date.now()] in [handleQuery]: on entry, when
    the average is updated, and when the answer is built. *)
Record Clock := {
  startTime : Z;
  metricsTime : Z;
  reportTime : Z
}.

(** The object that [handleQuery] serialises into its answer. *)
Record QueryOutcome := {
  out_server : string;
  out_database : option string;
  out_query : string;
  out_rowCount : Z;
  out_executionTime : Z;
  out_data : list Row
}.

(** [/^select\s+/i] *)
Definition select_prefix : Regex.regex :=
  Regex.seq [Regex.lit_i "select"; Regex.plus Regex.ws].

Definition top_clause (limit : Z) : string :=
  "SELECT TOP " +:+ JS.show (Z.min limit (maxRowsPerQuery (security config))) +:+ " ".

(** Lines 597-603: the [TOP] clause is added when [limit] is truthy, the
    lower-cased text has no [" top "] and starts with [select]. *)
Definition finalQuery_of (limit : Z) (sanitizedQuery : string) : string :=
  let trimmedQuery := JS.toLowerCase (JS.trim sanitizedQuery) in
  if negb (limit =? 0)%Z
     && negb (JS.includes trimmedQuery " top ")
     && JS.startsWith trimmedQuery "select"
  then Regex.replace_at_start select_prefix (top_clause limit) sanitizedQuery
  else sanitizedQuery.

Definition validation_error (errors : list string) : JsError :=
  MCPError ("Query validation failed: " +:+ JS.join ", " errors)
    "QUERY_VALIDATION_ERROR" (ValidationDetails errors).

Definition parse_connection (raw : RawConnection) : M ConnectionConfig :=
  match ConnectionSchema_parse raw with
  | Some c => ret c
  | None => throw (Error "ZodError" (zod_message env raw))
  end.

Definition update_avgExecutionTime (elapsed : Z) (m : Metrics F) : Metrics F :=
  set_avgExecutionTime
    (num_div (num_add (avgExecutionTime m) (num_of_int elapsed))
       (num_of_int (totalQueries m)))
    m.

Definition handleQuery (clock : Clock) (args : QueryArgs) : M QueryOutcome :=
  modify (with_metrics inc_totalQueries) ;;;
  try_catch
    (c <- parse_connection (q_connection args) ;;
     let query := q_query args in
     let limit := default 1000 (q_limit args) in
     let validation := SecurityValidator.validateQuery (security config) query in
     if negb (SecurityValidator.isValid validation) then
       throw (validation_error (SecurityValidator.errors validation))
     else
       let sanitizedQuery := SecurityValidator.sanitizeQuery query in
       pool <- getConnection c ;;
       let finalQuery := finalQuery_of limit sanitizedQuery in
       result <- run_query pool
                   ("USE [" +:+ show_optional (database c) +:+ "]; " +:+ finalQuery) [] ;;
       modify (with_metrics
                 (update_avgExecutionTime (metricsTime clock - startTime clock))) ;;;
       match recordset result with
       | None => throw undefined_length
       | Some rows =>
           ret {| out_server := server c;
                  out_database := database c;
                  out_query := finalQuery;
                  out_rowCount := Z.of_nat (List.length rows);
                  out_executionTime := reportTime clock - startTime clock;
                  out_data := rows |}
       end)
    (fun error =>
       modify (with_metrics inc_failedQueries) ;;;
       throw error).

(** ** Bulk-insert engine *)

Record BulkInsertArgs := {
  b_connection : RawConnection;
  b_table : string;
  b_data : option (list Row)
}.

(** The object that [handleBulkInsert] serialises into its answer. *)
Record BulkInsertReport := {
  rep_server : string;
  rep_database : option string;
  rep_table : string;
  totalRowsProcessed : Z;
  totalRowsInserted : Z;
  rep_status : string
}.

Definition nl : string := String (ascii_of_nat 10) EmptyString.

Definition structure_query (db table : string) : string :=
  nl +:+
  "        USE [" +:+ db +:+ "];" +:+ nl +:+
  "        SELECT " +:+ nl +:+
  "          COLUMN_NAME," +:+ nl +:+
  "          DATA_TYPE," +:+ nl +:+
  "          IS_NULLABLE," +:+ nl +:+
  "          COLUMN_DEFAULT" +:+ nl +:+
  "        FROM INFORMATION_SCHEMA.COLUMNS " +:+ nl +:+
  "        WHERE TABLE_NAME = '" +:+ table +:+ "'" +:+ nl +:+
  "        ORDER BY ORDINAL_POSITION" +:+ nl +:+
  "      ".

Definition insert_query (db table insertColumns batchPlaceholders : string)
  : string :=
  nl +:+
  "          USE [" +:+ db +:+ "];" +:+ nl +:+
  "          INSERT INTO [" +:+ table +:+ "] (" +:+ insertColumns +:+ ")" +:+ nl +:+
  "          VALUES " +:+ batchPlaceholders +:+ nl +:+
  "        ".

Fixpoint count_char (c : ascii) (s : string) : nat :=
  match s with
  | EmptyString => O
  | String a s' => (if Ascii.eqb a c then 1 else 0) + count_char c s'
  end.

(** [insertQuery.replace(/\?/g, (match, offset) => ...)]: the question
    mark at [offset] becomes [@param] followed by the number of question
    marks of [insertQuery] before [offset]. *)
Fixpoint name_placeholders (insertQuery : string) (offset : nat) (rest : string)
  : string :=
  match rest with
  | EmptyString => EmptyString
  | String c rest' =>
      if Ascii.eqb c "?" then
        let paramIndex := count_char "?" (substring 0 offset insertQuery) in
        "@param" +:+ JS.show (Z.of_nat paramIndex)
          +:+ name_placeholders insertQuery (S offset) rest'
      else String c (name_placeholders insertQuery (S offset) rest')
  end.

Definition batchSize : nat := 100.

(** [data.slice(i, j)] for [i <= j]. *)
Definition slice {A} (i j : nat) (data : list A) : list A :=
  firstn (j - i) (skipn i data).

(** The request built for one batch: the text sent and its inputs. *)
Definition insert_request (db table : string) (dataColumns : list string)
    (batch : list Row) : string * list (string * JsValue) :=
  let insertColumns := JS.join ", " dataColumns in
  let valuesPlaceholder :=
    "(" +:+ JS.join ", " (map (fun _ => "?") dataColumns) +:+ ")" in
  let batchValues := flat_map (fun row => map (fun col => get row col) dataColumns) batch in
  let batchPlaceholders := JS.join ", " (map (fun _ => valuesPlaceholder) batch) in
  let insertQuery := insert_query db table insertColumns batchPlaceholders in
  let inputs :=
    imap (fun index value => ("param" +:+ JS.show (Z.of_nat index), value)) batchValues in
  (name_placeholders insertQuery 0 insertQuery, inputs).

(** The loop [for (let i = 0; i < data.length; i += batchSize)]; [fuel]
    bounds the number of iterations. *)
Fixpoint insert_batches (fuel : nat) (pool : nat) (db table : string)
    (dataColumns : list string) (data : list Row) (i : nat) (totalInserted : Z)
  : M Z :=
  match fuel with
  | O => ret totalInserted
  | S fuel' =>
      if (i <? List.length data)%nat then
        let batch := slice i (i + batchSize) data in
        let request := insert_request db table dataColumns batch in
        result <- run_query pool (fst request) (snd request) ;;
        insert_batches fuel' pool db table dataColumns data (i + batchSize)
          (totalInserted + hd 0%Z (rowsAffected result))
      else ret totalInserted
  end.

Definition bulk_insert_error (table : string) (data : list Row) (error : JsError)
  : JsError :=
  MCPError ("Bulk insert failed: " +:+ error_message error) "BULK_INSERT_ERROR"
    (BulkInsertDetails table (Z.of_nat (List.length data))).

Definition handleBulkInsert (args : BulkInsertArgs) : M BulkInsertReport :=
  c <- parse_connection (b_connection args) ;;
  let table := b_table args in
  match b_data args with
  | None | Some [] => throw (MCPError "Data must be a non-empty array" "INVALID_DATA" NoDetails)
  | Some ((firstRow :: _) as data) =>
      try_catch
        (pool <- getConnection c ;;
         structureResult <- run_query pool
                              (structure_query (show_optional (database c)) table) [] ;;
         match recordset structureResult with
         | None => throw undefined_length
         | Some columns =>
             if (List.length columns =? 0)%nat then
               throw (MCPError ("Table '" +:+ table +:+ "' not found")
                        "TABLE_NOT_FOUND" NoDetails)
             else
               let columnNames := map (fun col => get col "COLUMN_NAME") columns in
               let dataColumns := keys firstRow in
               let invalidColumns :=
                 List.filter (fun col => negb (values_include columnNames col)) dataColumns in
               if (0 <? List.length invalidColumns)%nat then
                 throw (MCPError
                          ("Invalid columns: " +:+ JS.join ", " invalidColumns
                             +:+ ". Valid columns: "
                             +:+ JS.join ", " (map join_text columnNames))
                          "INVALID_COLUMNS" NoDetails)
               else
                 totalInserted <-
                   insert_batches (List.length data) pool
                     (show_optional (database c)) table dataColumns data 0 0 ;;
                 ret {| rep_server := server c;
                        rep_database := database c;
                        rep_table := table;
                        totalRowsProcessed := Z.of_nat (List.length data);
                        totalRowsInserted := totalInserted;
                        rep_status := "success" |}
         end)
        (fun error => throw (bulk_insert_error table data error))
  end.

(** ** Vocabulary of the statements: states and outcomes *)

(** The pool object a successful connect leaves on the heap. *)
Definition fresh_pool (c : ConnectionConfig) : ConnectionPool :=
  {| poolConfig := make_poolConfig c; connected := true; healthy := true |}.

(** The state after a successful [connect_and_register]. *)
Definition registered (c : ConnectionConfig) (key : string) (st : State F) : State F :=
  {| connectionPools := <[key := List.length (heap st)]> (connectionPools st);
     metrics := inc_connectionCount (metrics st);
     heap := heap st ++ [fresh_pool c];
     calls := calls st ++ [Connect (make_poolConfig c)] |}.

(** The state after a failed one. *)
Definition refused (c : ConnectionConfig) (st : State F) : State F :=
  {| connectionPools := connectionPools st;
     metrics := inc_failedQueries (metrics st);
     heap := heap st;
     calls := calls st ++ [Connect (make_poolConfig c)] |}.

(** Whether the cache holds a connected pool under [key]. *)
Definition cached_live (st : State F) (key : string) : bool :=
  match connectionPools st !! key with
  | Some pool => pool_connected st pool
  | None => false
  end.

(** The three ways a call ends. *)
Inductive Outcome (c : ConnectionConfig) (st : State F)
  : Result nat -> State F -> Prop :=
| Hit pool :
    connectionPools st !! createConnectionKey c = Some pool ->
    pool_connected st pool = true ->
    Outcome c st (Ok pool) (with_metrics inc_cacheHits st)
| Opened :
    cached_live st (createConnectionKey c) = false ->
    db_connect env (calls st) (make_poolConfig c) = None ->
    Outcome c st (Ok (List.length (heap st)))
      (registered c (createConnectionKey c)
         (with_pools (delete (createConnectionKey c)) st))
| Failed e :
    cached_live st (createConnectionKey c) = false ->
    db_connect env (calls st) (make_poolConfig c) = Some e ->
    Outcome c st (Throw (connection_error c e))
      (refused c (with_pools (delete (createConnectionKey c)) st)).

(** What may happen between two calls: the driver flips the flags of
    pool objects.  The cache is the registry's own, and a pool object
    keeps the configuration it was built with. *)
Definition drift (st1 st2 : State F) : Prop :=
  connectionPools st2 = connectionPools st1 /\
  map poolConfig (heap st2) = map poolConfig (heap st1).

(** The text [handleQuery] sends for a validated query. *)
Definition query_text (c : ConnectionConfig) (args : QueryArgs) : string :=
  "USE [" +:+ show_optional (database c) +:+ "]; "
    +:+ finalQuery_of (default 1000 (q_limit args))
          (SecurityValidator.sanitizeQuery (q_query args)).

(** The state once [call] has been sent to the driver. *)
Definition logged (call : DbCall) (st : State F) : State F :=
  {| connectionPools := connectionPools st;
     metrics := metrics st;
     heap := heap st;
     calls := calls st ++ [call] |}.

End Server.

Arguments M F A : clear implicits.

(** ** Vocabulary of the statements: requests, errors, text shapes *)

Definition empty_data_error : JsError :=
  MCPError "Data must be a non-empty array" "INVALID_DATA" NoDetails.

(** The names the schema lookup returned. *)
Definition column_names (columns : list Row) : list JsValue :=
  map (fun col => get col "COLUMN_NAME") columns.

(** The keys of the first row that are no column of the table. *)
Definition invalid_columns (columns : list Row) (firstRow : Row) : list string :=
  List.filter (fun col => negb (values_include (column_names columns) col))
    (keys firstRow).

(** The schema lookup of [handleBulkInsert]. *)
Definition structure_call (pool : nat) (c : ConnectionConfig) (table : string)
  : DbCall :=
  Query pool (structure_query (show_optional (database c)) table) [].

(** The insert sent for one batch. *)
Definition insert_call (pool : nat) (c : ConnectionConfig) (table : string)
    (dataColumns : list string) (batch : list Row) : DbCall :=
  Query pool
    (fst (insert_request (show_optional (database c)) table dataColumns batch))
    (snd (insert_request (show_optional (database c)) table dataColumns batch)).

(** The error thrown at line 884, before the [catch] of line 940. *)
Definition invalid_columns_error (columns : list Row) (firstRow : Row) : JsError :=
  MCPError
    ("Invalid columns: " +:+ JS.join ", " (invalid_columns columns firstRow)
       +:+ ". Valid columns: "
       +:+ JS.join ", " (map join_text (column_names columns)))
    "INVALID_COLUMNS" NoDetails.

Definition insert_text (c : ConnectionConfig) (table : string)
    (dataColumns : list string) (batch : list Row) : string :=
  fst (insert_request (show_optional (database c)) table dataColumns batch).

Definition insert_inputs (c : ConnectionConfig) (table : string)
    (dataColumns : list string) (batch : list Row) : list (string * JsValue) :=
  snd (insert_request (show_optional (database c)) table dataColumns batch).

(** Whether [s] starts with a whitespace character. *)
Definition leading_space (s : string) : bool :=
  match s with
  | String c _ => JS.is_space c
  | EmptyString => false
  end.

Fixpoint all_space (s : string) : bool :=
  match s with
  | String c s' => JS.is_space c && all_space s'
  | EmptyString => true
  end.

(** ** A concrete environment

    A small database used to run the handlers: one table of seven
    customers behind the login [sa]/[secret].  For a statement
    [SELECT TOP k ...] it answers the first [k] rows. *)

Module Toy.

Definition customer (id name country : string) : Row :=
  [("CustomerID", JStr id); ("CompanyName", JStr name); ("Country", JStr country)].

Definition Customers : list Row := [
  customer "C1" "Alfreds" "Germany";
  customer "C2" "Bolido" "Spain";
  customer "C3" "Chop-suey" "Switzerland";
  customer "C4" "Drachenblut" "Germany";
  customer "C5" "Ernst" "Austria";
  customer "C6" "Folk" "Sweden";
  customer "C7" "Galeria" "Spain"
].

Definition column (name : string) : Row :=
  [("COLUMN_NAME", JStr name); ("DATA_TYPE", JStr "nvarchar");
   ("IS_NULLABLE", JStr "YES"); ("COLUMN_DEFAULT", JNull)].

Definition Columns : list Row :=
  [column "CustomerID"; column "CompanyName"; column "Country"].

Fixpoint drop (n : nat) (s : string) : string :=
  match n, s with
  | O, _ => s
  | S n', String _ s' => drop n' s'
  | S _, EmptyString => EmptyString
  end.

(** The text after the first ["]; "], when [text] starts with [USE]. *)
Fixpoint after_bracket (s : string) : string :=
  match s with
  | EmptyString => EmptyString
  | String c s' =>
      if JS.startsWith s "]; " then drop 3 s else after_bracket s'
  end.

Definition statement (text : string) : string :=
  if JS.startsWith text "USE [" then after_bracket text else text.

Fixpoint until_space (s : string) : string * string :=
  match s with
  | EmptyString => (EmptyString, EmptyString)
  | String c s' =>
      if Ascii.eqb c " " then (EmptyString, s')
      else let (a, b) := until_space s' in (String c a, b)
  end.

(** The count [k] of a statement [SELECT TOP k ...]. *)
Definition top_count (stmt : string) : option Z :=
  match NilZero.int_of_string (fst (until_space (drop 11 stmt))) with
  | Some (Decimal.Pos d) => Some (Z.of_int (Decimal.Pos d))
  | _ => None
  end.

Definition syntax_error : JsError :=
  Error "RequestError" "Incorrect syntax".

Definition invalid_object : JsError :=
  Error "RequestError" "Invalid object name".

(** The rows a [SELECT] reads: the statement must name the one table. *)
Definition select_from (stmt : string) (rows : list Row) (affected : Z)
  : QueryReply :=
  if JS.includes stmt "FROM Customers" then
    Resolved {| recordset := Some rows; rowsAffected := [affected] |}
  else Rejected invalid_object.

Definition answer (text : string) : QueryReply :=
  let stmt := statement text in
  if JS.startsWith stmt "SELECT TOP " then
    match top_count stmt with
    | Some k => select_from stmt (firstn (Z.to_nat k) Customers) (Z.min k 7)
    | None => Rejected syntax_error
    end
  else if JS.includes text "INFORMATION_SCHEMA.COLUMNS" then
    Resolved {| recordset := Some Columns; rowsAffected := [3] |}
  else if JS.includes text "INSERT INTO" then
    Resolved {| recordset := None;
                rowsAffected := [Z.of_nat (count_char "(" text) - 1] |}
  else if JS.startsWith (JS.toLowerCase stmt) "select"
          || JS.startsWith (JS.toLowerCase stmt) "with" then
    select_from stmt Customers 7
  else Rejected syntax_error.

Definition login_failed : JsError :=
  Error "ConnectionError" "Login failed for user".

Definition env : Env := {|
  zod_message := fun _ => "Required";
  db_connect := fun _ pc =>
    if String.eqb (pc_user pc) "sa" && String.eqb (pc_password pc) "secret"
    then None else Some login_failed;
  db_query := fun _ _ text _ => answer text
|}.

Definition raw (pw : string) : RawConnection := {|
  raw_server := Some "localhost";
  raw_port := None;
  raw_user := Some "sa";
  raw_password := Some pw;
  raw_database := Some "shop";
  raw_encrypt := None;
  raw_trustServerCertificate := None
|}.

Definition creds (pw : string) : ConnectionConfig := {|
  server := "localhost";
  port := 1433;
  user := "sa";
  password := pw;
  database := Some "shop";
  encrypt := true;
  trustServerCertificate := true
|}.

Definition metrics0 : Metrics Q := {|
  totalQueries := 0;
  failedQueries := 0;
  avgExecutionTime := 0%Q;
  connectionCount := 0;
  cacheHits := 0
|}.

Definition st0 : State Q := {|
  connectionPools := ∅;
  metrics := metrics0;
  heap := [];
  calls := []
|}.

Definition clock : Clock := {| startTime := 1000; metricsTime := 1020; reportTime := 1021 |}.

End Toy.

(** ** Concrete policies, arguments and states *)

(** A policy that would fire all four checks on the query below, were
    validation on. *)
Definition lax_policy : SecurityConfig := {|
  enableQueryValidation := false;
  maxQueryLength := 5;
  allowedOperations := ["SELECT"];
  blockedKeywords := ["xp_cmdshell"];
  maxRowsPerQuery := 10
|}.

(** [DEFAULT_CONFIG] with a cap of three rows per query. *)
Definition capped_config : MCPConfig := {|
  security := {|
    enableQueryValidation := true;
    maxQueryLength := 10000;
    allowedOperations := allowedOperations (security DEFAULT_CONFIG);
    blockedKeywords := blockedKeywords (security DEFAULT_CONFIG);
    maxRowsPerQuery := 3 |};
  connectionDefaults := connectionDefaults DEFAULT_CONFIG;
  features := features DEFAULT_CONFIG
|}.

(** The toy server after one successful [getConnection], and the same
    state once the driver has lost the connection. *)
Definition toy_st1 : State Q :=
  snd (getConnection Toy.env DEFAULT_CONFIG (Toy.creds "secret") Toy.st0).

Definition toy_st1_dead : State Q :=
  {| connectionPools := connectionPools toy_st1;
     metrics := metrics toy_st1;
     heap := [{| poolConfig := make_poolConfig DEFAULT_CONFIG (Toy.creds "secret");
                 connected := false;
                 healthy := false |}];
     calls := calls toy_st1 |}.

(** The same state with the pool still connected but no longer healthy. *)
Definition toy_st1_unhealthy : State Q :=
  {| connectionPools := connectionPools toy_st1;
     metrics := metrics toy_st1;
     heap := [{| poolConfig := make_poolConfig DEFAULT_CONFIG (Toy.creds "secret");
                 connected := true;
                 healthy := false |}];
     calls := calls toy_st1 |}.

(** [capped_config] without a whitelist of operations. *)
Definition open_config : MCPConfig := {|
  security := {|
    enableQueryValidation := true;
    maxQueryLength := 10000;
    allowedOperations := [];
    blockedKeywords := blockedKeywords (security DEFAULT_CONFIG);
    maxRowsPerQuery := 3 |};
  connectionDefaults := connectionDefaults DEFAULT_CONFIG;
  features := features DEFAULT_CONFIG
|}.

Definition toy_glued_select : QueryArgs :=
  {| q_connection := Toy.raw "secret";
     q_query := "SELECT* FROM Customers";
     q_limit := Some 5 |}.

Definition toy_missing_table : QueryArgs :=
  {| q_connection := Toy.raw "secret";
     q_query := "SELECT * FROM Orders";
     q_limit := None |}.

Definition toy_select : QueryArgs :=
  {| q_connection := Toy.raw "secret";
     q_query := "SELECT * FROM Customers";
     q_limit := Some 5 |}.

Definition toy_explicit_top : QueryArgs :=
  {| q_connection := Toy.raw "secret";
     q_query := "SELECT TOP 7 * FROM Customers";
     q_limit := Some 5 |}.

Definition toy_zero_limit : QueryArgs :=
  {| q_connection := Toy.raw "secret";
     q_query := "SELECT * FROM Customers";
     q_limit := Some 0 |}.

Definition toy_with : QueryArgs :=
  {| q_connection := Toy.raw "secret";
     q_query := "WITH c AS (SELECT * FROM Customers) SELECT * FROM c";
     q_limit := Some 5 |}.

Definition toy_bad_rows : BulkInsertArgs :=
  {| b_connection := Toy.raw "secret";
     b_table := "Customers";
     b_data := Some [[("CustomerID", JStr "C8"); ("Bogus", JNum 1)];
                     Toy.customer "C9" "Hanari" "Brazil"] |}.

(** 250 rows, all with the three columns of the toy table. *)
Definition toy_rows : list Row :=
  map (fun n => Toy.customer (JS.show (Z.of_nat n)) "Hanari" "Brazil") (seq 0 250).

Definition toy_250 : BulkInsertArgs :=
  {| b_connection := Toy.raw "secret";
     b_table := "Customers";
     b_data := Some toy_rows |}.

Definition inserted (n : Z) : QueryResult :=
  {| recordset := None; rowsAffected := [n] |}.

(** * Further definitions *)

(** ** Security validator: the checks, one by one *)

Definition length_error (config : SecurityConfig) : string :=
  "Query exceeds maximum length of " +:+ JS.show (maxQueryLength config)
    +:+ " characters".

Definition keyword_error (keyword : string) : string :=
  "Query contains blocked keyword: " +:+ keyword.

Definition pattern_error (pattern : SecurityValidator.Pattern) : string :=
  "Query contains potentially dangerous pattern: "
    +:+ SecurityValidator.source pattern.

Definition too_long (config : SecurityConfig) (query : string) : bool :=
  (maxQueryLength config <? JS.length query)%Z.

Definition keyword_found (query keyword : string) : bool :=
  JS.includes (JS.toLowerCase query) (JS.toLowerCase keyword).

Definition pattern_found (query : string) (pattern : SecurityValidator.Pattern)
  : bool :=
  Regex.test (SecurityValidator.re pattern) query.

Definition operation_refused (config : SecurityConfig) (query : string) : bool :=
  (0 <? List.length (allowedOperations config))%nat
  && JS.truthy (SecurityValidator.firstWord query)
  && negb (JS.array_includes (allowedOperations config)
             (SecurityValidator.firstWord query)).

(** The error list told declaratively: the violated checks in the order
    of the code, the blocked keywords in the order of the policy, the
    patterns in the order of the table. *)
Definition expected_errors (config : SecurityConfig) (query : string)
  : list string :=
  ((if too_long config query then [length_error config] else [])
   ++ map keyword_error (List.filter (keyword_found query) (blockedKeywords config))
   ++ map pattern_error
        (List.filter (pattern_found query) SecurityValidator.dangerousPatterns)
   ++ (if operation_refused config query
       then [SecurityValidator.operation_error config
               (SecurityValidator.firstWord query)]
       else []))%list.

(** What is left of [s] after the prefix [p]. *)
Fixpoint strip_prefix (p s : string) : option string :=
  match p, s with
  | EmptyString, _ => Some s
  | String a p', String b s' => if Ascii.eqb a b then strip_prefix p' s' else None
  | String _ _, EmptyString => None
  end.

(** Whether [*/] comes in [u] before any line terminator. *)
Fixpoint closes_comment (u : string) : bool :=
  JS.startsWith u "*/" ||
  match u with
  | String c u' => negb (JS.is_line_terminator c) && closes_comment u'
  | EmptyString => false
  end.

(** A text without line terminator. *)
Fixpoint single_line (s : string) : bool :=
  match s with
  | String c s' => negb (JS.is_line_terminator c) && single_line s'
  | EmptyString => true
  end.

(** ** Connection pool registry: what the cache holds *)

(** The connection key of the configuration a pool was built with. *)
Definition pool_key (pc : PoolConfig) : string :=
  pc_server pc +:+ ":" +:+ JS.show (pc_port pc) +:+ ":" +:+ pc_user pc +:+ ":" +:+
  match pc_database pc with
  | Some d => if JS.truthy d then d else "default"
  | None => "default"
  end.

(** Every cached entry points to a pool object that was built for the
    key it is filed under. *)
Definition cache_consistent {F : Type} (st : State F) : Prop :=
  forall key pool,
    connectionPools st !! key = Some pool ->
    exists o, heap st !! pool = Some o /\ pool_key (poolConfig o) = key.

(** ** Further concrete arguments *)

Definition toy_insert : QueryArgs :=
  {| q_connection := Toy.raw "secret";
     q_query := "INSERT INTO Customers (CustomerID) VALUES ('C8')";
     q_limit := None |}.

Definition toy_wrong_password : QueryArgs :=
  {| q_connection := Toy.raw "guess";
     q_query := "SELECT * FROM Customers";
     q_limit := None |}.

(** ** Bulk-insert engine: the batches *)

(** [data] cut into consecutive batches of [batchSize] rows; [fuel]
    bounds their number. *)
Fixpoint batches_of {A : Type} (fuel : nat) (data : list A) : list (list A) :=
  match fuel with
  | O => []
  | S fuel' =>
      match data with
      | [] => []
      | _ :: _ => firstn batchSize data :: batches_of fuel' (skipn batchSize data)
      end
  end.





(** 101 rows: one full batch and one row more. *)
Definition toy_101 : BulkInsertArgs :=
  {| b_connection := Toy.raw "secret";
     b_table := "Customers";
     b_data := Some (firstn 101 toy_rows) |}.

(** ** Bulk-insert engine: the placeholders *)

(** The question marks of [s] numbered from [n] on, left to right. *)
Fixpoint number_from (n : nat) (s : string) : string :=
  match s with
  | EmptyString => EmptyString
  | String c s' =>
      if Ascii.eqb c "?"
      then "@param" +:+ JS.show (Z.of_nat n) +:+ number_from (S n) s'
      else String c (number_from n s')
  end.

(** One tuple of [cols] named placeholders, the first being [@param first]. *)
Definition placeholder_row (cols first : nat) : string :=
  "(" +:+ JS.join ", "
            (map (fun k => "@param" +:+ JS.show (Z.of_nat (first + k))) (seq 0 cols))
      +:+ ")".

(** [rows] tuples whose placeholders are numbered row after row. *)
Definition placeholder_rows (cols rows : nat) : string :=
  JS.join ", " (map (fun r => placeholder_row cols (r * cols)) (seq 0 rows)).

(** Whether every character of [s] satisfies [p]. *)
Fixpoint all_chars (p : ascii -> bool) (s : string) : bool :=
  match s with
  | String c s' => p c && all_chars p s'
  | EmptyString => true
  end.

(** ** The other tools

    The remaining handlers of the server, and the dispatcher that calls
    all nine.  An answer is the object a handler serialises into its
    [content], with the [isError] flag where the handler sets it. *)

(** The statement of [handleListDatabases]. *)
Definition list_databases_query : string :=
  nl +:+
  "      SELECT name as database_name" +:+ nl +:+
  "      FROM sys.databases" +:+ nl +:+
  "      WHERE state = 0  -- Only online databases" +:+ nl +:+
  "      ORDER BY name" +:+ nl +:+
  "    ".

(** The statement of [handleListTables]. *)
Definition list_tables_query (db : string) : string :=
  nl +:+
  "      USE [" +:+ db +:+ "];" +:+ nl +:+
  "      SELECT " +:+ nl +:+
  "        TABLE_SCHEMA as schema_name," +:+ nl +:+
  "        TABLE_NAME as table_name," +:+ nl +:+
  "        TABLE_TYPE as table_type" +:+ nl +:+
  "      FROM INFORMATION_SCHEMA.TABLES" +:+ nl +:+
  "      WHERE TABLE_TYPE = 'BASE TABLE'" +:+ nl +:+
  "      ORDER BY TABLE_SCHEMA, TABLE_NAME" +:+ nl +:+
  "    ".

(** The statement of [handleDescribeTable]. *)
Definition describe_table_query (db table : string) : string :=
  nl +:+
  "      USE [" +:+ db +:+ "];" +:+ nl +:+
  "      SELECT " +:+ nl +:+
  "        c.COLUMN_NAME as column_name," +:+ nl +:+
  "        c.DATA_TYPE as data_type," +:+ nl +:+
  "        c.IS_NULLABLE as is_nullable," +:+ nl +:+
  "        c.COLUMN_DEFAULT as default_value," +:+ nl +:+
  "        c.CHARACTER_MAXIMUM_LENGTH as max_length," +:+ nl +:+
  "        c.NUMERIC_PRECISION as precision," +:+ nl +:+
  "        c.NUMERIC_SCALE as scale," +:+ nl +:+
  "        CASE WHEN pk.COLUMN_NAME IS NOT NULL THEN 'YES' ELSE 'NO' END as is_primary_key" +:+ nl +:+
  "      FROM INFORMATION_SCHEMA.COLUMNS c" +:+ nl +:+
  "      LEFT JOIN (" +:+ nl +:+
  "        SELECT ku.TABLE_CATALOG, ku.TABLE_SCHEMA, ku.TABLE_NAME, ku.COLUMN_NAME" +:+ nl +:+
  "        FROM INFORMATION_SCHEMA.TABLE_CONSTRAINTS AS tc" +:+ nl +:+
  "        INNER JOIN INFORMATION_SCHEMA.KEY_COLUMN_USAGE AS ku" +:+ nl +:+
  "          ON tc.CONSTRAINT_TYPE = 'PRIMARY KEY'" +:+ nl +:+
  "          AND tc.CONSTRAINT_NAME = ku.CONSTRAINT_NAME" +:+ nl +:+
  "      ) pk ON c.TABLE_CATALOG = pk.TABLE_CATALOG" +:+ nl +:+
  "        AND c.TABLE_SCHEMA = pk.TABLE_SCHEMA" +:+ nl +:+
  "        AND c.TABLE_NAME = pk.TABLE_NAME" +:+ nl +:+
  "        AND c.COLUMN_NAME = pk.COLUMN_NAME" +:+ nl +:+
  "      WHERE c.TABLE_NAME = '" +:+ table +:+ "'" +:+ nl +:+
  "      ORDER BY c.ORDINAL_POSITION" +:+ nl +:+
  "    ".

(** The statement of [handleSampleData]. *)
Definition sample_data_query (db limit table : string) : string :=
  nl +:+
  "      USE [" +:+ db +:+ "];" +:+ nl +:+
  "      SELECT TOP " +:+ limit +:+ " * FROM [" +:+ table +:+ "]" +:+ nl +:+
  "    ".

(** The statement of [handleGetRelationships]. *)
Definition relationships_query (db whereClause : string) : string :=
  nl +:+
  "      USE [" +:+ db +:+ "];" +:+ nl +:+
  "      SELECT " +:+ nl +:+
  "        fk.TABLE_NAME as table_name," +:+ nl +:+
  "        fk.COLUMN_NAME as column_name," +:+ nl +:+
  "        pk.TABLE_NAME as referenced_table," +:+ nl +:+
  "        pk.COLUMN_NAME as referenced_column," +:+ nl +:+
  "        fk.CONSTRAINT_NAME as constraint_name" +:+ nl +:+
  "      FROM INFORMATION_SCHEMA.REFERENTIAL_CONSTRAINTS rc" +:+ nl +:+
  "      INNER JOIN INFORMATION_SCHEMA.KEY_COLUMN_USAGE fk" +:+ nl +:+
  "        ON rc.CONSTRAINT_NAME = fk.CONSTRAINT_NAME" +:+ nl +:+
  "      INNER JOIN INFORMATION_SCHEMA.KEY_COLUMN_USAGE pk" +:+ nl +:+
  "        ON rc.UNIQUE_CONSTRAINT_NAME = pk.CONSTRAINT_NAME" +:+ nl +:+
  "      WHERE 1=1 " +:+ whereClause +:+ nl +:+
  "      ORDER BY fk.TABLE_NAME, fk.COLUMN_NAME" +:+ nl +:+
  "    ".

(** The third statement of [handleHealthCheck]. *)
Definition database_info_query : string :=
  nl +:+
  "          SELECT " +:+ nl +:+
  "            DB_NAME() as database_name," +:+ nl +:+
  "            DATABASEPROPERTYEX(DB_NAME(), 'Status') as status," +:+ nl +:+
  "            DATABASEPROPERTYEX(DB_NAME(), 'Collation') as collation," +:+ nl +:+
  "            DATABASEPROPERTYEX(DB_NAME(), 'Version') as version" +:+ nl +:+
  "        ".


Definition version_query : string := "SELECT @@VERSION as version".
Definition server_time_query : string := "SELECT GETDATE() as server_time".

Definition double_quote : string := String (ascii_of_nat 34) EmptyString.

Record Answer (A : Type) := {
  content : A;
  isError : bool
}.
Arguments content {A}.
Arguments isError {A}.

Record TableArgs := {
  t_connection : RawConnection;
  t_table : option string
}.

Record SampleArgs := {
  s_connection : RawConnection;
  s_table : option string;
  s_limit : option Z
}.

Record HealthArgs := {
  h_connection : RawConnection;
  h_includeMetrics : option bool
}.

(** The arguments object of the validate tool; [query] is [None] when
    the caller left it out.  A call may also carry no arguments object at
    all: the handler then receives [None] in place of the record. *)
Record ValidateArgs := {
  v_query : option string;
  v_includeOptimizations : option bool
}.

Record DatabasesReport := {
  dbs_server : string;
  dbs_databases : option (list Row)
}.

Record TablesReport := {
  tbl_server : string;
  tbl_database : option string;
  tbl_tables : option (list Row)
}.

Record ColumnsReport := {
  col_server : string;
  col_database : option string;
  col_table : option string;
  col_columns : option (list Row)
}.

Record SampleReport := {
  smp_server : string;
  smp_database : option string;
  smp_table : option string;
  sampleSize : Z;
  smp_data : list Row
}.

Record RelationshipsReport := {
  rel_server : string;
  rel_database : option string;
  rel_table : string;
  relationships : option (list Row)
}.

(** What [handleHealthCheck] reads from outside the server: the clock on
    entry and when the answer is built, and the pool's [connecting] flag. *)
Record HealthProbe := {
  probe_startTime : Z;
  probe_endTime : Z;
  probe_connecting : bool
}.

Record PoolInfo := {
  info_connected : bool;
  info_connecting : bool;
  info_healthy : bool
}.

Record HealthMetrics (F : Type) := {
  hm_metrics : Metrics F;
  activeConnections : Z
}.
Arguments hm_metrics {F}.
Arguments activeConnections {F}.

Inductive HealthReport (F : Type) :=
| Healthy (server database : string) (serverVersion serverTime : JsValue)
    (responseTime : Z) (connectionPoolInfo : PoolInfo)
    (databaseInfo : option Row) (metrics : option (HealthMetrics F))
| Unhealthy (server database error : string) (responseTime : Z).
Arguments Healthy {F}.
Arguments Unhealthy {F}.

Record ValidationReport := {
  v_isValid : bool;
  originalQuery : string;
  sanitizedQuery : string;
  v_errors : list string;
  warnings : list string;
  suggestions : list string
}.

Inductive ValidateContent :=
| Analysis (report : ValidationReport)
| AnalysisFailed (error : string).

(** Reading a property of [undefined] (the wording of V8). *)
Definition undefined_property (name : string) : JsError :=
  Error "TypeError"
    ("Cannot read properties of undefined (reading '" +:+ name +:+ "')").

(** [value || fallback] for an optional string. *)
Definition or_else (value : option string) (fallback : string) : string :=
  match value with
  | Some s => if JS.truthy s then s else fallback
  | None => fallback
  end.

(** Whether an optional string is truthy. *)
Definition truthy_option (value : option string) : bool :=
  match value with
  | Some s => JS.truthy s
  | None => false
  end.

Section Tools.
Context {F : Type} `{JsNumber F}.
Variable env : Env.
Variable config : MCPConfig.

Notation "x <- m ;; k" := (bind m (fun x => k))
  (at level 100, m at next level, right associativity).
Notation "m ;;; k" := (bind m (fun _ => k))
  (at level 100, right associativity).

Definition handleListDatabases (args : RawConnection) : M F DatabasesReport :=
  c <- parse_connection env args ;;
  pool <- getConnection env config c ;;
  result <- run_query env pool list_databases_query [] ;;
  ret {| dbs_server := server c;
         dbs_databases := recordset result |}.

Definition handleListTables (args : RawConnection) : M F TablesReport :=
  c <- parse_connection env args ;;
  pool <- getConnection env config c ;;
  result <- run_query env pool (list_tables_query (show_optional (database c))) [] ;;
  ret {| tbl_server := server c;
         tbl_database := database c;
         tbl_tables := recordset result |}.

Definition handleDescribeTable (args : TableArgs) : M F ColumnsReport :=
  c <- parse_connection env (t_connection args) ;;
  let table := t_table args in
  pool <- getConnection env config c ;;
  result <- run_query env pool
              (describe_table_query (show_optional (database c)) (show_optional table))
              [] ;;
  ret {| col_server := server c;
         col_database := database c;
         col_table := table;
         col_columns := recordset result |}.

Definition handleSampleData (args : SampleArgs) : M F SampleReport :=
  c <- parse_connection env (s_connection args) ;;
  let table := s_table args in
  let limit := default 10 (s_limit args) in
  pool <- getConnection env config c ;;
  result <- run_query env pool
              (sample_data_query (show_optional (database c)) (JS.show limit)
                 (show_optional table))
              [] ;;
  match recordset result with
  | None => throw undefined_length
  | Some rows =>
      ret {| smp_server := server c;
             smp_database := database c;
             smp_table := table;
             sampleSize := Z.of_nat (List.length rows);
             smp_data := rows |}
  end.

Definition handleGetRelationships (args : TableArgs) : M F RelationshipsReport :=
  c <- parse_connection env (t_connection args) ;;
  let table := t_table args in
  pool <- getConnection env config c ;;
  let whereClause :=
    if truthy_option table
    then "AND fk.TABLE_NAME = '" +:+ show_optional table +:+ "'"
    else "" in
  result <- run_query env pool
              (relationships_query (show_optional (database c)) whereClause) [] ;;
  ret {| rel_server := server c;
         rel_database := database c;
         rel_table := or_else table "all";
         relationships := recordset result |}.

(** [result.recordset[0]]: a [TypeError] when there is no result set. *)
Definition first_row (result : QueryResult) : M F (option Row) :=
  match recordset result with
  | None => throw (undefined_property "0")
  | Some rows => ret (head rows)
  end.

Definition field (row : option Row) (name : string) : JsValue :=
  match row with
  | Some r => get r name
  | None => JUndefined
  end.

Definition handleHealthCheck (probe : HealthProbe) (args : HealthArgs)
  : M F (Answer (HealthReport F)) :=
  c <- parse_connection env (h_connection args) ;;
  let includeMetrics := default true (h_includeMetrics args) in
  try_catch
    (pool <- getConnection env config c ;;
     versionResult <- run_query env pool version_query [] ;;
     connectionTimeResult <- run_query env pool server_time_query [] ;;
     databaseInfo <-
       (if truthy_option (database c) then
          dbResult <- run_query env pool database_info_query [] ;;
          first_row dbResult
        else ret None) ;;
     let responseTime := probe_endTime probe - probe_startTime probe in
     versionRow <- first_row versionResult ;;
     timeRow <- first_row connectionTimeResult ;;
     object <- gets (fun st => heap st !! pool) ;;
     let connectionPoolInfo :=
       {| info_connected := from_option connected false object;
          info_connecting := probe_connecting probe;
          info_healthy := from_option healthy false object |} in
     reported <- gets (fun st =>
                   if includeMetrics
                   then Some {| hm_metrics := metrics st;
                                activeConnections :=
                                  Z.of_nat (size (connectionPools st)) |}
                   else None) ;;
     ret {| content :=
              Healthy (server c) (or_else (database c) "master")
                (field versionRow "version") (field timeRow "server_time")
                responseTime connectionPoolInfo databaseInfo reported;
            isError := false |})
    (fun error =>
       ret {| content :=
                Unhealthy (server c) (or_else (database c) "master")
                  (error_message error)
                  (probe_endTime probe - probe_startTime probe);
              isError := true |}).

Definition select_star_warning : string :=
  "Using SELECT * may impact performance - consider specifying specific columns".
Definition leading_wildcard_warning : string :=
  "Leading wildcard in LIKE clause may cause full table scan".
Definition missing_where_error : string :=
  "UPDATE/DELETE statements without WHERE clause are dangerous".
Definition top_suggestion : string :=
  "Consider adding TOP clause when using ORDER BY for better performance".

(** Lines 810-813: the statement changes rows and names no [where]. *)
Definition missing_where (trimmedQuery : string) : bool :=
  negb (JS.includes trimmedQuery "where")
  && (JS.includes trimmedQuery "update" || JS.includes trimmedQuery "delete").

(** The [try] block of [handleValidateQuery] for a query that is a
    string. *)
Definition analyse (query : string) (includeOptimizations : bool)
  : ValidationReport :=
  let validation := SecurityValidator.validateQuery (security config) query in
  let sanitizedQuery := SecurityValidator.sanitizeQuery query in
  let trimmedQuery := JS.toLowerCase (JS.trim query) in
  let warnings :=
    SecurityValidator.push_if
      (JS.includes trimmedQuery "like '%"
       || JS.includes trimmedQuery ("like " +:+ double_quote +:+ "%"))
      leading_wildcard_warning
      (SecurityValidator.push_if (JS.includes trimmedQuery "select *")
         select_star_warning []) in
  let suggestions :=
    if includeOptimizations then
      SecurityValidator.push_if
        (JS.includes trimmedQuery "order by" && negb (JS.includes trimmedQuery "top"))
        top_suggestion []
    else [] in
  {| v_isValid :=
       if missing_where trimmedQuery then false
       else SecurityValidator.isValid validation;
     originalQuery := query;
     sanitizedQuery := sanitizedQuery;
     v_errors :=
       SecurityValidator.push_if (missing_where trimmedQuery) missing_where_error
         (SecurityValidator.errors validation);
     warnings := warnings;
     suggestions := suggestions |}.

(** What the [try] block throws when [query] is undefined: the first
    property read on it, [length] in [validateQuery] when validation is
    on, [replace] in [sanitizeQuery] when it is off. *)
Definition undefined_query_error : JsError :=
  if enableQueryValidation (security config)
  then undefined_property "length"
  else undefined_property "replace".

(** Destructuring [undefined] at line 783, before the [try] (the
    wording of V8 for a destructuring pattern). *)
Definition undefined_args : JsError :=
  Error "TypeError"
    "Cannot destructure property 'query' of 'args' as it is undefined.".

Definition handleValidateQuery (args : option ValidateArgs)
  : M F (Answer ValidateContent) :=
  match args with
  | None => throw undefined_args
  | Some given =>
      let includeOptimizations := default false (v_includeOptimizations given) in
      try_catch
        (match v_query given with
         | Some query =>
             ret {| content := Analysis (analyse query includeOptimizations);
                    isError := false |}
         | None => throw undefined_query_error
         end)
        (fun error =>
           ret {| content := AnalysisFailed (error_message error);
                  isError := true |})
  end.

(** ** The dispatcher *)

Inductive ToolCall :=
| mssql_list_databases (args : RawConnection)
| mssql_list_tables (args : RawConnection)
| mssql_describe_table (args : TableArgs)
| mssql_query (args : QueryArgs)
| mssql_sample_data (args : SampleArgs)
| mssql_get_relationships (args : TableArgs)
| mssql_health_check (args : HealthArgs)
| mssql_validate_query (args : option ValidateArgs)
| mssql_bulk_insert (args : BulkInsertArgs)
| other_tool (name : string).

Inductive Content :=
| DatabasesContent (report : DatabasesReport)
| TablesContent (report : TablesReport)
| ColumnsContent (report : ColumnsReport)
| QueryContent (report : QueryOutcome)
| SampleContent (report : SampleReport)
| RelationshipsContent (report : RelationshipsReport)
| HealthContent (report : HealthReport F)
| ValidateContentOf (report : ValidateContent)
| BulkInsertContent (report : BulkInsertReport)
| ErrorText (text : string).

Definition plain {A} (wrap : A -> Content) (m : M F A) : M F (Answer Content) :=
  report <- m ;;
  ret {| content := wrap report; isError := false |}.

Definition flagged {A} (wrap : A -> Content) (m : M F (Answer A))
  : M F (Answer Content) :=
  answer <- m ;;
  ret {| content := wrap (content answer); isError := isError answer |}.

(** The [switch] of the request handler. *)
Definition dispatch (clock : Clock) (probe : HealthProbe) (call : ToolCall)
  : M F (Answer Content) :=
  match call with
  | mssql_list_databases args => plain DatabasesContent (handleListDatabases args)
  | mssql_list_tables args => plain TablesContent (handleListTables args)
  | mssql_describe_table args => plain ColumnsContent (handleDescribeTable args)
  | mssql_query args => plain QueryContent (handleQuery env config clock args)
  | mssql_sample_data args => plain SampleContent (handleSampleData args)
  | mssql_get_relationships args =>
      plain RelationshipsContent (handleGetRelationships args)
  | mssql_health_check args => flagged HealthContent (handleHealthCheck probe args)
  | mssql_validate_query args => flagged ValidateContentOf (handleValidateQuery args)
  | mssql_bulk_insert args =>
      plain BulkInsertContent (handleBulkInsert env config args)
  | other_tool name => throw (Error "Error" ("Unknown tool: " +:+ name))
  end.

(** The request handler for tool calls: whatever the handler throws
    becomes an error answer. *)
Definition callTool (clock : Clock) (probe : HealthProbe) (call : ToolCall)
  : M F (Answer Content) :=
  try_catch (dispatch clock probe call)
    (fun error =>
       ret {| content := ErrorText ("Error: " +:+ error_message error);
              isError := true |}).

End Tools.

Arguments ErrorText {F}.
Arguments other_tool name : clear implicits.

(** A computation respects a relation between states when the state it
    ends in is related to the state it started from. *)
Definition respects {F A : Type} (R : State F -> State F -> Prop) (m : M F A)
  : Prop :=
  forall st, R st (snd (m st)).

(** The state of a server just built. *)
Definition initial_state {F : Type} `{JsNumber F} : State F :=
  {| connectionPools := ∅;
     metrics := {| totalQueries := 0;
                   failedQueries := 0;
                   avgExecutionTime := num_of_int 0;
                   connectionCount := 0;
                   cacheHits := 0 |};
     heap := [];
     calls := [] |}.

(** A server serves tool calls one after the other; between two calls
    the driver may flip the flags of pool objects. *)
Inductive reachable {F : Type} `{JsNumber F} (env : Env) (config : MCPConfig)
  : State F -> Prop :=
| reach_initial : reachable env config initial_state
| reach_call st clock probe call :
    reachable env config st ->
    reachable env config (snd (callTool env config clock probe call st))
| reach_drift st st' :
    reachable env config st ->
    drift st st' ->
    metrics st' = metrics st ->
    calls st' = calls st ->
    reachable env config st'.

(** ** Further concrete calls *)

Definition toy_probe : HealthProbe :=
  {| probe_startTime := 2000; probe_endTime := 2007; probe_connecting := false |}.

(** A sample far above the row cap of the production policy. *)
Definition toy_sample : SampleArgs :=
  {| s_connection := Toy.raw "secret";
     s_table := Some "Customers";
     s_limit := Some 50000 |}.

(** A driver that also answers the three statements of the health
    check; everything else is left to the toy database. *)
Definition clinic_env : Env := {|
  zod_message := zod_message Toy.env;
  db_connect := db_connect Toy.env;
  db_query := fun log pool text params =>
    if String.eqb text version_query then
      Resolved {| recordset := Some [[("version", JStr "Microsoft SQL Server 2022")]];
                  rowsAffected := [1] |}
    else if String.eqb text server_time_query then
      Resolved {| recordset := Some [[("server_time", JStr "2024-05-01T08:00:00.000Z")]];
                  rowsAffected := [1] |}
    else if String.eqb text database_info_query then
      Resolved {| recordset := Some [[("database_name", JStr "shop");
                                      ("status", JStr "ONLINE")]];
                  rowsAffected := [1] |}
    else if JS.includes text "* FROM [Customers]" then
      Resolved {| recordset := Some Toy.Customers; rowsAffected := [7] |}
    else db_query Toy.env log pool text params
|}.


(** * Properties *)

(** ** Security validator *)

Section ValidatorProperties.
Import SecurityValidator.

Lemma array_includes_In (l : list string) (x : string) :
  JS.array_includes l x = true <-> In x l.
Proof.
  unfold JS.array_includes. rewrite existsb_exists. split.
  - intros (y & Hy & Heq). apply String.eqb_eq in Heq. now subst.
  - intros Hx. exists x. split; [assumption | apply String.eqb_refl].
Qed.

Lemma truthy_nonempty (s : string) : JS.truthy s = true <-> s <> "".
Proof. destruct s; simpl; split; congruence. Qed.

(** When the whitelist applies and the first word is a real, unlisted
    word, [check_operation] pushes exactly one message. *)
Lemma check_operation_rejects (config : SecurityConfig) (query : string)
    (errs : list string) :
  allowedOperations config <> [] ->
  firstWord query <> "" ->
  ~ In (firstWord query) (allowedOperations config) ->
  check_operation config query errs
  = (errs ++ [operation_error config (firstWord query)])%list.
Proof.
  intros Hne Hword Hnot. unfold check_operation, push_if.
  destruct (allowedOperations config) as [|a l] eqn:Hops; [congruence|].
  simpl Nat.ltb. cbv iota.
  apply truthy_nonempty in Hword. rewrite Hword.
  destruct (JS.array_includes (a :: l) (firstWord query)) eqn:Hin.
  - apply array_includes_In in Hin. contradiction.
  - reflexivity.
Qed.

End ValidatorProperties.

(** C7.  With [enableQueryValidation] off, [validateQuery] answers
    [{isValid: true, errors: []}] for every query text and whatever the
    other four options are: none of the four checks runs. *)
Theorem validateQuery_disabled (config : SecurityConfig) (query : string) :
  enableQueryValidation config = false ->
  SecurityValidator.validateQuery config query
  = {| SecurityValidator.isValid := true; SecurityValidator.errors := [] |}.
Proof.
  intros Hoff. unfold SecurityValidator.validateQuery. now rewrite Hoff.
Qed.

Lemma validateQuery_disabled_witness :
  enableQueryValidation lax_policy = false /\
  SecurityValidator.validateQuery lax_policy "DROP TABLE t; exec xp_cmdshell -- x"
  = {| SecurityValidator.isValid := true; SecurityValidator.errors := [] |}.
Proof.
  split; [reflexivity|].
  apply (validateQuery_disabled lax_policy). reflexivity.
Defined.

(** C6, as amended.  Under an enabled policy with a non-empty
    [allowedOperations], a query that has a first word (it is not blank)
    whose upper-cased form is not listed is invalid, and the error list
    holds the message naming that word and the allowed operations. *)
Theorem validateQuery_rejects_unlisted_operation
    (config : SecurityConfig) (query : string) :
  enableQueryValidation config = true ->
  allowedOperations config <> [] ->
  SecurityValidator.firstWord query <> "" ->
  ~ In (SecurityValidator.firstWord query) (allowedOperations config) ->
  let result := SecurityValidator.validateQuery config query in
  SecurityValidator.isValid result = false /\
  In ("Operation '" +:+ SecurityValidator.firstWord query
        +:+ "' is not allowed. Allowed operations: "
        +:+ JS.join ", " (allowedOperations config))
     (SecurityValidator.errors result).
Proof.
  intros Hon Hne Hword Hnot. unfold SecurityValidator.validateQuery.
  rewrite Hon. cbn [negb]. cbv iota. cbv zeta. cbn [SecurityValidator.isValid SecurityValidator.errors].
  rewrite check_operation_rejects by assumption.
  split.
  - rewrite length_app. cbn [List.length]. apply Nat.eqb_neq. lia.
  - apply in_or_app. right. now left.
Qed.

Lemma validateQuery_rejects_unlisted_operation_witness :
  let config := security PRODUCTION_CONFIG in
  let query := "  delete   from Customers" in
  SecurityValidator.firstWord query = "DELETE" /\
  SecurityValidator.isValid (SecurityValidator.validateQuery config query) = false /\
  In "Operation 'DELETE' is not allowed. Allowed operations: SELECT"
     (SecurityValidator.errors (SecurityValidator.validateQuery config query)).
Proof.
  split; [reflexivity|].
  apply (validateQuery_rejects_unlisted_operation
           (security PRODUCTION_CONFIG) "  delete   from Customers").
  - reflexivity.
  - discriminate.
  - discriminate.
  - vm_compute. intros [Heq|[]]. discriminate.
Defined.

(** C6, the claim as first stated, fails on a blank query: its first
    piece is the empty string, which the whitelist does not contain, yet
    the guard [firstWord &&] skips the check and the query is valid. *)
Lemma blank_query_passes_whitelist :
  let config := security DEFAULT_CONFIG in
  let query := "   " in
  enableQueryValidation config = true /\
  allowedOperations config <> [] /\
  ~ In (SecurityValidator.firstWord query) (allowedOperations config) /\
  SecurityValidator.validateQuery config query
  = {| SecurityValidator.isValid := true; SecurityValidator.errors := [] |}.
Proof.
  cbv zeta. split; [reflexivity|]. split; [discriminate|]. split.
  - vm_compute. intuition discriminate.
  - vm_compute. reflexivity.
Qed.

(** ** Handlers *)

Section HandlerProperties.
Context {F : Type} `{JsNumber F}.
Variable env : Env.
Variable config : MCPConfig.

(** C9.  A bulk insert whose [data] is not an array or is the empty
    array throws before anything else happens: the error is the
    [INVALID_DATA] one (or, when the connection fields themselves are
    rejected, the schema error), and the whole state is untouched, so no
    pool is looked up or opened and no query is logged. *)
Theorem handleBulkInsert_empty (args : BulkInsertArgs) (st : State F) :
  b_data args = None \/ b_data args = Some [] ->
  handleBulkInsert env config args st
  = (Throw (match ConnectionSchema_parse (b_connection args) with
            | Some _ => empty_data_error
            | None => Error "ZodError" (zod_message env (b_connection args))
            end),
     st).
Proof.
  intros Hdata. unfold handleBulkInsert, parse_connection, bind, throw, ret.
  destruct (ConnectionSchema_parse (b_connection args)); [|reflexivity].
  destruct Hdata as [-> | ->]; reflexivity.
Qed.

(** C5.  When the validator rejects the query text, [handleQuery]
    throws and touches no database: the pool cache, the pool objects and
    the log of driver calls are what they were, and only the counters
    [totalQueries] and [failedQueries] move.  The error is the
    [QUERY_VALIDATION_ERROR] whose message and details hold every
    validation error (the validator runs once [ConnectionSchema.parse]
    has accepted the connection fields; when it has not, the error is the
    schema's). *)
Theorem handleQuery_rejected (clock : Clock) (args : QueryArgs) (st : State F) :
  SecurityValidator.isValid
    (SecurityValidator.validateQuery (security config) (q_query args)) = false ->
  let errors :=
    SecurityValidator.errors
      (SecurityValidator.validateQuery (security config) (q_query args)) in
  exists st',
    handleQuery env config clock args st
    = (Throw (match ConnectionSchema_parse (q_connection args) with
              | Some _ =>
                  MCPError ("Query validation failed: " +:+ JS.join ", " errors)
                    "QUERY_VALIDATION_ERROR" (ValidationDetails errors)
              | None => Error "ZodError" (zod_message env (q_connection args))
              end),
       st') /\
    calls st' = calls st /\
    connectionPools st' = connectionPools st /\
    heap st' = heap st /\
    metrics st' = inc_failedQueries (inc_totalQueries (metrics st)).
Proof.
  intros Hbad errors.
  unfold handleQuery, bind, try_catch, modify, throw, parse_connection.
  destruct (ConnectionSchema_parse (q_connection args)) as [c|].
  - unfold ret. rewrite Hbad. cbn [negb].
    eexists. split; [reflexivity|]. cbn. repeat split; reflexivity.
  - unfold throw. eexists. split; [reflexivity|]. cbn. repeat split; reflexivity.
Qed.

End HandlerProperties.

Lemma handleBulkInsert_empty_witness :
  let args := {| b_connection := Toy.raw "secret";
                 b_table := "Customers";
                 b_data := Some [] |} in
  b_data args = Some [] /\
  handleBulkInsert Toy.env DEFAULT_CONFIG args Toy.st0
  = (Throw empty_data_error, Toy.st0).
Proof.
  split; [reflexivity|].
  apply (handleBulkInsert_empty Toy.env DEFAULT_CONFIG
           {| b_connection := Toy.raw "secret";
              b_table := "Customers";
              b_data := Some [] |} Toy.st0).
  right. reflexivity.
Defined.

Lemma handleQuery_rejected_witness :
  let args := {| q_connection := Toy.raw "secret";
                 q_query := "DROP TABLE Customers";
                 q_limit := Some 5 |} in
  exists st',
    handleQuery Toy.env DEFAULT_CONFIG Toy.clock args Toy.st0
    = (Throw (MCPError
                "Query validation failed: Operation 'DROP' is not allowed. Allowed operations: SELECT, INSERT, UPDATE, DELETE, WITH"
                "QUERY_VALIDATION_ERROR"
                (ValidationDetails
                   ["Operation 'DROP' is not allowed. Allowed operations: SELECT, INSERT, UPDATE, DELETE, WITH"])),
       st') /\
    calls st' = [] /\
    connectionPools st' = ∅ /\
    heap st' = [] /\
    metrics st' = inc_failedQueries (inc_totalQueries Toy.metrics0).
Proof.
  apply (handleQuery_rejected Toy.env DEFAULT_CONFIG Toy.clock
           {| q_connection := Toy.raw "secret";
              q_query := "DROP TABLE Customers";
              q_limit := Some 5 |} Toy.st0).
  vm_compute. reflexivity.
Defined.

(** ** Connection pool registry *)

Section RegistryProperties.
Context {F : Type} `{JsNumber F}.
Variable env : Env.
Variable config : MCPConfig.

Lemma connect_and_register_ok (c : ConnectionConfig) (key : string) (st : State F) :
  db_connect env (calls st) (make_poolConfig config c) = None ->
  connect_and_register env config c key st
  = (Ok (List.length (heap st)), registered config c key st).
Proof.
  intros Hok. unfold connect_and_register, try_catch, bind, open_pool, modify, ret.
  rewrite Hok. reflexivity.
Qed.

Lemma connect_and_register_fail (c : ConnectionConfig) (key : string)
    (st : State F) (e : JsError) :
  db_connect env (calls st) (make_poolConfig config c) = Some e ->
  connect_and_register env config c key st
  = (Throw (connection_error c e), refused config c st).
Proof.
  intros Hko. unfold connect_and_register, try_catch, bind, open_pool, modify, throw.
  rewrite Hko. reflexivity.
Qed.

Lemma getConnection_hit (c : ConnectionConfig) (st : State F) (pool : nat) :
  connectionPools st !! createConnectionKey c = Some pool ->
  pool_connected st pool = true ->
  getConnection env config c st = (Ok pool, with_metrics inc_cacheHits st).
Proof.
  intros Hcached Hlive. unfold getConnection, bind, gets.
  rewrite Hcached, Hlive. reflexivity.
Qed.

Lemma getConnection_stale (c : ConnectionConfig) (st : State F) (pool : nat) :
  connectionPools st !! createConnectionKey c = Some pool ->
  pool_connected st pool = false ->
  getConnection env config c st
  = connect_and_register env config c (createConnectionKey c)
      (with_pools (delete (createConnectionKey c)) st).
Proof.
  intros Hcached Hdead. unfold getConnection, bind, gets.
  rewrite Hcached, Hdead. reflexivity.
Qed.

Lemma getConnection_absent (c : ConnectionConfig) (st : State F) :
  connectionPools st !! createConnectionKey c = None ->
  getConnection env config c st
  = connect_and_register env config c (createConnectionKey c) st.
Proof.
  intros Hnone. unfold getConnection, bind, gets.
  rewrite Hnone. reflexivity.
Qed.

Lemma delete_absent (key : string) (st : State F) :
  connectionPools st !! key = None ->
  with_pools (delete key) st = st.
Proof.
  intros Hnone. destruct st as [pools m h cs]. unfold with_pools. cbn in *.
  f_equal. now apply delete_id.
Qed.

Lemma getConnection_outcome (c : ConnectionConfig) (st : State F) :
  Outcome env config c st (fst (getConnection env config c st))
    (snd (getConnection env config c st)).
Proof.
  destruct (connectionPools st !! createConnectionKey c) as [pool|] eqn:Hcached.
  - destruct (pool_connected st pool) eqn:Hlive.
    + rewrite (getConnection_hit c st pool) by assumption. now apply Hit.
    + rewrite (getConnection_stale c st pool) by assumption.
      assert (Hdead : cached_live st (createConnectionKey c) = false)
        by (unfold cached_live; now rewrite Hcached).
      destruct (db_connect env (calls st) (make_poolConfig config c)) as [e|] eqn:Hconn.
      * rewrite (connect_and_register_fail c _ _ e) by exact Hconn.
        exact (Failed env config c st e Hdead Hconn).
      * rewrite connect_and_register_ok by exact Hconn.
        exact (Opened env config c st Hdead Hconn).
  - rewrite (getConnection_absent c st) by assumption.
    assert (Hdead : cached_live st (createConnectionKey c) = false)
      by (unfold cached_live; now rewrite Hcached).
    destruct (db_connect env (calls st) (make_poolConfig config c)) as [e|] eqn:Hconn.
    + rewrite (connect_and_register_fail c _ _ e) by exact Hconn.
      pose proof (Failed env config c st e Hdead Hconn) as Hout.
      now rewrite delete_absent in Hout.
    + rewrite connect_and_register_ok by exact Hconn.
      pose proof (Opened env config c st Hdead Hconn) as Hout.
      now rewrite delete_absent in Hout.
Qed.

Lemma pool_connected_with_metrics (f : Metrics F -> Metrics F) (st : State F)
    (pool : nat) :
  pool_connected (with_metrics f st) pool = pool_connected st pool.
Proof. reflexivity. Qed.

Lemma pool_connected_fresh (c : ConnectionConfig) (key : string) (st : State F) :
  pool_connected (registered config c key st) (List.length (heap st)) = true.
Proof.
  unfold pool_connected, registered. cbn [heap].
  rewrite lookup_app_r by lia. now rewrite Nat.sub_diag.
Qed.

(** The pool a call returns is connected when the call returns. *)
Lemma getConnection_returns_connected (c : ConnectionConfig) (st st' : State F)
    (pool : nat) :
  getConnection env config c st = (Ok pool, st') ->
  pool_connected st' pool = true.
Proof.
  intros Hrun. pose proof (getConnection_outcome c st) as Hout.
  rewrite Hrun in Hout. cbn [fst snd] in Hout.
  inversion Hout; subst.
  - now rewrite pool_connected_with_metrics.
  - exact (pool_connected_fresh c (createConnectionKey c)
             (with_pools (delete (createConnectionKey c)) st)).
Qed.

(** After a successful call the cache maps the key to the returned pool,
    which is a valid heap index. *)
Lemma getConnection_registers (c : ConnectionConfig) (st st' : State F)
    (pool : nat) :
  getConnection env config c st = (Ok pool, st') ->
  connectionPools st' !! createConnectionKey c = Some pool /\
  (pool < List.length (heap st'))%nat.
Proof.
  intros Hrun. pose proof (getConnection_outcome c st) as Hout.
  rewrite Hrun in Hout. cbn [fst snd] in Hout.
  inversion Hout; subst.
  - split; [assumption|].
    unfold pool_connected in *. cbn [heap with_metrics].
    destruct (heap st !! pool) eqn:Hlook; [|discriminate].
    eapply lookup_lt_Some; eassumption.
  - split.
    + cbn. apply lookup_insert_eq.
    + cbn. rewrite length_app. cbn. lia.
Qed.

End RegistryProperties.

Section RegistryPairs.
Context {F : Type} `{JsNumber F}.
Variable env : Env.
Variable config : MCPConfig.

Lemma drift_refl (st : State F) : drift st st.
Proof. split; reflexivity. Qed.

Lemma drift_length (st1 st2 : State F) :
  drift st1 st2 -> List.length (heap st2) = List.length (heap st1).
Proof.
  intros [_ Hcfg]. apply (f_equal (@List.length _)) in Hcfg.
  now rewrite !length_map in Hcfg.
Qed.

Lemma drift_poolConfig (st1 st2 : State F) (pool : nat) (o1 o2 : ConnectionPool) :
  drift st1 st2 ->
  heap st1 !! pool = Some o1 ->
  heap st2 !! pool = Some o2 ->
  poolConfig o2 = poolConfig o1.
Proof.
  intros [_ Hcfg] H1 H2.
  assert (Hl1 : map poolConfig (heap st1) !! pool = Some (poolConfig o1))
    by (change (map poolConfig (heap st1)) with (poolConfig <$> heap st1);
        now rewrite list_lookup_fmap, H1).
  assert (Hl2 : map poolConfig (heap st2) !! pool = Some (poolConfig o2))
    by (change (map poolConfig (heap st2)) with (poolConfig <$> heap st2);
        now rewrite list_lookup_fmap, H2).
  rewrite Hcfg in Hl2. congruence.
Qed.

(** C2, as amended.  Two calls whose configurations give the same
    connection key, the first of which returned [pool].  At the second
    call:
    - if the pool object is connected, healthy or not, the call returns
      the same [pool] and only [cacheHits] moves, by one;
    - if it is disconnected and the driver connects, the key is deleted
      from the cache, a pool at a fresh index is created and registered
      under the key, and [connectionCount] moves by one;
    - if it is disconnected and the driver refuses, the key stays
      deleted and the call throws;
    - whatever happens, a pool that the call returns is connected; its
      [healthy] flag is never read. *)
Theorem getConnection_shares_pool (c1 c2 : ConnectionConfig)
    (st0 st1 st2 : State F) (pool : nat) :
  createConnectionKey c1 = createConnectionKey c2 ->
  getConnection env config c1 st0 = (Ok pool, st1) ->
  drift st1 st2 ->
  let key := createConnectionKey c2 in
  let fresh := List.length (heap st2) in
  (forall o, heap st2 !! pool = Some o ->
             connected o = true ->
     getConnection env config c2 st2 = (Ok pool, with_metrics inc_cacheHits st2) /\
     cacheHits (metrics (with_metrics inc_cacheHits st2))
     = cacheHits (metrics st2) + 1) /\
  (pool_connected st2 pool = false ->
   db_connect env (calls st2) (make_poolConfig config c2) = None ->
     exists st3,
       getConnection env config c2 st2 = (Ok fresh, st3) /\
       fresh <> pool /\
       connectionPools st3 = <[key := fresh]> (delete key (connectionPools st2)) /\
       heap st3 = (heap st2 ++ [fresh_pool config c2])%list /\
       connectionCount (metrics st3) = connectionCount (metrics st2) + 1) /\
  (pool_connected st2 pool = false ->
   forall e, db_connect env (calls st2) (make_poolConfig config c2) = Some e ->
     exists st3,
       getConnection env config c2 st2 = (Throw (connection_error c2 e), st3) /\
       connectionPools st3 = delete key (connectionPools st2)) /\
  (forall q st3, getConnection env config c2 st2 = (Ok q, st3) ->
                 pool_connected st3 q = true).
Proof.
  intros Hkey Hfirst Hdrift key fresh.
  destruct (getConnection_registers env config c1 st0 st1 pool Hfirst)
    as [Hcached Hvalid].
  assert (Hcached2 : connectionPools st2 !! createConnectionKey c2 = Some pool).
  { destruct Hdrift as [-> _]. now rewrite <- Hkey. }
  assert (Hvalid2 : (pool < List.length (heap st2))%nat)
    by (now rewrite (drift_length st1 st2 Hdrift)).
  split; [|split; [|split]].
  - intros o Hobj Hconn.
    split; [|reflexivity].
    apply getConnection_hit; [assumption|].
    unfold pool_connected. now rewrite Hobj.
  - intros Hdead Hconn.
    rewrite (getConnection_stale env config c2 st2 pool) by assumption.
    rewrite connect_and_register_ok by exact Hconn.
    eexists. split; [reflexivity|].
    repeat split. unfold fresh. lia.
  - intros Hdead e Hconn.
    rewrite (getConnection_stale env config c2 st2 pool) by assumption.
    rewrite (connect_and_register_fail env config c2 _ _ e) by exact Hconn.
    eexists. split; reflexivity.
  - intros q st3. apply getConnection_returns_connected.
Qed.

(** C10.  The key is built from [server], [port], [user] and
    [database || 'default'] alone.  So when two configurations agree on
    these four, whatever their passwords, a second call made while the
    pool returned by the first is still connected returns that same pool
    and logs no connect: the password it brings is never presented to the
    driver.  When the first call is the one that opened the pool, the pool
    carries the first call's password, encryption and certificate
    settings. *)
Theorem getConnection_ignores_password (c1 c2 : ConnectionConfig)
    (st0 st1 st2 : State F) (pool : nat) :
  server c1 = server c2 ->
  port c1 = port c2 ->
  user c1 = user c2 ->
  database_or_default c1 = database_or_default c2 ->
  getConnection env config c1 st0 = (Ok pool, st1) ->
  drift st1 st2 ->
  pool_connected st2 pool = true ->
  createConnectionKey c1 = createConnectionKey c2 /\
  exists st3 o,
    getConnection env config c2 st2 = (Ok pool, st3) /\
    calls st3 = calls st2 /\
    heap st3 !! pool = Some o /\
    (cached_live st0 (createConnectionKey c1) = false ->
     pc_password (poolConfig o) = password c1 /\
     pc_encrypt (poolConfig o) = encrypt c1 /\
     pc_trustServerCertificate (poolConfig o) = trustServerCertificate c1).
Proof.
  intros Hs Hp Hu Hd Hfirst Hdrift Hlive.
  assert (Hkey : createConnectionKey c1 = createConnectionKey c2)
    by (unfold createConnectionKey; now rewrite Hs, Hp, Hu, Hd).
  split; [exact Hkey|].
  destruct (getConnection_registers env config c1 st0 st1 pool Hfirst)
    as [Hcached _].
  unfold pool_connected in Hlive.
  destruct (heap st2 !! pool) as [o|] eqn:Hobj2; [|discriminate].
  exists (with_metrics inc_cacheHits st2), o.
  split.
  - apply getConnection_hit.
    + destruct Hdrift as [-> _]. now rewrite <- Hkey.
    + unfold pool_connected. now rewrite Hobj2.
  - split; [reflexivity|]. split; [exact Hobj2|].
    intros Hmiss.
    pose proof (getConnection_outcome env config c1 st0) as Hout.
    rewrite Hfirst in Hout. cbn [fst snd] in Hout.
    assert (Hobj1 : heap st1 !! pool = Some (fresh_pool config c1)).
    { inversion Hout as [p Hc Hl | Hm Hconn | e Hm Hconn]; subst.
      - unfold cached_live in Hmiss. rewrite Hc in Hmiss. congruence.
      - cbn. rewrite lookup_app_r by lia. now rewrite Nat.sub_diag. }
    rewrite (drift_poolConfig st1 st2 pool _ _ Hdrift Hobj1 Hobj2).
    repeat split.
Qed.

End RegistryPairs.

Lemma toy_first_call :
  getConnection Toy.env DEFAULT_CONFIG (Toy.creds "secret") Toy.st0
  = (Ok 0%nat, toy_st1).
Proof. vm_compute. reflexivity. Qed.

Lemma getConnection_shares_pool_witness :
  (getConnection Toy.env DEFAULT_CONFIG (Toy.creds "secret") toy_st1_unhealthy
   = (Ok 0%nat, with_metrics inc_cacheHits toy_st1_unhealthy) /\
   cacheHits (metrics (with_metrics inc_cacheHits toy_st1_unhealthy)) = 1) /\
  exists st3,
    getConnection Toy.env DEFAULT_CONFIG (Toy.creds "secret") toy_st1_dead
    = (Ok 1%nat, st3) /\
    1%nat <> 0%nat /\
    connectionPools st3
    = <["localhost:1433:sa:shop" := 1%nat]>
        (delete "localhost:1433:sa:shop" (connectionPools toy_st1_dead)) /\
    heap st3
    = (heap toy_st1_dead ++ [fresh_pool DEFAULT_CONFIG (Toy.creds "secret")])%list /\
    connectionCount (metrics st3) = 2.
Proof.
  split.
  - destruct (getConnection_shares_pool Toy.env DEFAULT_CONFIG
                (Toy.creds "secret") (Toy.creds "secret")
                Toy.st0 toy_st1 toy_st1_unhealthy 0%nat eq_refl toy_first_call)
      as (Hhit & _).
    + split; vm_compute; reflexivity.
    + apply (Hhit {| poolConfig := make_poolConfig DEFAULT_CONFIG (Toy.creds "secret");
                     connected := true;
                     healthy := false |});
        vm_compute; reflexivity.
  - destruct (getConnection_shares_pool Toy.env DEFAULT_CONFIG
                (Toy.creds "secret") (Toy.creds "secret")
                Toy.st0 toy_st1 toy_st1_dead 0%nat eq_refl toy_first_call)
      as (_ & Hopen & _).
    + split; vm_compute; reflexivity.
    + apply Hopen; vm_compute; reflexivity.
Defined.

(** C2, the claim as first stated, fails: a cached pool that is connected
    but no longer healthy is not evicted.  The second call returns it as
    a cache hit and asks the driver for nothing. *)
Lemma unhealthy_pool_is_reused :
  let run := getConnection Toy.env DEFAULT_CONFIG (Toy.creds "secret")
               toy_st1_unhealthy in
  drift toy_st1 toy_st1_unhealthy /\
  (exists o, heap toy_st1_unhealthy !! 0%nat = Some o /\
             connected o = true /\ healthy o = false) /\
  fst run = Ok 0%nat /\
  connectionPools (snd run) !! createConnectionKey (Toy.creds "secret") = Some 0%nat /\
  heap (snd run) = heap toy_st1_unhealthy /\
  calls (snd run) = calls toy_st1_unhealthy /\
  cacheHits (metrics (snd run)) = cacheHits (metrics toy_st1_unhealthy) + 1 /\
  connectionCount (metrics (snd run)) = connectionCount (metrics toy_st1_unhealthy).
Proof.
  cbv zeta. split; [split; vm_compute; reflexivity|].
  split; [eexists; repeat split|].
  repeat split; vm_compute; reflexivity.
Qed.

(** The second caller presents a password that the toy database
    refuses, and still receives the pool opened with the right one. *)
Lemma getConnection_ignores_password_witness :
  db_connect Toy.env (calls toy_st1)
    (make_poolConfig DEFAULT_CONFIG (Toy.creds "wrong"))
  = Some Toy.login_failed /\
  createConnectionKey (Toy.creds "secret") = createConnectionKey (Toy.creds "wrong") /\
  exists st3 o,
    getConnection Toy.env DEFAULT_CONFIG (Toy.creds "wrong") toy_st1
    = (Ok 0%nat, st3) /\
    calls st3 = calls toy_st1 /\
    heap st3 !! 0%nat = Some o /\
    pc_password (poolConfig o) = "secret" /\
    pc_encrypt (poolConfig o) = true /\
    pc_trustServerCertificate (poolConfig o) = true.
Proof.
  split; [vm_compute; reflexivity|].
  destruct (getConnection_ignores_password Toy.env DEFAULT_CONFIG
              (Toy.creds "secret") (Toy.creds "wrong") Toy.st0 toy_st1 toy_st1 0%nat
              eq_refl eq_refl eq_refl eq_refl toy_first_call
              (drift_refl toy_st1) eq_refl)
    as (Hkey & st3 & o & Hrun & Hcalls & Hobj & Hcfg).
  split; [exact Hkey|].
  exists st3, o. repeat split; try assumption; apply Hcfg; reflexivity.
Defined.

Ltac metrics_simpl :=
  cbn [metrics with_metrics calls heap connectionPools
       inc_totalQueries inc_failedQueries update_avgExecutionTime
       set_avgExecutionTime totalQueries failedQueries avgExecutionTime].

Tactic Notation "metrics_simpl" "in" hyp(H) :=
  cbn [metrics with_metrics calls heap connectionPools
       inc_totalQueries inc_failedQueries update_avgExecutionTime
       set_avgExecutionTime totalQueries failedQueries avgExecutionTime] in H.

(** ** Query executor: metrics *)

Section MetricsProperties.
Context {F : Type} `{JsNumber F}.
Variable env : Env.
Variable config : MCPConfig.

(** [getConnection] leaves [totalQueries] and the average alone; it
    counts a failed connect in [failedQueries]. *)
Lemma getConnection_metrics (c : ConnectionConfig) (st st' : State F)
    (r : Result nat) :
  getConnection env config c st = (r, st') ->
  totalQueries (metrics st') = totalQueries (metrics st) /\
  avgExecutionTime (metrics st') = avgExecutionTime (metrics st) /\
  failedQueries (metrics st')
  = failedQueries (metrics st) + (match r with Ok _ => 0 | Throw _ => 1 end).
Proof.
  intros Hrun. pose proof (getConnection_outcome env config c st) as Hout.
  rewrite Hrun in Hout. cbn [fst snd] in Hout.
  inversion Hout; subst; cbn; repeat split; lia.
Qed.

(** C3, as amended.  Every call adds one to [totalQueries], on entry,
    whether it fails or not.  A call that returns leaves [failedQueries]
    alone and sets the average to [(avg + elapsed) / totalQueries],
    [totalQueries] being the count just incremented.  A call that throws
    adds to [failedQueries]; in particular, when the driver rejects the
    query, that very error is re-thrown, [failedQueries] grows by one and
    the average is not touched. *)
Theorem handleQuery_metrics (clock : Clock) (args : QueryArgs)
    (st st' : State F) (r : Result QueryOutcome) :
  handleQuery env config clock args st = (r, st') ->
  totalQueries (metrics st') = totalQueries (metrics st) + 1 /\
  match r with
  | Ok _ =>
      failedQueries (metrics st') = failedQueries (metrics st) /\
      avgExecutionTime (metrics st')
      = num_div (num_add (avgExecutionTime (metrics st))
                         (num_of_int (metricsTime clock - startTime clock)))
                (num_of_int (totalQueries (metrics st) + 1))
  | Throw _ => failedQueries (metrics st) < failedQueries (metrics st')
  end /\
  (forall c pool st1 e,
     ConnectionSchema_parse (q_connection args) = Some c ->
     SecurityValidator.isValid
       (SecurityValidator.validateQuery (security config) (q_query args)) = true ->
     getConnection env config c (with_metrics inc_totalQueries st) = (Ok pool, st1) ->
     db_query env (calls st1) pool (query_text config c args) [] = Rejected e ->
     r = Throw e /\
     failedQueries (metrics st') = failedQueries (metrics st) + 1 /\
     avgExecutionTime (metrics st') = avgExecutionTime (metrics st)).
Proof.
  unfold handleQuery, bind, try_catch, modify, throw, parse_connection, query_text.
  destruct (ConnectionSchema_parse (q_connection args)) as [c|] eqn:Hparse.
  2:{ unfold throw. intros Hrun. injection Hrun as <- <-. metrics_simpl.
      split; [lia|]. split; [lia|]. intros; congruence. }
  unfold ret.
  destruct (SecurityValidator.isValid
              (SecurityValidator.validateQuery (security config) (q_query args)))
    eqn:Hvalid; cbn [negb].
  2:{ intros Hrun. injection Hrun as <- <-. metrics_simpl.
      split; [lia|]. split; [lia|]. intros; congruence. }
  destruct (getConnection env config c (with_metrics inc_totalQueries st))
    as [[pool|e] st1] eqn:Hconn;
    destruct (getConnection_metrics c _ _ _ Hconn) as (Htotal & Havg & Hfailed);
    metrics_simpl in Htotal; metrics_simpl in Havg; metrics_simpl in Hfailed.
  2:{ intros Hrun. injection Hrun as <- <-. metrics_simpl.
      split; [lia|]. split; [lia|]. intros; congruence. }
  unfold run_query.
  destruct (db_query env (calls st1) pool _ []) as [e|result] eqn:Hreply.
  - intros Hrun. injection Hrun as <- <-. metrics_simpl.
    split; [lia|]. split; [lia|].
    intros c' pool' st1' e' Hc' _ Hconn' Hreply'.
    injection Hc' as <-. rewrite Hconn in Hconn'. injection Hconn' as <- <-.
    rewrite Hreply in Hreply'. injection Hreply' as <-.
    split; [reflexivity|]. split; [lia | assumption].
  - destruct (recordset result) as [rows|].
    + intros Hrun. injection Hrun as <- <-. metrics_simpl.
      split; [lia|]. split.
      * split; [lia|]. rewrite Havg, Htotal. reflexivity.
      * intros c' pool' st1' e' Hc' _ Hconn' Hreply'.
        injection Hc' as <-. rewrite Hconn in Hconn'. injection Hconn' as <- <-.
        rewrite Hreply in Hreply'. discriminate.
    + intros Hrun. injection Hrun as <- <-. metrics_simpl.
      split; [lia|]. split; [lia|].
      intros c' pool' st1' e' Hc' _ Hconn' Hreply'.
      injection Hc' as <-. rewrite Hconn in Hconn'. injection Hconn' as <- <-.
      rewrite Hreply in Hreply'. discriminate.
Qed.

End MetricsProperties.

(** C3, the claim as first stated, fails: the toy database has no table
    [Orders] and rejects the query, the error is re-thrown, and
    [totalQueries] has moved from 0 to 1 all the same. *)
Lemma failed_query_is_counted_in_totalQueries :
  let run := handleQuery Toy.env DEFAULT_CONFIG Toy.clock toy_missing_table Toy.st0 in
  db_query Toy.env (calls toy_st1) 0%nat
    (query_text DEFAULT_CONFIG (Toy.creds "secret") toy_missing_table) []
  = Rejected Toy.invalid_object /\
  fst run = Throw Toy.invalid_object /\
  totalQueries (metrics Toy.st0) = 0 /\
  totalQueries (metrics (snd run)) = 1 /\
  failedQueries (metrics (snd run)) = 1.
Proof. vm_compute. repeat split; reflexivity. Qed.

Lemma handleQuery_metrics_witness :
  let ok := handleQuery Toy.env DEFAULT_CONFIG Toy.clock toy_select Toy.st0 in
  let ko := handleQuery Toy.env DEFAULT_CONFIG Toy.clock toy_missing_table Toy.st0 in
  (totalQueries (metrics (snd ok)) = 1 /\
   failedQueries (metrics (snd ok)) = 0 /\
   avgExecutionTime (metrics (snd ok)) = Qdiv (Qplus 0 (inject_Z 20)) (inject_Z 1)) /\
  (fst ko = Throw Toy.invalid_object /\
   totalQueries (metrics (snd ko)) = 1 /\
   failedQueries (metrics (snd ko)) = 1 /\
   avgExecutionTime (metrics (snd ko)) = 0%Q).
Proof.
  cbv zeta. split.
  - destruct (handleQuery Toy.env DEFAULT_CONFIG Toy.clock toy_select Toy.st0)
      as [r st'] eqn:Hrun.
    destruct (handleQuery_metrics Toy.env DEFAULT_CONFIG Toy.clock toy_select
                Toy.st0 st' r Hrun) as (Htotal & Hcase & _).
    assert (Hok : exists out, r = Ok out).
    { apply (f_equal fst) in Hrun. cbn [fst] in Hrun. rewrite <- Hrun.
      vm_compute. eexists. reflexivity. }
    destruct Hok as [out ->]. destruct Hcase as [Hfailed Havg].
    cbn [snd]. repeat split; assumption.
  - destruct (handleQuery Toy.env DEFAULT_CONFIG Toy.clock toy_missing_table Toy.st0)
      as [r st'] eqn:Hrun.
    destruct (handleQuery_metrics Toy.env DEFAULT_CONFIG Toy.clock toy_missing_table
                Toy.st0 st' r Hrun) as (Htotal & _ & Hreject).
    destruct (Hreject (Toy.creds "secret") 0%nat
                (snd (getConnection Toy.env DEFAULT_CONFIG (Toy.creds "secret")
                        (with_metrics inc_totalQueries Toy.st0)))
                Toy.invalid_object)
      as (Hr & Hfailed & Havg); try (vm_compute; reflexivity).
    cbn [fst snd]. repeat split; assumption.
Defined.

(** The re-average of the code is not the incremental mean: after two
    queries averaging 10 ms, a third of 20 ms gives 10, not 40/3. *)
Example reaverage_is_not_the_mean :
  let avg := 10%Q in
  let elapsed := 20 in
  let totalQueries := 3 in
  num_div (num_add avg (num_of_int elapsed)) (num_of_int totalQueries)
  = (30 / 3)%Q /\
  ~ (num_div (num_add avg (num_of_int elapsed)) (num_of_int totalQueries)
     == avg + (inject_Z elapsed - avg) / inject_Z totalQueries)%Q.
Proof.
  cbv zeta. split; [reflexivity|].
  vm_compute. discriminate.
Qed.

(** ** Bulk-insert engine *)

Section BulkInsertProperties.
Context {F : Type} `{JsNumber F}.
Variable env : Env.
Variable config : MCPConfig.

Lemma run_query_resolved (pool : nat) (text : string)
    (params : list (string * JsValue)) (st : State F) (r : QueryResult) :
  db_query env (calls st) pool text params = Resolved r ->
  run_query env pool text params st = (Ok r, logged (Query pool text params) st).
Proof. intros Hr. unfold run_query. now rewrite Hr. Qed.

(** With an unknown key in the first row the handler stops after the
    schema lookup; what leaves the handler is the [INVALID_COLUMNS] error
    re-wrapped by the [catch]: its code is [BULK_INSERT_ERROR]. *)
Lemma handleBulkInsert_invalid_columns (args : BulkInsertArgs)
    (c : ConnectionConfig) (firstRow : Row) (rest : list Row)
    (st st1 : State F) (pool : nat) (sr : QueryResult) (columns : list Row) :
  ConnectionSchema_parse (b_connection args) = Some c ->
  b_data args = Some (firstRow :: rest) ->
  getConnection env config c st = (Ok pool, st1) ->
  db_query env (calls st1) pool
    (structure_query (show_optional (database c)) (b_table args)) []
  = Resolved sr ->
  recordset sr = Some columns ->
  columns <> [] ->
  invalid_columns columns firstRow <> [] ->
  handleBulkInsert env config args st
  = (Throw (MCPError
              ("Bulk insert failed: "
                 +:+ error_message (invalid_columns_error columns firstRow))
              "BULK_INSERT_ERROR"
              (BulkInsertDetails (b_table args)
                 (Z.of_nat (List.length (firstRow :: rest))))),
     logged (structure_call pool c (b_table args)) st1).
Proof.
  intros Hparse Hdata Hconn Hreply Hcols Hne Hbad.
  unfold handleBulkInsert, parse_connection, bind, try_catch.
  rewrite Hparse. unfold ret at 1. rewrite Hdata, Hconn.
  rewrite (run_query_resolved _ _ _ _ _ Hreply), Hcols.
  destruct columns as [|col columns']; [congruence|].
  cbn [List.length Nat.eqb].
  fold (column_names (col :: columns')).
  fold (invalid_columns (col :: columns') firstRow).
  unfold invalid_columns_error.
  destruct (invalid_columns (col :: columns') firstRow) as [|bad l] eqn:Hinv;
    [congruence|].
  reflexivity.
Qed.

End BulkInsertProperties.

(** C4, evaluated.  The first row carries the unknown key [Bogus]: the
    handler throws an error that names the key and the valid columns, and
    sends nothing but the schema lookup; but the error's code is
    [BULK_INSERT_ERROR], the code of a failed execution, and the
    [INVALID_COLUMNS] code given at the throw site is lost. *)
Theorem invalid_columns_surface_as_bulk_insert_error :
  let run := handleBulkInsert Toy.env DEFAULT_CONFIG toy_bad_rows Toy.st0 in
  fst run
  = Throw (MCPError
             "Bulk insert failed: Invalid columns: Bogus. Valid columns: CustomerID, CompanyName, Country"
             "BULK_INSERT_ERROR" (BulkInsertDetails "Customers" 2)) /\
  List.filter is_query (calls (snd run))
  = [structure_call 0 (Toy.creds "secret") "Customers"].
Proof. vm_compute. split; reflexivity. Qed.

Section BulkInsertBatches.
Context {F : Type} `{JsNumber F}.
Variable env : Env.
Variable config : MCPConfig.

(** An insert carries one input per row of its batch and column. *)
Lemma insert_inputs_length (c : ConnectionConfig) (table : string)
    (dataColumns : list string) (batch : list Row) :
  List.length (insert_inputs c table dataColumns batch)
  = (List.length batch * List.length dataColumns)%nat.
Proof.
  unfold insert_inputs, insert_request. cbn [snd]. rewrite length_imap.
  induction batch as [|row batch IH]; [reflexivity|].
  cbn [flat_map List.length]. rewrite length_app, length_map, IH. lia.
Qed.

(** One turn of the loop whose insert the driver resolves. *)
Lemma insert_batches_more (fuel pool : nat) (c : ConnectionConfig)
    (table : string) (dataColumns : list string) (data : list Row)
    (i : nat) (total : Z) (st : State F) (r : QueryResult) :
  (i < List.length data)%nat ->
  db_query env (calls st) pool
    (insert_text c table dataColumns (slice i (i + batchSize) data))
    (insert_inputs c table dataColumns (slice i (i + batchSize) data))
  = Resolved r ->
  insert_batches env (S fuel) pool (show_optional (database c)) table
    dataColumns data i total st
  = insert_batches env fuel pool (show_optional (database c)) table
      dataColumns data (i + batchSize) (total + hd 0 (rowsAffected r))
      (logged (insert_call pool c table dataColumns (slice i (i + batchSize) data)) st).
Proof.
  intros Hlt Hreply. cbn [insert_batches].
  apply Nat.ltb_lt in Hlt. rewrite Hlt.
  unfold bind. unfold insert_text, insert_inputs in Hreply.
  rewrite (run_query_resolved env _ _ _ _ _ Hreply). reflexivity.
Qed.

(** The loop ends once [i] has passed the last row. *)
Lemma insert_batches_done (fuel pool : nat) (db table : string)
    (dataColumns : list string) (data : list Row)
    (i : nat) (total : Z) (st : State F) :
  (List.length data <= i)%nat ->
  insert_batches env fuel pool db table dataColumns data i total st
  = (Ok total, st).
Proof.
  intros Hge. destruct fuel as [|fuel]; [reflexivity|].
  cbn [insert_batches]. apply Nat.ltb_ge in Hge. now rewrite Hge.
Qed.

(** The fuel [data.length] given by the handler is enough: more fuel
    changes nothing. *)
Lemma insert_batches_enough_fuel (fuel fuel' pool : nat) (db table : string)
    (dataColumns : list string) (data : list Row)
    (i : nat) (total : Z) (st : State F) :
  (List.length data <= i + fuel)%nat ->
  (fuel <= fuel')%nat ->
  insert_batches env fuel pool db table dataColumns data i total st
  = insert_batches env fuel' pool db table dataColumns data i total st.
Proof.
  revert fuel' i total st.
  induction fuel as [|fuel IH]; intros fuel' i total st Hlen Hle.
  - rewrite !insert_batches_done by lia. reflexivity.
  - destruct fuel' as [|fuel']; [lia|].
    cbn [insert_batches].
    destruct (i <? List.length data)%nat; [|reflexivity].
    unfold bind.
    destruct (run_query env pool _ _ st) as [[r|e] st1]; [|reflexivity].
    apply IH; unfold batchSize; lia.
Qed.

(** C8.  A bulk insert of 250 rows whose first row has only known
    columns, on a connection the registry provides and with every query
    resolved by the driver: after the schema lookup exactly three
    inserts are sent, for rows 0-99, 100-199 and 200-249 in input order;
    the report gives 250 rows processed and, as rows inserted, the sum of
    the first affected-row counts of the three answers. *)
Theorem handleBulkInsert_250_rows (args : BulkInsertArgs) (c : ConnectionConfig)
    (data : list Row) (st st1 : State F) (pool : nat)
    (sr r1 r2 r3 : QueryResult) (columns : list Row) :
  ConnectionSchema_parse (b_connection args) = Some c ->
  b_data args = Some data ->
  List.length data = 250%nat ->
  getConnection env config c st = (Ok pool, st1) ->
  let table := b_table args in
  let dataColumns := keys (hd [] data) in
  let lookup := structure_call pool c table in
  let b1 := firstn 100 data in
  let b2 := firstn 100 (skipn 100 data) in
  let b3 := skipn 200 data in
  let insert := insert_call pool c table dataColumns in
  db_query env (calls st1) pool
    (structure_query (show_optional (database c)) table) [] = Resolved sr ->
  recordset sr = Some columns ->
  columns <> [] ->
  invalid_columns columns (hd [] data) = [] ->
  db_query env (calls st1 ++ [lookup]) pool
    (insert_text c table dataColumns b1) (insert_inputs c table dataColumns b1)
  = Resolved r1 ->
  db_query env (calls st1 ++ [lookup; insert b1]) pool
    (insert_text c table dataColumns b2) (insert_inputs c table dataColumns b2)
  = Resolved r2 ->
  db_query env (calls st1 ++ [lookup; insert b1; insert b2]) pool
    (insert_text c table dataColumns b3) (insert_inputs c table dataColumns b3)
  = Resolved r3 ->
  (data = b1 ++ b2 ++ b3)%list /\
  List.length b1 = 100%nat /\ List.length b2 = 100%nat /\ List.length b3 = 50%nat /\
  exists report st',
    handleBulkInsert env config args st = (Ok report, st') /\
    calls st' = (calls st1 ++ [lookup; insert b1; insert b2; insert b3])%list /\
    totalRowsProcessed report = 250 /\
    totalRowsInserted report
    = hd 0 (rowsAffected r1) + hd 0 (rowsAffected r2) + hd 0 (rowsAffected r3).
Proof.
  intros Hparse Hdata Hlen Hconn table dataColumns lookup b1 b2 b3 insert
         Hsr Hcols Hne Hvalid Hr1 Hr2 Hr3.
  assert (Hb3 : slice 200 300 data = b3).
  { unfold slice, b3. apply firstn_all2. rewrite length_skipn. lia. }
  split; [|split; [|split; [|split]]].
  - unfold b1, b2, b3.
    rewrite <- (firstn_skipn 100 data) at 1. f_equal.
    rewrite <- (firstn_skipn 100 (skipn 100 data)) at 1. f_equal.
    now rewrite skipn_skipn.
  - unfold b1. rewrite length_firstn. lia.
  - unfold b2. rewrite length_firstn, length_skipn. lia.
  - unfold b3. rewrite length_skipn. lia.
  - (* the three turns of the loop *)
    assert (Hloop :
      insert_batches env (List.length data) pool (show_optional (database c))
        table dataColumns data 0 0 (logged lookup st1)
      = (Ok (hd 0 (rowsAffected r1) + hd 0 (rowsAffected r2) + hd 0 (rowsAffected r3)),
         logged (insert b3) (logged (insert b2) (logged (insert b1) (logged lookup st1))))).
    { rewrite (insert_batches_enough_fuel (List.length data) (S (S (S (List.length data)))))
        by lia.
      rewrite (insert_batches_more _ _ _ _ _ _ _ _ _ r1); [|lia|exact Hr1].
      rewrite (insert_batches_more _ _ _ _ _ _ _ _ _ r2); [|unfold batchSize; lia|].
      2:{ cbn [calls logged]. rewrite <- app_assoc. exact Hr2. }
      rewrite (insert_batches_more _ _ _ _ _ _ _ _ _ r3); [|unfold batchSize; lia|].
      2:{ change (0 + batchSize + batchSize)%nat with 200%nat.
          change (200 + batchSize)%nat with 300%nat.
          rewrite Hb3. cbn [calls logged]. rewrite <- !app_assoc. exact Hr3. }
      rewrite insert_batches_done by (unfold batchSize; lia).
      change (0 + batchSize + batchSize)%nat with 200%nat.
      change (200 + batchSize)%nat with 300%nat.
      rewrite Hb3. reflexivity. }
    assert (Hd : data = hd [] data :: tl data)
      by (destruct data; [discriminate | reflexivity]).
    eexists. eexists. split; [|split].
    + unfold handleBulkInsert, parse_connection, bind, try_catch.
      rewrite Hparse. unfold ret at 1.
      rewrite Hd in Hdata. rewrite Hdata. cbv beta iota. rewrite <- Hd.
      rewrite Hconn. unfold table in Hsr.
      rewrite (run_query_resolved env _ _ _ _ _ Hsr), Hcols.
      destruct columns as [|col columns']; [congruence|].
      cbn [List.length Nat.eqb].
      fold (column_names (col :: columns')).
      unfold invalid_columns in Hvalid.
      rewrite Hvalid. cbn [List.length Nat.ltb Nat.leb].
      unfold dataColumns, lookup, structure_call, table in Hloop.
      rewrite Hloop. unfold ret. reflexivity.
    + cbn [calls logged]. rewrite <- !app_assoc. reflexivity.
    + cbn [totalRowsProcessed totalRowsInserted]. split; [|reflexivity].
      rewrite Hlen. reflexivity.
Qed.

End BulkInsertBatches.

Lemma handleBulkInsert_250_rows_witness :
  exists report st',
    handleBulkInsert Toy.env DEFAULT_CONFIG toy_250 Toy.st0 = (Ok report, st') /\
    List.length (List.filter is_query (calls st')) = 4%nat /\
    totalRowsProcessed report = 250 /\
    totalRowsInserted report = 250.
Proof.
  destruct (handleBulkInsert_250_rows Toy.env DEFAULT_CONFIG toy_250
              (Toy.creds "secret") toy_rows Toy.st0 toy_st1 0%nat
              {| recordset := Some Toy.Columns; rowsAffected := [3] |}
              (inserted 100) (inserted 100) (inserted 50) Toy.Columns)
    as (_ & _ & _ & _ & report & st' & Hrun & Hcalls & Hprocessed & Hinserted);
    try (vm_compute; reflexivity).
  - discriminate.
  - exists report, st'. split; [exact Hrun|]. split; [|split].
    + rewrite Hcalls. vm_compute. reflexivity.
    + exact Hprocessed.
    + rewrite Hinserted. reflexivity.
Defined.

(** ** Query executor: the row limit *)

Section StringFacts.

Lemma append_cons (c : ascii) (a b : string) :
  String c a +:+ b = String c (a +:+ b).
Proof. reflexivity. Qed.

Lemma append_nil (b : string) : "" +:+ b = b.
Proof. reflexivity. Qed.

Lemma append_assoc (a b c : string) : (a +:+ b) +:+ c = a +:+ b +:+ c.
Proof.
  induction a as [|x a IH]; [reflexivity|].
  rewrite !append_cons. now rewrite IH.
Qed.

Lemma map_chars_app (f : ascii -> ascii) (a b : string) :
  JS.map_chars f (a +:+ b) = JS.map_chars f a +:+ JS.map_chars f b.
Proof.
  induction a as [|c a IH]; [reflexivity|].
  rewrite append_cons. cbn [JS.map_chars]. rewrite append_cons. now rewrite IH.
Qed.

Lemma trimEnd_cons (c : ascii) (s : string) :
  JS.trimEnd (String c s)
  = match JS.trimEnd s with
    | EmptyString => if JS.is_space c then EmptyString else String c EmptyString
    | String d t => String c (String d t)
    end.
Proof. reflexivity. Qed.

Lemma trimEnd_idempotent (s : string) : JS.trimEnd (JS.trimEnd s) = JS.trimEnd s.
Proof.
  induction s as [|c s IH]; [reflexivity|].
  rewrite trimEnd_cons. destruct (JS.trimEnd s) as [|d t] eqn:Ht.
  - destruct (JS.is_space c) eqn:Hc; [reflexivity|].
    rewrite trimEnd_cons. cbn [JS.trimEnd]. now rewrite Hc.
  - rewrite trimEnd_cons, IH. reflexivity.
Qed.

Lemma trimStart_no_leading_space (s : string) :
  leading_space (JS.trimStart s) = false.
Proof.
  induction s as [|c s IH]; [reflexivity|].
  cbn [JS.trimStart]. destruct (JS.is_space c) eqn:Hc; [exact IH|].
  cbn. exact Hc.
Qed.

Lemma trimStart_trimEnd (s : string) :
  leading_space s = false -> JS.trimStart (JS.trimEnd s) = JS.trimEnd s.
Proof.
  destruct s as [|c s]; [reflexivity|]. cbn [leading_space]. intros Hc.
  rewrite trimEnd_cons. destruct (JS.trimEnd s); rewrite ?Hc; cbn [JS.trimStart];
    now rewrite Hc.
Qed.

Lemma trim_idempotent (s : string) : JS.trim (JS.trim s) = JS.trim s.
Proof.
  unfold JS.trim.
  rewrite (trimStart_trimEnd (JS.trimStart s)) by apply trimStart_no_leading_space.
  apply trimEnd_idempotent.
Qed.

Lemma sanitizeQuery_trimmed (query : string) :
  JS.trim (SecurityValidator.sanitizeQuery query)
  = SecurityValidator.sanitizeQuery query.
Proof. unfold SecurityValidator.sanitizeQuery. apply trim_idempotent. Qed.

End StringFacts.

Section RegexFacts.
Import Regex.

(** The matcher does not look into its continuation. *)
Lemma star_loop_ext
    (step : string -> (string -> option string) -> option string)
    (greedy : bool) (k1 k2 : string -> option string) (fuel : nat) (s : string) :
  (forall t j1 j2, (forall u, j1 u = j2 u) -> step t j1 = step t j2) ->
  (forall t, k1 t = k2 t) ->
  star_loop step greedy k1 fuel s = star_loop step greedy k2 fuel s.
Proof.
  intros Hstep Hk. revert s.
  induction fuel as [|fuel IH]; intros s; cbn [star_loop]; [apply Hk|].
  rewrite (Hstep s _ (fun s' =>
             if (String.length s' <? String.length s)%nat
             then star_loop step greedy k2 fuel s' else None)).
  - now rewrite Hk.
  - intros u. destruct (String.length u <? String.length s)%nat; [apply IH | reflexivity].
Qed.

Lemma run_ext (r : regex) (s : string) (k1 k2 : string -> option string) :
  (forall t, k1 t = k2 t) -> run r s k1 = run r s k2.
Proof.
  revert s k1 k2.
  induction r as [|p|r1 IH1 r2 IH2|r1 IH1 r2 IH2|greedy r IH|];
    intros s k1 k2 Hk; cbn [run].
  - apply Hk.
  - destruct s as [|c s]; [reflexivity|]. destruct (p c); [apply Hk | reflexivity].
  - apply IH1. intros t. now apply IH2.
  - rewrite (IH1 s k1 k2 Hk), (IH2 s k1 k2 Hk). reflexivity.
  - apply star_loop_ext; [|exact Hk]. intros t j1 j2 Hj. now apply IH.
  - destruct s as [|c s]; [apply Hk|].
    destruct (JS.is_line_terminator c); [apply Hk | reflexivity].
Qed.

(** The fuel [S (length s)] that [run] gives a star is never used up:
    any larger amount gives the same match. *)
Lemma star_loop_enough_fuel (r : regex) (greedy : bool)
    (k : string -> option string) (fuel fuel' : nat) (s : string) :
  (String.length s < fuel)%nat ->
  (String.length s < fuel')%nat ->
  star_loop (run r) greedy k fuel s = star_loop (run r) greedy k fuel' s.
Proof.
  revert fuel' s. induction fuel as [|fuel IH]; intros fuel' s Hlt Hlt'; [lia|].
  destruct fuel' as [|fuel']; [lia|]. cbn [star_loop].
  rewrite (run_ext r s _ (fun s' =>
             if (String.length s' <? String.length s)%nat
             then star_loop (run r) greedy k fuel' s' else None)).
  - reflexivity.
  - intros t. destruct (String.length t <? String.length s)%nat eqn:Hshort;
      [|reflexivity].
    apply Nat.ltb_lt in Hshort. apply IH; lia.
Qed.

(** Nor is the fuel of a global replacement. *)
Lemma replace_all_enough_fuel (r : regex) (rep : string) (fuel fuel' : nat)
    (s : string) :
  (String.length s < fuel)%nat ->
  (String.length s < fuel')%nat ->
  replace_all_fuel fuel r rep s = replace_all_fuel fuel' r rep s.
Proof.
  revert fuel' s. induction fuel as [|fuel IH]; intros fuel' s Hlt Hlt'; [lia|].
  destruct fuel' as [|fuel']; [lia|]. cbn [replace_all_fuel].
  destruct (exec r s) as [rest|].
  - destruct (String.length rest <? String.length s)%nat eqn:Hshort.
    + apply Nat.ltb_lt in Hshort. rewrite (IH fuel' rest) by lia. reflexivity.
    + destruct s as [|c s]; [reflexivity|].
      cbn [String.length] in Hlt, Hlt'. rewrite (IH fuel' s) by lia. reflexivity.
  - destruct s as [|c s]; [reflexivity|].
    cbn [String.length] in Hlt, Hlt'. rewrite (IH fuel' s) by lia. reflexivity.
Qed.

Lemma run_chr_i (c x : ascii) (s : string) (k : string -> option string) :
  JS.lower x = JS.lower c -> run (chr_i c) (String x s) k = k s.
Proof.
  intros Heq. cbn [run chr_i]. rewrite Heq. now rewrite Ascii.eqb_refl.
Qed.

Lemma run_lit_i (p kw s : string) (k : string -> option string) :
  JS.toLowerCase kw = JS.toLowerCase p ->
  run (lit_i p) (kw +:+ s) k = k s.
Proof.
  revert kw. induction p as [|c p IH]; intros kw Heq.
  - destruct kw; [reflexivity | discriminate].
  - destruct kw as [|x kw]; [discriminate|].
    unfold JS.toLowerCase in Heq. cbn [JS.map_chars] in Heq.
    injection Heq as Hx Hrest.
    cbn [lit_i]. rewrite append_cons.
    change (run (Seq (chr_i c) (lit_i p)) ?t k)
      with (run (chr_i c) t (fun s' => run (lit_i p) s' k)).
    rewrite run_chr_i by exact Hx. now apply IH.
Qed.

(** A greedy [\s*] eats a run of whitespace up to the first other
    character. *)
Lemma star_ws_eats (spaces rest : string) (fuel : nat) :
  all_space spaces = true ->
  leading_space rest = false ->
  (String.length spaces < fuel)%nat ->
  star_loop (run ws) true Some fuel (spaces +:+ rest) = Some rest.
Proof.
  revert fuel. induction spaces as [|w spaces IH]; intros fuel Hall Hrest Hfuel.
  - destruct fuel as [|fuel]; [cbn in Hfuel; lia|].
    rewrite append_nil. cbn [star_loop].
    destruct rest as [|c rest]; [reflexivity|].
    cbn [leading_space] in Hrest. cbn [run ws]. now rewrite Hrest.
  - destruct fuel as [|fuel]; [cbn in Hfuel; lia|].
    cbn [all_space] in Hall. apply andb_prop in Hall as [Hw Hall].
    rewrite append_cons. cbn [star_loop run ws]. rewrite Hw.
    cbn [String.length]. rewrite (proj2 (Nat.ltb_lt _ _)) by lia.
    rewrite IH; [reflexivity | assumption | assumption |].
    cbn [String.length] in Hfuel. lia.
Qed.

Lemma length_append (a b : string) :
  String.length (a +:+ b) = (String.length a + String.length b)%nat.
Proof.
  induction a as [|c a IH]; [reflexivity|].
  rewrite append_cons. cbn [String.length]. now rewrite IH.
Qed.

Lemma run_plus_ws (spaces rest : string) :
  spaces <> "" ->
  all_space spaces = true ->
  leading_space rest = false ->
  run (plus ws) (spaces +:+ rest) Some = Some rest.
Proof.
  intros Hne Hall Hrest. destruct spaces as [|w spaces]; [congruence|].
  cbn [all_space] in Hall. apply andb_prop in Hall as [Hw Hall].
  unfold plus. rewrite append_cons.
  change (run (Seq ws (Star true ws)) ?t Some)
    with (run ws t (fun s' => run (Star true ws) s' Some)).
  cbn [run ws]. rewrite Hw.
  apply star_ws_eats; try assumption.
  rewrite length_append. lia.
Qed.

(** [/^select\s+/i] on a text made of the keyword in any case, a
    non-empty run of whitespace, and a rest that starts otherwise. *)
Lemma exec_select_prefix (kw spaces rest : string) :
  JS.toLowerCase kw = "select" ->
  spaces <> "" ->
  all_space spaces = true ->
  leading_space rest = false ->
  exec (seq [lit_i "select"; plus ws]) (kw +:+ spaces +:+ rest) = Some rest.
Proof.
  intros Hkw Hne Hall Hrest. unfold exec. cbn [seq].
  change (run (Seq (lit_i "select") (plus ws)) ?t Some)
    with (run (lit_i "select") t (fun s' => run (plus ws) s' Some)).
  rewrite run_lit_i by exact Hkw.
  now apply run_plus_ws.
Qed.

Lemma startsWith_append (p s : string) : JS.startsWith (p +:+ s) p = true.
Proof.
  induction p as [|c p IH]; [destruct s; reflexivity|].
  rewrite append_cons. cbn [JS.startsWith]. now rewrite Ascii.eqb_refl, IH.
Qed.

End RegexFacts.

Section RowLimit.
Context {F : Type} `{JsNumber F}.
Variable env : Env.
Variable config : MCPConfig.

(** The three conditions of line 601 decide alone whether the text is
    rewritten. *)
Lemma finalQuery_of_unchanged (limit : Z) (sanitizedQuery : string) :
  limit = 0 \/
  JS.includes (JS.toLowerCase (JS.trim sanitizedQuery)) " top " = true \/
  JS.startsWith (JS.toLowerCase (JS.trim sanitizedQuery)) "select" = false ->
  finalQuery_of config limit sanitizedQuery = sanitizedQuery.
Proof.
  unfold finalQuery_of. intros [-> | [-> | ->]].
  - reflexivity.
  - now rewrite andb_false_r.
  - now rewrite andb_false_r.
Qed.

Lemma finalQuery_of_select (limit : Z) (query kw spaces rest : string) :
  limit <> 0 ->
  SecurityValidator.sanitizeQuery query = kw +:+ spaces +:+ rest ->
  JS.toLowerCase kw = "select" ->
  spaces <> "" ->
  all_space spaces = true ->
  leading_space rest = false ->
  JS.includes (JS.toLowerCase (SecurityValidator.sanitizeQuery query)) " top " = false ->
  finalQuery_of config limit (SecurityValidator.sanitizeQuery query)
  = "SELECT TOP " +:+ JS.show (Z.min limit (maxRowsPerQuery (security config)))
      +:+ " " +:+ rest.
Proof.
  intros Hlimit Hshape Hkw Hne Hall Hrest Hnotop. unfold finalQuery_of.
  rewrite sanitizeQuery_trimmed, Hnotop.
  apply Z.eqb_neq in Hlimit. rewrite Hlimit. cbn [negb andb].
  rewrite Hshape at 1. unfold JS.toLowerCase. rewrite map_chars_app.
  fold (JS.toLowerCase kw). rewrite Hkw, startsWith_append.
  unfold Regex.replace_at_start, select_prefix.
  rewrite Hshape, exec_select_prefix by assumption.
  unfold top_clause. now rewrite !append_assoc.
Qed.

(** Where [select] is not followed by whitespace the guard of line 601
    passes but [/^select\s+/i] finds nothing to replace. *)
Lemma finalQuery_of_glued_select (limit : Z) (sanitizedQuery kw rest : string) :
  sanitizedQuery = kw +:+ rest ->
  JS.toLowerCase kw = "select" ->
  leading_space rest = false ->
  finalQuery_of config limit sanitizedQuery = sanitizedQuery.
Proof.
  intros -> Hkw Hrest. unfold finalQuery_of.
  destruct (negb (limit =? 0)%Z && _ && _); [|reflexivity].
  unfold Regex.replace_at_start, select_prefix, Regex.exec. cbn [Regex.seq].
  change (Regex.run (Regex.Seq (Regex.lit_i "select") (Regex.plus Regex.ws)) ?t Some)
    with (Regex.run (Regex.lit_i "select") t
            (fun s' => Regex.run (Regex.plus Regex.ws) s' Some)).
  rewrite run_lit_i by exact Hkw.
  destruct rest as [|c rest]; [reflexivity|].
  cbn [leading_space] in Hrest. unfold Regex.plus.
  change (Regex.run (Regex.Seq Regex.ws (Regex.Star true Regex.ws)) ?t Some)
    with (Regex.run Regex.ws t
            (fun s' => Regex.run (Regex.Star true Regex.ws) s' Some)).
  cbn [Regex.run Regex.ws]. now rewrite Hrest.
Qed.

(** C1, as amended.  A validated query sent with a non-zero limit [n],
    whose sanitized text is [select] in any case, then whitespace, then
    a rest, and has no [" top "] in lower case: the statement sent is
    [SELECT TOP k] and the rest, with [k = min(n, maxRowsPerQuery)], so
    that the count written into the statement exceeds neither [n] nor
    [maxRowsPerQuery].  On a connection the registry provides, whatever
    rows the driver answers for that statement are the rows of the
    answer, all of them: the handler neither counts them against [k] nor
    cuts them. *)
Theorem handleQuery_adds_top (clock : Clock) (args : QueryArgs)
    (c : ConnectionConfig) (n : Z) (kw spaces rest : string)
    (st st1 : State F) (pool : nat) (r : QueryResult) (rows : list Row) :
  ConnectionSchema_parse (q_connection args) = Some c ->
  SecurityValidator.isValid
    (SecurityValidator.validateQuery (security config) (q_query args)) = true ->
  q_limit args = Some n ->
  n <> 0 ->
  SecurityValidator.sanitizeQuery (q_query args) = kw +:+ spaces +:+ rest ->
  JS.toLowerCase kw = "select" ->
  spaces <> "" ->
  all_space spaces = true ->
  leading_space rest = false ->
  JS.includes (JS.toLowerCase (SecurityValidator.sanitizeQuery (q_query args)))
    " top " = false ->
  getConnection env config c (with_metrics inc_totalQueries st) = (Ok pool, st1) ->
  let k := Z.min n (maxRowsPerQuery (security config)) in
  let finalQuery := "SELECT TOP " +:+ JS.show k +:+ " " +:+ rest in
  let text := "USE [" +:+ show_optional (database c) +:+ "]; " +:+ finalQuery in
  db_query env (calls st1) pool text [] = Resolved r ->
  recordset r = Some rows ->
  exists out st',
    handleQuery env config clock args st = (Ok out, st') /\
    calls st' = (calls st1 ++ [Query pool text []])%list /\
    out_query out = finalQuery /\
    out_data out = rows /\
    out_rowCount out = Z.of_nat (List.length rows) /\
    k <= n /\
    k <= maxRowsPerQuery (security config).
Proof.
  intros Hparse Hvalid Hlimit Hn Hshape Hkw Hne Hall Hrest Hnotop Hconn
         k finalQuery text Hreply Hrows.
  assert (Hfinal :
    finalQuery_of config (default 1000 (q_limit args))
      (SecurityValidator.sanitizeQuery (q_query args)) = finalQuery).
  { rewrite Hlimit. cbn [default].
    now apply (finalQuery_of_select n (q_query args) kw spaces rest). }
  eexists. eexists. split.
  - unfold handleQuery, bind, try_catch, modify, parse_connection.
    rewrite Hparse. unfold ret at 1. rewrite Hvalid. cbn [negb].
    rewrite Hconn, Hfinal.
    fold text. rewrite (run_query_resolved env _ _ _ _ _ Hreply), Hrows.
    unfold ret. reflexivity.
  - cbn [calls logged with_metrics out_query out_data out_rowCount].
    repeat split; try assumption; unfold k; lia.
Qed.

End RowLimit.

(** C1, the claim as first stated, fails: with a cap of 3 rows and a
    limit of 5, a query that brings its own [TOP 7] is sent as it is, and
    the database, which answers the same query without [TOP 7] by the 3
    rows of the injected [TOP 3], returns 7 rows. *)
Lemma explicit_top_escapes_the_row_limit :
  let run := handleQuery Toy.env capped_config Toy.clock toy_explicit_top Toy.st0 in
  let plain := handleQuery Toy.env capped_config Toy.clock toy_select Toy.st0 in
  Z.min 5 (maxRowsPerQuery (security capped_config)) = 3 /\
  (exists out,
     fst plain = Ok out /\
     out_query out = "SELECT TOP 3 * FROM Customers" /\
     out_rowCount out = 3) /\
  exists out,
    fst run = Ok out /\
    out_query out = "SELECT TOP 7 * FROM Customers" /\
    out_rowCount out = 7 /\
    Z.min 5 (maxRowsPerQuery (security capped_config)) < out_rowCount out.
Proof.
  cbv zeta. split; [reflexivity|]. split.
  - eexists. split; [vm_compute; reflexivity|]. split; reflexivity.
  - eexists. split; [vm_compute; reflexivity|]. repeat split.
Qed.

(** The other ways past the rewriting of lines 601-602: a limit of 0 is
    falsy, a statement that starts with [WITH] is no [select], and a
    [select] with no whitespace after it is not matched by the regex
    (such a query passes a policy that has no whitelist). *)
Example glued_select_is_not_limited :
  let run := handleQuery Toy.env open_config Toy.clock toy_glued_select Toy.st0 in
  exists out,
    fst run = Ok out /\
    out_query out = "SELECT* FROM Customers" /\
    out_rowCount out = 7.
Proof. cbv zeta. eexists. split; [vm_compute; reflexivity|]. split; reflexivity. Qed.

Example zero_limit_is_no_limit :
  let run := handleQuery Toy.env DEFAULT_CONFIG Toy.clock toy_zero_limit Toy.st0 in
  exists out,
    fst run = Ok out /\
    out_query out = "SELECT * FROM Customers" /\
    out_rowCount out = 7.
Proof. cbv zeta. eexists. split; [vm_compute; reflexivity|]. split; reflexivity. Qed.

Example with_query_is_not_limited :
  let run := handleQuery Toy.env capped_config Toy.clock toy_with Toy.st0 in
  exists out,
    fst run = Ok out /\
    out_query out = "WITH c AS (SELECT * FROM Customers) SELECT * FROM c" /\
    out_rowCount out = 7.
Proof. cbv zeta. eexists. split; [vm_compute; reflexivity|]. split; reflexivity. Qed.

Lemma handleQuery_adds_top_witness :
  exists out st',
    handleQuery Toy.env DEFAULT_CONFIG Toy.clock toy_select Toy.st0 = (Ok out, st') /\
    calls st'
    = (calls toy_st1 ++ [Query 0 "USE [shop]; SELECT TOP 5 * FROM Customers" []])%list /\
    out_query out = "SELECT TOP 5 * FROM Customers" /\
    out_data out = firstn 5 Toy.Customers /\
    out_rowCount out = 5 /\
    5 <= 5 /\
    5 <= 10000.
Proof.
  apply (handleQuery_adds_top Toy.env DEFAULT_CONFIG Toy.clock toy_select
           (Toy.creds "secret") 5 "SELECT" " " "* FROM Customers"
           Toy.st0
           (snd (getConnection Toy.env DEFAULT_CONFIG (Toy.creds "secret")
                   (with_metrics inc_totalQueries Toy.st0)))
           0%nat
           {| recordset := Some (firstn 5 Toy.Customers); rowsAffected := [5] |}
           (firstn 5 Toy.Customers));
    try (vm_compute; reflexivity).
  - discriminate.
  - discriminate.
Defined.

(** * Further properties *)

(** ** Security validator: the whole verdict *)

Section ValidatorVerdict.
Import SecurityValidator.

Lemma fold_push_if {A} (cond : A -> bool) (msg : A -> string) (l : list A)
    (errs : list string) :
  fold_left (fun errors x => push_if (cond x) (msg x) errors) l errs
  = (errs ++ map msg (List.filter cond l))%list.
Proof.
  revert errs. induction l as [|x l IH]; intros errs; cbn [fold_left List.filter map].
  - now rewrite app_nil_r.
  - rewrite IH. unfold push_if. destruct (cond x); cbn [map].
    + now rewrite <- app_assoc.
    + reflexivity.
Qed.

Lemma validateQuery_errors_unfold (config : SecurityConfig) (query : string) :
  enableQueryValidation config = true ->
  errors (validateQuery config query) = expected_errors config query.
Proof.
  intros Hon. unfold validateQuery. rewrite Hon. cbn [negb errors].
  unfold check_operation, check_patterns, check_blocked, check_length.
  rewrite !fold_push_if. unfold expected_errors, operation_refused, too_long.
  fold (keyword_found query). unfold push_if at 2. cbn [app].
  unfold push_if.
  destruct (0 <? List.length (allowedOperations config))%nat; cbn [andb].
  - destruct (JS.truthy (firstWord query)
              && negb (JS.array_includes (allowedOperations config) (firstWord query)));
      rewrite <- ?app_assoc; [reflexivity|].
    now rewrite !app_nil_r.
  - rewrite <- ?app_assoc. now rewrite !app_nil_r.
Qed.

Lemma validateQuery_valid_iff_no_errors_aux (config : SecurityConfig)
    (query : string) :
  enableQueryValidation config = true ->
  isValid (validateQuery config query) = true
  <-> expected_errors config query = [].
Proof.
  intros Hon. rewrite <- (validateQuery_errors_unfold config query Hon).
  unfold validateQuery. rewrite Hon. cbn [negb isValid errors].
  destruct (check_operation _ _ _) as [|e l]; cbn; split; congruence.
Qed.

(** The verdict and the error list agree: a result is valid exactly
    when it carries no error, whether validation is on or off. *)
Lemma validateQuery_valid_iff_no_errors (config : SecurityConfig)
    (query : string) :
  isValid (validateQuery config query) = true
  <-> errors (validateQuery config query) = [].
Proof.
  unfold validateQuery. destruct (enableQueryValidation config); cbn [negb isValid errors].
  - destruct (check_operation _ _ _) as [|e l]; cbn; split; congruence.
  - split; reflexivity.
Qed.

(** X1.  No check short-circuits another: under an enabled policy the
    error list is the message of the length check if the query is too
    long, then one message per blocked keyword found (in any letter case)
    in the order of the policy, then one per dangerous pattern matched,
    in the order of the table, then the message of the operation check. *)
Theorem validateQuery_reports_every_violation (config : SecurityConfig)
    (query : string) :
  enableQueryValidation config = true ->
  errors (validateQuery config query)
  = ((if too_long config query then [length_error config] else [])
     ++ map keyword_error (List.filter (keyword_found query) (blockedKeywords config))
     ++ map pattern_error (List.filter (pattern_found query) dangerousPatterns)
     ++ (if operation_refused config query
         then [operation_error config (firstWord query)] else []))%list.
Proof. apply validateQuery_errors_unfold. Qed.

Lemma validateQuery_reports_every_violation_witness :
  errors (validateQuery (security PRODUCTION_CONFIG)
            "EXEC xp_cmdshell 'dir' -- bulk")
  = ["Query contains blocked keyword: xp_cmdshell";
     "Query contains blocked keyword: bulk";
     "Query contains potentially dangerous pattern: --.*$";
     "Query contains potentially dangerous pattern: xp_[\w]+";
     "Operation 'EXEC' is not allowed. Allowed operations: SELECT"].
Proof.
  etransitivity.
  - apply (validateQuery_reports_every_violation (security PRODUCTION_CONFIG)
             "EXEC xp_cmdshell 'dir' -- bulk"). reflexivity.
  - vm_compute. reflexivity.
Defined.


Lemma filter_nil_iff {A} (p : A -> bool) (l : list A) :
  List.filter p l = [] <-> forall x, In x l -> p x = false.
Proof.
  induction l as [|a l IH]; cbn [List.filter].
  - split; [intros _ x [] | reflexivity].
  - destruct (p a) eqn:Hp.
    + split; [discriminate|]. intros Hall.
      specialize (Hall a (or_introl eq_refl)). congruence.
    + rewrite IH. split.
      * intros Hall x [<- | Hx]; auto.
      * intros Hall x Hx. apply Hall. now right.
Qed.

Lemma expected_errors_nil (config : SecurityConfig) (query : string) :
  expected_errors config query = [] <->
  too_long config query = false /\
  (forall keyword, In keyword (blockedKeywords config) ->
                   keyword_found query keyword = false) /\
  (forall pattern, In pattern dangerousPatterns ->
                   pattern_found query pattern = false) /\
  operation_refused config query = false.
Proof.
  unfold expected_errors. rewrite <- !filter_nil_iff. split.
  - intros Hnil.
    apply app_eq_nil in Hnil as [Hlen Hnil].
    apply app_eq_nil in Hnil as [Hkw Hnil].
    apply app_eq_nil in Hnil as [Hpat Hop].
    apply map_eq_nil in Hkw, Hpat.
    repeat split; try assumption.
    + destruct (too_long config query); [discriminate | reflexivity].
    + destruct (operation_refused config query); [discriminate | reflexivity].
  - intros (-> & -> & -> & ->). reflexivity.
Qed.

(** X2.  What a valid verdict is worth under an enabled policy: the query
    is valid exactly when it is no longer than [maxQueryLength], contains
    no blocked keyword in any letter case, matches none of the six
    dangerous patterns, and passes the operation check (no whitelist, a
    blank query, or a listed first word). *)
Theorem validateQuery_accepts_iff (config : SecurityConfig) (query : string) :
  enableQueryValidation config = true ->
  isValid (validateQuery config query) = true <->
  (JS.length query <= maxQueryLength config)%Z /\
  (forall keyword, In keyword (blockedKeywords config) ->
     JS.includes (JS.toLowerCase query) (JS.toLowerCase keyword) = false) /\
  (forall pattern, In pattern dangerousPatterns ->
     Regex.test (re pattern) query = false) /\
  (allowedOperations config = [] \/ firstWord query = ""
   \/ In (firstWord query) (allowedOperations config)).
Proof.
  intros Hon. rewrite validateQuery_valid_iff_no_errors_aux by exact Hon.
  rewrite expected_errors_nil. unfold too_long, keyword_found, pattern_found.
  rewrite Z.ltb_ge.
  assert (Hop : operation_refused config query = false <->
                (allowedOperations config = [] \/ firstWord query = ""
                 \/ In (firstWord query) (allowedOperations config))).
  { unfold operation_refused.
    destruct (allowedOperations config) as [|a l] eqn:Hops; cbn [List.length Nat.ltb Nat.leb andb].
    - split; auto.
    - destruct (firstWord query) as [|c w] eqn:Hword; cbn [JS.truthy andb].
      + split; auto.
      + rewrite negb_false_iff. rewrite array_includes_In. split.
        * auto.
        * intros [Hnil | [Hnil | Hin]]; [discriminate | discriminate | exact Hin]. }
  rewrite Hop. reflexivity.
Qed.

Lemma validateQuery_accepts_iff_witness :
  let config := security DEFAULT_CONFIG in
  let query := "with t as (select 1 as n) select n from t" in
  isValid (validateQuery config query) = true <->
  (JS.length query <= maxQueryLength config)%Z /\
  (forall keyword, In keyword (blockedKeywords config) ->
     JS.includes (JS.toLowerCase query) (JS.toLowerCase keyword) = false) /\
  (forall pattern, In pattern dangerousPatterns ->
     Regex.test (re pattern) query = false) /\
  (allowedOperations config = [] \/ firstWord query = ""
   \/ In (firstWord query) (allowedOperations config)).
Proof.
  apply (validateQuery_accepts_iff (security DEFAULT_CONFIG)
           "with t as (select 1 as n) select n from t"). reflexivity.
Defined.

(** X3.  The validator is monotone in the policy: a query accepted
    under an enabled policy stays accepted under any policy that is no
    stricter (a length limit at least as large, no further blocked
    keyword, and a whitelist that is absent or contains the strict
    one).  The production override is such a restriction of the default
    policy. *)
Theorem validateQuery_monotone (strict lenient : SecurityConfig) (query : string) :
  enableQueryValidation strict = true ->
  (maxQueryLength strict <= maxQueryLength lenient)%Z ->
  incl (blockedKeywords lenient) (blockedKeywords strict) ->
  (allowedOperations lenient = [] \/
   allowedOperations strict <> [] /\
   incl (allowedOperations strict) (allowedOperations lenient)) ->
  isValid (validateQuery strict query) = true ->
  isValid (validateQuery lenient query) = true.
Proof.
  intros Hon Hlen Hblocked Hallowed Hvalid.
  destruct (enableQueryValidation lenient) eqn:Hon'.
  2:{ unfold validateQuery. now rewrite Hon'. }
  apply validateQuery_valid_iff_no_errors_aux; [exact Hon'|].
  apply validateQuery_valid_iff_no_errors_aux in Hvalid; [|exact Hon].
  apply expected_errors_nil in Hvalid as (Hlong & Hkw & Hpat & Hop).
  apply expected_errors_nil. repeat split.
  - unfold too_long in *. apply Z.ltb_ge. apply Z.ltb_ge in Hlong. lia.
  - intros keyword Hin. apply Hkw. now apply Hblocked.
  - exact Hpat.
  - unfold operation_refused in *.
    destruct Hallowed as [-> | [Hne Hincl]]; [reflexivity|].
    destruct (allowedOperations strict) as [|a l] eqn:Hstrict; [congruence|].
    cbn [List.length Nat.ltb Nat.leb andb] in Hop.
    destruct (JS.truthy (firstWord query)); [|now rewrite andb_false_r].
    cbn [andb] in Hop. apply negb_false_iff in Hop.
    apply array_includes_In in Hop. apply Hincl in Hop.
    apply array_includes_In in Hop. rewrite Hop. now rewrite !andb_false_r.
Qed.

Lemma validateQuery_monotone_witness :
  let query := "SELECT * FROM Customers WHERE Country = 'Spain'" in
  isValid (validateQuery (security DEFAULT_CONFIG) query) = true.
Proof.
  apply (validateQuery_monotone (security PRODUCTION_CONFIG) (security DEFAULT_CONFIG)
           "SELECT * FROM Customers WHERE Country = 'Spain'").
  - reflexivity.
  - cbn. lia.
  - intros keyword Hin. exact Hin.
  - right. split; [discriminate|]. intros op [<- | []]. now left.
  - reflexivity.
Defined.

End ValidatorVerdict.

(** ** Security validator: comments *)

Section CommentFacts.
Import Regex SecurityValidator.

Lemma run_lit (p s : string) (k : string -> option string) :
  run (lit p) s k
  = match strip_prefix p s with
    | Some rest => k rest
    | None => None
    end.
Proof.
  revert s. induction p as [|a p IH]; intros s; cbn [lit strip_prefix].
  - reflexivity.
  - change (run (Seq (chr a) (lit p)) s k)
      with (run (chr a) s (fun s' => run (lit p) s' k)).
    destruct s as [|b s]; cbn [run chr]; [reflexivity|].
    destruct (Ascii.eqb a b); [apply IH | reflexivity].
Qed.

Lemma startsWith_strip (p s : string) :
  JS.startsWith s p
  = match strip_prefix p s with Some _ => true | None => false end.
Proof.
  revert s. induction p as [|a p IH]; intros s.
  - now destruct s.
  - destruct s as [|b s]; [reflexivity|]. cbn [JS.startsWith strip_prefix].
    destruct (Ascii.eqb a b); cbn [andb]; [apply IH | reflexivity].
Qed.

Lemma strip_prefix_append (p u : string) : strip_prefix p (p +:+ u) = Some u.
Proof.
  induction p as [|a p IH]; [now destruct u|].
  rewrite append_cons. cbn [strip_prefix]. now rewrite Ascii.eqb_refl.
Qed.

Lemma strip_prefix_Some (p s u : string) :
  strip_prefix p s = Some u -> s = p +:+ u.
Proof.
  revert s. induction p as [|a p IH]; intros s; cbn [strip_prefix].
  - destruct s; intros [= <-]; reflexivity.
  - destruct s as [|b s]; [discriminate|].
    destruct (Ascii.eqb_spec a b) as [<-|]; [|discriminate].
    intros Hs. rewrite append_cons. f_equal. now apply IH.
Qed.

Lemma run_dot_cons (c : ascii) (u : string) (k : string -> option string) :
  run dot (String c u) k = if JS.is_line_terminator c then None else k u.
Proof. cbn [run dot]. now destruct (JS.is_line_terminator c). Qed.

Lemma run_dot_nil (k : string -> option string) : run dot "" k = None.
Proof. reflexivity. Qed.

Lemma run_Eol_cons (c : ascii) (u : string) :
  run Eol (String c u) Some
  = if JS.is_line_terminator c then Some (String c u) else None.
Proof. reflexivity. Qed.

(** After [--], the greedy [.*] followed by [$] always finds the end of
    the line. *)
Lemma star_dot_eol (u : string) (fuel : nat) :
  (String.length u < fuel)%nat ->
  exists rest,
    star_loop (run dot) true (fun s' => run Eol s' Some) fuel u = Some rest.
Proof.
  revert fuel. induction u as [|c u IH]; intros fuel Hfuel;
    (destruct fuel as [|fuel]; [cbn in Hfuel; lia|]); cbn [star_loop].
  - rewrite run_dot_nil. eexists. reflexivity.
  - rewrite run_dot_cons, run_Eol_cons.
    destruct (JS.is_line_terminator c) eqn:Hc.
    + eexists. reflexivity.
    + cbn [String.length]. rewrite (proj2 (Nat.ltb_lt _ _)) by lia.
      destruct (IH fuel) as [rest ->]; [cbn [String.length] in Hfuel; lia|].
      eexists. reflexivity.
Qed.

Lemma exec_line_comment (s : string) :
  exec line_comment s
  = match strip_prefix "--" s with
    | Some u =>
        star_loop (run dot) true (fun s' => run Eol s' Some)
          (S (String.length u)) u
    | None => None
    end.
Proof.
  unfold exec, line_comment. cbn [seq].
  change (run (Seq (lit "--") (Seq (star dot) Eol)) s Some)
    with (run (lit "--") s (fun s1 => run (star dot) s1 (fun s2 => run Eol s2 Some))).
  rewrite run_lit. reflexivity.
Qed.

Lemma exec_line_comment_is_some (s : string) :
  match exec line_comment s with Some _ => true | None => false end
  = JS.startsWith s "--".
Proof.
  rewrite exec_line_comment, startsWith_strip.
  destruct (strip_prefix "--" s) as [u|]; [|reflexivity].
  destruct (star_dot_eol u (S (String.length u))) as [rest ->]; [lia | reflexivity].
Qed.

(** [/--.*$/gm] finds a match exactly in the texts that contain [--]. *)
Lemma test_line_comment (s : string) :
  test line_comment s = JS.includes s "--".
Proof.
  induction s as [|c s IH]; cbn [test JS.includes];
    rewrite <- exec_line_comment_is_some.
  - destruct (exec line_comment ""); reflexivity.
  - destruct (exec line_comment (String c s)); [reflexivity|]. exact IH.
Qed.

(** Where a regex finds nothing, a global replacement changes nothing. *)
Lemma replace_all_no_match (r : regex) (rep s : string) :
  test r s = false -> replace_all r rep s = s.
Proof.
  unfold replace_all. generalize (S (String.length s)) as fuel.
  induction s as [|c s IH]; intros fuel; cbn [test].
  - destruct (exec r "") eqn:He; [discriminate|]. intros _.
    destruct fuel; cbn [replace_all_fuel]; [reflexivity|]. now rewrite He.
  - destruct (exec r (String c s)) eqn:He; [discriminate|]. intros Hs.
    destruct fuel; cbn [replace_all_fuel]; [reflexivity|].
    rewrite He. now rewrite IH.
Qed.

(** Greedy or lazy, [.*] followed by [*/] succeeds exactly when the
    comment closes on the line. *)
Lemma star_dot_closes (greedy : bool) (u : string) (fuel : nat) :
  (String.length u < fuel)%nat ->
  match star_loop (run dot) greedy (fun s' => run (lit "*/") s' Some) fuel u with
  | Some _ => true
  | None => false
  end = closes_comment u.
Proof.
  revert fuel. induction u as [|c u IH]; intros fuel Hfuel;
    (destruct fuel as [|fuel]; [cbn in Hfuel; lia|]); cbn [star_loop].
  - rewrite run_dot_nil, run_lit. cbn. now destruct greedy.
  - cbn [closes_comment]. rewrite startsWith_strip.
    rewrite run_dot_cons, run_lit.
    cbn [String.length]. rewrite (proj2 (Nat.ltb_lt (String.length u) _)) by lia.
    specialize (IH fuel). cbn [String.length] in Hfuel.
    rewrite <- IH by lia.
    destruct (strip_prefix "*/" (String c u)) as [rest|];
      destruct (JS.is_line_terminator c); cbn [negb andb orb];
      destruct greedy; try reflexivity;
      destruct (star_loop (run dot) _ _ fuel u); reflexivity.
Qed.

Lemma exec_block_is_some (greedy : bool) (s : string) :
  match exec (seq [lit "/*"; Star greedy dot; lit "*/"]) s with
  | Some _ => true
  | None => false
  end
  = match strip_prefix "/*" s with
    | Some u => closes_comment u
    | None => false
    end.
Proof.
  unfold exec. cbn [seq].
  change (run (Seq (lit "/*") (Seq (Star greedy dot) (lit "*/"))) s Some)
    with (run (lit "/*") s
            (fun s1 => run (Star greedy dot) s1 (fun s2 => run (lit "*/") s2 Some))).
  rewrite run_lit. destruct (strip_prefix "/*" s) as [u|]; [|reflexivity].
  cbn [run]. apply star_dot_closes. lia.
Qed.

Lemma test_ext (r1 r2 : regex) :
  (forall s, match exec r1 s with Some _ => true | None => false end
             = match exec r2 s with Some _ => true | None => false end) ->
  forall s, test r1 s = test r2 s.
Proof.
  intros Hx s. induction s as [|c s IH]; cbn [test].
  - specialize (Hx ""). destruct (exec r1 ""), (exec r2 ""); congruence.
  - specialize (Hx (String c s)).
    destruct (exec r1 (String c s)), (exec r2 (String c s)); congruence.
Qed.

(** The validator's greedy pattern and the sanitizer's lazy one find a
    block comment in the same texts. *)
Lemma test_block_comment (s : string) :
  test block_comment s = test (seq [lit "/*"; star dot; lit "*/"]) s.
Proof.
  apply test_ext. intros s'. unfold block_comment, star_lazy, star.
  now rewrite !exec_block_is_some.
Qed.

Lemma test_suffix (r : regex) (a s : string) :
  test r s = true -> test r (a +:+ s) = true.
Proof.
  intros Hs. induction a as [|c a IH]; [now rewrite append_nil|].
  rewrite append_cons. cbn [test]. now destruct (exec r (String c (a +:+ s))).
Qed.

Lemma test_exec (r : regex) (s : string) :
  test r s = true <->
  exists a s', s = a +:+ s' /\ exec r s' <> None.
Proof.
  split.
  - induction s as [|c s IH]; cbn [test].
    + destruct (exec r "") eqn:He; [|discriminate]. intros _.
      exists "", "". rewrite append_nil. split; congruence.
    + destruct (exec r (String c s)) eqn:He.
      * intros _. exists "", (String c s). rewrite append_nil. split; congruence.
      * intros Ht. destruct (IH Ht) as (a & s' & -> & Hx).
        exists (String c a), s'. now rewrite append_cons.
  - intros (a & s' & -> & Hx). apply test_suffix.
    destruct s'; cbn [test]; destruct (exec r _); congruence.
Qed.

Lemma closes_comment_iff (u : string) :
  closes_comment u = true <->
  exists b c, u = b +:+ "*/" +:+ c /\ single_line b = true.
Proof.
  split.
  - induction u as [|x u IH]; cbn [closes_comment]; rewrite startsWith_strip.
    + cbn. discriminate.
    + destruct (strip_prefix "*/" (String x u)) as [c|] eqn:Hs.
      * intros _. exists "", c. rewrite append_nil.
        split; [now apply strip_prefix_Some | reflexivity].
      * cbn [orb]. intros [Hx Hu]%andb_true_iff.
        destruct (IH Hu) as (b & c & -> & Hb).
        exists (String x b), c. rewrite append_cons. split; [reflexivity|].
        cbn [single_line]. now rewrite Hx, Hb.
  - intros (b & c & -> & Hb). induction b as [|x b IH].
    + rewrite append_nil. destruct c; reflexivity.
    + rewrite append_cons. cbn [closes_comment single_line] in *.
      apply andb_true_iff in Hb as [-> Hb]. rewrite (IH Hb).
      cbn [andb]. apply orb_true_r.
Qed.

(** [/\/\*.*\*\//] finds a match exactly in the texts that hold a block
    comment opened and closed on one line. *)
Lemma test_block_comment_iff (s : string) :
  test (seq [lit "/*"; star dot; lit "*/"]) s = true <->
  exists a b c, s = a +:+ "/*" +:+ b +:+ "*/" +:+ c /\ single_line b = true.
Proof.
  rewrite test_exec. split.
  - intros (a & s' & -> & Hx).
    pose proof (exec_block_is_some true s') as He. unfold star in Hx.
    destruct (exec (seq [lit "/*"; Star true dot; lit "*/"]) s'); [|congruence].
    destruct (strip_prefix "/*" s') as [u|] eqn:Hs; [|discriminate].
    symmetry in He. apply closes_comment_iff in He as (b & c & -> & Hb).
    apply strip_prefix_Some in Hs as ->. now exists a, b, c.
  - intros (a & b & c & -> & Hb). exists a, ("/*" +:+ b +:+ "*/" +:+ c).
    split; [reflexivity|].
    pose proof (exec_block_is_some true ("/*" +:+ b +:+ "*/" +:+ c)) as He.
    rewrite strip_prefix_append in He. unfold star.
    assert (Hc : closes_comment (b +:+ "*/" +:+ c) = true)
      by (apply closes_comment_iff; now exists b, c).
    rewrite Hc in He.
    destruct (exec (seq [lit "/*"; Star true dot; lit "*/"]) _); congruence.
Qed.

Lemma pattern_reported (config : SecurityConfig) (query : string)
    (pattern : Pattern) :
  enableQueryValidation config = true ->
  In pattern dangerousPatterns ->
  test (re pattern) query = true ->
  isValid (validateQuery config query) = false /\
  In (pattern_error pattern) (errors (validateQuery config query)).
Proof.
  intros Hon Hin Hfound.
  assert (Herr : In (pattern_error pattern) (errors (validateQuery config query))).
  { rewrite validateQuery_errors_unfold by exact Hon. unfold expected_errors.
    apply in_or_app. right. apply in_or_app. right. apply in_or_app. left.
    apply in_map. apply List.filter_In. now split. }
  split; [|exact Herr].
  destruct (isValid (validateQuery config query)) eqn:Hvalid; [|reflexivity].
  apply validateQuery_valid_iff_no_errors_aux in Hvalid; [|exact Hon].
  rewrite validateQuery_errors_unfold in Herr by exact Hon.
  rewrite Hvalid in Herr. destruct Herr.
Qed.

End CommentFacts.

(** X4.  Under an enabled policy every query that contains [--], wherever
    it stands (inside a string literal as well), is invalid, and the
    error list names the pattern [--.*$]. *)
Theorem validateQuery_rejects_line_comment (config : SecurityConfig)
    (query : string) :
  enableQueryValidation config = true ->
  JS.includes query "--" = true ->
  SecurityValidator.isValid (SecurityValidator.validateQuery config query) = false /\
  In "Query contains potentially dangerous pattern: --.*$"
     (SecurityValidator.errors (SecurityValidator.validateQuery config query)).
Proof.
  intros Hon Hdash.
  apply (pattern_reported config query
           {| SecurityValidator.source := "--.*$";
              SecurityValidator.re := SecurityValidator.line_comment |} Hon).
  - cbn. tauto.
  - cbn [SecurityValidator.re]. now rewrite test_line_comment.
Qed.

Lemma validateQuery_rejects_line_comment_witness :
  let config := security DEFAULT_CONFIG in
  let query := "SELECT 'a--b' FROM Customers" in
  SecurityValidator.isValid (SecurityValidator.validateQuery config query) = false /\
  In "Query contains potentially dangerous pattern: --.*$"
     (SecurityValidator.errors (SecurityValidator.validateQuery config query)).
Proof.
  apply (validateQuery_rejects_line_comment (security DEFAULT_CONFIG)
           "SELECT 'a--b' FROM Customers"); reflexivity.
Defined.

(** X5.  Under an enabled policy a query is reported for the pattern
    [\/\*.*\*\/] as soon as it holds a block comment that is opened and
    closed on one line; such a query is invalid. *)
Theorem validateQuery_rejects_block_comment (config : SecurityConfig)
    (before body after : string) :
  enableQueryValidation config = true ->
  single_line body = true ->
  let query := before +:+ "/*" +:+ body +:+ "*/" +:+ after in
  SecurityValidator.isValid (SecurityValidator.validateQuery config query) = false /\
  In ("Query contains potentially dangerous pattern: \/\*.*\*\/")
     (SecurityValidator.errors (SecurityValidator.validateQuery config query)).
Proof.
  intros Hon Hline query.
  apply (pattern_reported config query
           {| SecurityValidator.source := "\/\*.*\*\/";
              SecurityValidator.re :=
                Regex.seq [Regex.lit "/*"; Regex.star Regex.dot; Regex.lit "*/"] |} Hon).
  - cbn. tauto.
  - cbn [SecurityValidator.re]. apply test_block_comment_iff.
    now exists before, body, after.
Qed.

Lemma validateQuery_rejects_block_comment_witness :
  let config := security DEFAULT_CONFIG in
  let query := "SELECT 1 /* all */ FROM Customers" in
  SecurityValidator.isValid (SecurityValidator.validateQuery config query) = false /\
  In ("Query contains potentially dangerous pattern: \/\*.*\*\/")
     (SecurityValidator.errors (SecurityValidator.validateQuery config query)).
Proof.
  apply (validateQuery_rejects_block_comment (security DEFAULT_CONFIG)
           "SELECT 1 " " all " " FROM Customers"); reflexivity.
Defined.

(** X6.  Validation before sanitization, as [handleQuery] does it: a
    query that an enabled policy accepts holds no comment that
    [sanitizeQuery] would remove, so sanitizing it only trims it. *)
Theorem sanitizeQuery_of_valid_query (config : SecurityConfig) (query : string) :
  enableQueryValidation config = true ->
  SecurityValidator.isValid (SecurityValidator.validateQuery config query) = true ->
  SecurityValidator.sanitizeQuery query = JS.trim query.
Proof.
  intros Hon Hvalid.
  apply validateQuery_valid_iff_no_errors_aux in Hvalid; [|exact Hon].
  apply expected_errors_nil in Hvalid as (_ & _ & Hpat & _).
  assert (Hline : Regex.test SecurityValidator.line_comment query = false).
  { apply (Hpat {| SecurityValidator.source := "--.*$";
                   SecurityValidator.re := SecurityValidator.line_comment |}).
    cbn. tauto. }
  assert (Hblock : Regex.test SecurityValidator.block_comment query = false).
  { rewrite test_block_comment.
    apply (Hpat {| SecurityValidator.source := "\/\*.*\*\/";
                   SecurityValidator.re :=
                     Regex.seq [Regex.lit "/*"; Regex.star Regex.dot; Regex.lit "*/"] |}).
    cbn. tauto. }
  unfold SecurityValidator.sanitizeQuery.
  rewrite (replace_all_no_match _ _ _ Hline).
  now rewrite (replace_all_no_match _ _ _ Hblock).
Qed.

Lemma sanitizeQuery_of_valid_query_witness :
  let query := "  SELECT * FROM Customers  " in
  SecurityValidator.sanitizeQuery query = JS.trim query.
Proof.
  apply (sanitizeQuery_of_valid_query (security DEFAULT_CONFIG)
           "  SELECT * FROM Customers  "); reflexivity.
Defined.

(** ** Connection pool registry: one call *)

Section RegistryCalls.
Context {F : Type} `{JsNumber F}.
Variable env : Env.
Variable config : MCPConfig.

Lemma pool_key_make_poolConfig (c : ConnectionConfig) :
  pool_key (make_poolConfig config c) = createConnectionKey c.
Proof. reflexivity. Qed.

(** X7.  One call of [getConnection] touches nothing but its own key:
    the cache entries of all other keys stay, the pool objects already
    created stay where they are (at most one is added), the driver is
    asked to connect at most once, and of the counters neither
    [totalQueries] nor [avgExecutionTime] moves. *)
Theorem getConnection_frame (c : ConnectionConfig) (st : State F) :
  let st' := snd (getConnection env config c st) in
  (forall key, key <> createConnectionKey c ->
               connectionPools st' !! key = connectionPools st !! key) /\
  (heap st' = heap st \/ heap st' = (heap st ++ [fresh_pool config c])%list) /\
  (calls st' = calls st \/
   calls st' = (calls st ++ [Connect (make_poolConfig config c)])%list) /\
  totalQueries (metrics st') = totalQueries (metrics st) /\
  avgExecutionTime (metrics st') = avgExecutionTime (metrics st).
Proof.
  intros st'. pose proof (getConnection_outcome env config c st) as Hout.
  fold st' in Hout. clearbody st'.
  destruct Hout as [pool Hc Hl | Hdead Hconn | e Hdead Hconn];
    cbn [connectionPools heap calls metrics with_metrics with_pools
                         registered refused totalQueries avgExecutionTime
                         inc_cacheHits inc_connectionCount inc_failedQueries].
  - repeat split; auto.
  - repeat split; auto.
    intros key Hkey. rewrite lookup_insert_ne by congruence.
    now rewrite lookup_delete_ne by congruence.
  - repeat split; auto.
    intros key Hkey. now rewrite lookup_delete_ne by congruence.
Qed.

(** X8.  When [getConnection] throws, the driver has refused the
    connection: the error is the [CONNECTION_ERROR] that quotes the
    driver's message and names its error class, the key has no cache
    entry afterwards (a stale one has been deleted), no pool object was
    added, and [failedQueries] has moved by one although no query ran. *)
Theorem getConnection_failure (c : ConnectionConfig) (st st' : State F)
    (e : JsError) :
  getConnection env config c st = (Throw e, st') ->
  exists cause,
    db_connect env (calls st) (make_poolConfig config c) = Some cause /\
    e = MCPError ("Failed to connect to database: " +:+ error_message cause)
          "CONNECTION_ERROR"
          (ConnectionDetails (server c) (port c) (database c) (error_name cause)) /\
    connectionPools st' !! createConnectionKey c = None /\
    heap st' = heap st /\
    calls st' = (calls st ++ [Connect (make_poolConfig config c)])%list /\
    failedQueries (metrics st') = failedQueries (metrics st) + 1.
Proof.
  intros Hrun. pose proof (getConnection_outcome env config c st) as Hout.
  rewrite Hrun in Hout. cbn [fst snd] in Hout.
  inversion Hout as [| | cause Hdead Hconn Hres Hst].
  exists cause. split; [exact Hconn|]. split; [reflexivity|].
  cbn [refused with_pools connectionPools heap calls metrics failedQueries
       inc_failedQueries].
  split; [apply lookup_delete_eq|]. repeat split.
Qed.

Lemma cache_consistent_with_metrics (f : Metrics F -> Metrics F) (st : State F) :
  cache_consistent st -> cache_consistent (with_metrics f st).
Proof. intros Hinv. exact Hinv. Qed.

Lemma cache_consistent_delete (key : string) (st : State F) :
  cache_consistent st -> cache_consistent (with_pools (delete key) st).
Proof.
  intros Hinv k pool. cbn [with_pools connectionPools heap].
  intros Hlook. apply lookup_delete_Some in Hlook as [_ Hlook]. now apply Hinv.
Qed.

Lemma cache_consistent_registered (c : ConnectionConfig) (st : State F) :
  cache_consistent st ->
  cache_consistent (registered config c (createConnectionKey c) st).
Proof.
  intros Hinv key pool. cbn [registered connectionPools heap].
  destruct (decide (key = createConnectionKey c)) as [->|Hne].
  - rewrite lookup_insert_eq. intros [= <-].
    exists (fresh_pool config c). split; [|reflexivity].
    rewrite lookup_app_r by lia. now rewrite Nat.sub_diag.
  - rewrite lookup_insert_ne by congruence. intros Hlook.
    destruct (Hinv key pool Hlook) as (o & Ho & Hk).
    exists o. split; [|exact Hk]. now apply lookup_app_l_Some.
Qed.

Lemma cache_consistent_refused (c : ConnectionConfig) (st : State F) :
  cache_consistent st -> cache_consistent (refused config c st).
Proof. intros Hinv. exact Hinv. Qed.

Lemma cache_consistent_logged (call : DbCall) (st : State F) :
  cache_consistent st -> cache_consistent (logged call st).
Proof. intros Hinv. exact Hinv. Qed.

Lemma getConnection_cache_consistent (c : ConnectionConfig) (st : State F) :
  cache_consistent st ->
  cache_consistent (snd (getConnection env config c st)).
Proof.
  intros Hinv. pose proof (getConnection_outcome env config c st) as Hout.
  inversion Hout as [pool Hc Hl Hres Hst | Hdead Hconn Hres Hst | e Hdead Hconn Hres Hst].
  - now apply cache_consistent_with_metrics.
  - now apply cache_consistent_registered, cache_consistent_delete.
  - now apply cache_consistent_refused, cache_consistent_delete.
Qed.

Lemma drift_cache_consistent (st1 st2 : State F) :
  drift st1 st2 -> cache_consistent st1 -> cache_consistent st2.
Proof.
  intros Hdrift Hinv key pool Hlook.
  destruct Hdrift as [Hpools Hcfg]. rewrite Hpools in Hlook.
  destruct (Hinv key pool Hlook) as (o & Ho & Hk).
  assert (Hlt : (pool < List.length (heap st2))%nat).
  { apply (f_equal (@List.length _)) in Hcfg. rewrite !length_map in Hcfg.
    rewrite Hcfg. eapply lookup_lt_Some; eassumption. }
  destruct (lookup_lt_is_Some_2 _ _ Hlt) as [o2 Ho2].
  exists o2. split; [exact Ho2|].
  now rewrite (drift_poolConfig st1 st2 pool o o2 (conj Hpools Hcfg) Ho Ho2).
Qed.

End RegistryCalls.

Lemma getConnection_failure_witness :
  exists cause st',
    db_connect Toy.env [] (make_poolConfig DEFAULT_CONFIG (Toy.creds "guess"))
    = Some cause /\
    getConnection Toy.env DEFAULT_CONFIG (Toy.creds "guess") Toy.st0
    = (Throw (MCPError "Failed to connect to database: Login failed for user"
                "CONNECTION_ERROR"
                (ConnectionDetails "localhost" 1433 (Some "shop") "ConnectionError")),
       st') /\
    connectionPools st' !! createConnectionKey (Toy.creds "guess") = None /\
    failedQueries (metrics st') = 1.
Proof.
  destruct (getConnection_failure Toy.env DEFAULT_CONFIG (Toy.creds "guess") Toy.st0
              (snd (getConnection Toy.env DEFAULT_CONFIG (Toy.creds "guess") Toy.st0))
              (connection_error (Toy.creds "guess") Toy.login_failed) eq_refl)
    as (cause & Hconn & _ & Hkey & _ & _ & Hfailed).
  exists cause, (snd (getConnection Toy.env DEFAULT_CONFIG (Toy.creds "guess") Toy.st0)).
  split; [exact Hconn|]. split; [reflexivity|].
  split; [exact Hkey | exact Hfailed].
Defined.

(** ** Connection keys *)

Section KeyFacts.

Lemma count_char_append (c : ascii) (a b : string) :
  count_char c (a +:+ b) = (count_char c a + count_char c b)%nat.
Proof.
  induction a as [|x a IH]; [now rewrite append_nil|].
  rewrite append_cons. cbn [count_char]. rewrite IH. lia.
Qed.

(** The decimal text of an integer holds digits and a sign only. *)
Lemma count_char_uint (c : ascii) (d : Decimal.uint) :
  forallb (fun x => negb (Ascii.eqb x c))
    ["0"; "1"; "2"; "3"; "4"; "5"; "6"; "7"; "8"; "9"]%char = true ->
  count_char c (NilEmpty.string_of_uint d) = 0%nat.
Proof.
  intros Hc. cbn [forallb] in Hc. rewrite !andb_true_iff, !negb_true_iff in Hc.
  destruct Hc as (H0 & H1 & H2 & H3 & H4 & H5 & H6 & H7 & H8 & H9 & _).
  induction d as [|d IH|d IH|d IH|d IH|d IH|d IH|d IH|d IH|d IH|d IH];
    cbn [NilEmpty.string_of_uint count_char]; [reflexivity | ..];
    rewrite IH; first [now rewrite H0 | now rewrite H1 | now rewrite H2
                      | now rewrite H3 | now rewrite H4 | now rewrite H5
                      | now rewrite H6 | now rewrite H7 | now rewrite H8
                      | now rewrite H9].
Qed.

Lemma count_char_show (c : ascii) (n : Z) :
  forallb (fun x => negb (Ascii.eqb x c))
    ["0"; "1"; "2"; "3"; "4"; "5"; "6"; "7"; "8"; "9"; "-"]%char = true ->
  count_char c (JS.show n) = 0%nat.
Proof.
  intros Hc.
  assert (Hd : forallb (fun x => negb (Ascii.eqb x c))
                 ["0"; "1"; "2"; "3"; "4"; "5"; "6"; "7"; "8"; "9"]%char = true).
  { cbn [forallb] in *. rewrite !andb_true_iff in *. tauto. }
  assert (Hm : Ascii.eqb "-" c = false).
  { cbn [forallb] in Hc. rewrite !andb_true_iff, !negb_true_iff in Hc. tauto. }
  assert (H0 : Ascii.eqb "0" c = false).
  { cbn [forallb] in Hc. rewrite !andb_true_iff, !negb_true_iff in Hc. tauto. }
  assert (Hu : forall d, count_char c (NilZero.string_of_uint d) = 0%nat).
  { intros d. unfold NilZero.string_of_uint.
    destruct d; try apply (count_char_uint c _ Hd).
    cbn [count_char]. now rewrite H0. }
  unfold JS.show. destruct (Z.to_int n) as [d|d]; cbn [NilZero.string_of_int].
  - apply Hu.
  - cbn [count_char]. now rewrite Hm, Hu.
Qed.

Lemma show_inj (a b : Z) : JS.show a = JS.show b -> a = b.
Proof.
  unfold JS.show. intros Heq. apply DecimalZ.to_int_inj.
  assert (Hn : forall z, Z.to_int z <> Decimal.Pos Decimal.Nil
                         /\ Z.to_int z <> Decimal.Neg Decimal.Nil).
  { intros [|p|p]; cbn; split; try discriminate;
      intros [= Hp]; now apply DecimalPos.Unsigned.to_uint_nonnil in Hp. }
  apply (f_equal NilZero.int_of_string) in Heq.
  rewrite !NilZero.isi in Heq by apply Hn. congruence.
Qed.

(** Two texts cut at their first colon. *)
Lemma split_at_colon (a b x y : string) :
  count_char ":" a = 0%nat ->
  count_char ":" b = 0%nat ->
  a +:+ ":" +:+ x = b +:+ ":" +:+ y ->
  a = b /\ x = y.
Proof.
  assert (Hcolon : forall s, ":" +:+ s = String ":" s) by reflexivity.
  rewrite !Hcolon.
  revert b. induction a as [|p a IH]; intros [|q b] Ha Hb Heq;
    cbn [count_char] in Ha, Hb.
  - change (String ":" x = String ":" y) in Heq. injection Heq as ->. now split.
  - change (String ":" x = String q (b +:+ String ":" y)) in Heq.
    injection Heq as <- _. cbn in Hb. discriminate.
  - change (String p (a +:+ String ":" x) = String ":" y) in Heq.
    injection Heq as -> _. cbn in Ha. discriminate.
  - change (String p (a +:+ String ":" x) = String q (b +:+ String ":" y)) in Heq.
    injection Heq as -> Heq.
    destruct (Ascii.eqb q ":"); [discriminate|].
    destruct (IH b Ha Hb Heq) as [-> ->]. now split.
Qed.

End KeyFacts.

(** X9.  As long as server names and user names hold no colon, the
    connection key is unambiguous: two configurations with the same key
    have the same server, port and user, and the same database once an
    absent or empty database name is read as ["default"]. *)
Theorem createConnectionKey_injective (c1 c2 : ConnectionConfig) :
  count_char ":" (server c1) = 0%nat ->
  count_char ":" (user c1) = 0%nat ->
  count_char ":" (server c2) = 0%nat ->
  count_char ":" (user c2) = 0%nat ->
  createConnectionKey c1 = createConnectionKey c2 ->
  server c1 = server c2 /\ port c1 = port c2 /\ user c1 = user c2 /\
  database_or_default c1 = database_or_default c2.
Proof.
  intros Hs1 Hu1 Hs2 Hu2. unfold createConnectionKey. intros Hkey.
  apply split_at_colon in Hkey as [Hserver Hkey]; [|assumption..].
  apply split_at_colon in Hkey as [Hport Hkey];
    [|now apply count_char_show..].
  apply split_at_colon in Hkey as [Huser Hdb]; [|assumption..].
  apply show_inj in Hport. now repeat split.
Qed.

Lemma createConnectionKey_injective_witness :
  let c1 := Toy.creds "secret" in
  let c2 := {| server := "localhost"; port := 1433; user := "sa";
               password := "guess"; database := Some "shop";
               encrypt := false; trustServerCertificate := false |} in
  server c1 = server c2 /\ port c1 = port c2 /\ user c1 = user c2 /\
  database_or_default c1 = database_or_default c2.
Proof.
  apply (createConnectionKey_injective (Toy.creds "secret")
           {| server := "localhost"; port := 1433; user := "sa";
              password := "guess"; database := Some "shop";
              encrypt := false; trustServerCertificate := false |});
    reflexivity.
Defined.

(** Without the proviso the key is ambiguous: a colon moves between the
    user name and the database name. *)
Example createConnectionKey_colon_collision :
  let c1 := {| server := "db1"; port := 1433; user := "app:eu";
               password := "p1"; database := Some "sales";
               encrypt := true; trustServerCertificate := true |} in
  let c2 := {| server := "db1"; port := 1433; user := "app";
               password := "p2"; database := Some "eu:sales";
               encrypt := true; trustServerCertificate := true |} in
  createConnectionKey c1 = createConnectionKey c2 /\ user c1 <> user c2.
Proof. split; [reflexivity | discriminate]. Qed.

(** ** Query executor: the failures after validation *)

Section QueryFailures.
Context {F : Type} `{JsNumber F}.
Variable env : Env.
Variable config : MCPConfig.

(** X10.  A call whose query is accepted but whose connection the driver
    refuses throws the [CONNECTION_ERROR] of the registry, sends no
    query, and is counted twice in [failedQueries]: once by
    [getConnection] and once by the [catch] of [handleQuery] itself. *)
Theorem handleQuery_connection_failure (clock : Clock) (args : QueryArgs)
    (c : ConnectionConfig) (cause : JsError) (st : State F) :
  ConnectionSchema_parse (q_connection args) = Some c ->
  SecurityValidator.isValid
    (SecurityValidator.validateQuery (security config) (q_query args)) = true ->
  cached_live st (createConnectionKey c) = false ->
  db_connect env (calls st) (make_poolConfig config c) = Some cause ->
  exists st',
    handleQuery env config clock args st
    = (Throw (connection_error c cause), st') /\
    calls st' = (calls st ++ [Connect (make_poolConfig config c)])%list /\
    totalQueries (metrics st') = totalQueries (metrics st) + 1 /\
    failedQueries (metrics st') = failedQueries (metrics st) + 2 /\
    avgExecutionTime (metrics st') = avgExecutionTime (metrics st).
Proof.
  intros Hparse Hvalid Hdead Hconn.
  assert (Hget : getConnection env config c (with_metrics inc_totalQueries st)
                 = (Throw (connection_error c cause),
                    refused config c
                      (with_pools (delete (createConnectionKey c))
                         (with_metrics inc_totalQueries st)))).
  { unfold cached_live in Hdead.
    destruct (connectionPools st !! createConnectionKey c) as [pool|] eqn:Hcached.
    - rewrite (getConnection_stale env config c _ pool) by assumption.
      now apply connect_and_register_fail.
    - rewrite (getConnection_absent env config c) by assumption.
      rewrite <- (delete_absent (createConnectionKey c)
                    (with_metrics inc_totalQueries st)) at 1 by assumption.
      now apply connect_and_register_fail. }
  unfold handleQuery, bind, try_catch, modify, throw, parse_connection.
  rewrite Hparse. unfold ret. rewrite Hvalid. cbn [negb]. rewrite Hget.
  eexists. split; [reflexivity|]. cbn. repeat split; lia.
Qed.

(** X11.  A statement that the database executes without producing a
    result set (an [INSERT], [UPDATE] or [DELETE]: [recordset] is
    undefined) makes [handleQuery] fail after the fact: the statement has
    been sent and has run, the average has been updated, and then reading
    [recordset.length] throws a [TypeError], which the [catch] counts in
    [failedQueries]. *)
Theorem handleQuery_no_result_set (clock : Clock) (args : QueryArgs)
    (c : ConnectionConfig) (pool : nat) (result : QueryResult) (st st1 : State F) :
  ConnectionSchema_parse (q_connection args) = Some c ->
  SecurityValidator.isValid
    (SecurityValidator.validateQuery (security config) (q_query args)) = true ->
  getConnection env config c (with_metrics inc_totalQueries st) = (Ok pool, st1) ->
  db_query env (calls st1) pool (query_text config c args) [] = Resolved result ->
  recordset result = None ->
  exists st',
    handleQuery env config clock args st
    = (Throw (Error "TypeError"
                "Cannot read properties of undefined (reading 'length')"), st') /\
    calls st' = (calls st1 ++ [Query pool (query_text config c args) []])%list /\
    failedQueries (metrics st') = failedQueries (metrics st) + 1 /\
    avgExecutionTime (metrics st')
    = num_div (num_add (avgExecutionTime (metrics st))
                       (num_of_int (metricsTime clock - startTime clock)))
              (num_of_int (totalQueries (metrics st) + 1)).
Proof.
  intros Hparse Hvalid Hget Hreply Hnone.
  destruct (getConnection_metrics env config c _ _ _ Hget) as (Htotal & Havg & Hfailed).
  metrics_simpl in Htotal. metrics_simpl in Havg. metrics_simpl in Hfailed.
  unfold handleQuery, bind, try_catch, modify, throw, parse_connection.
  rewrite Hparse. unfold ret. rewrite Hvalid. cbn [negb]. rewrite Hget.
  unfold run_query. unfold query_text in Hreply. rewrite Hreply, Hnone.
  eexists. split; [reflexivity|]. metrics_simpl.
  split; [reflexivity|]. split; [lia|]. now rewrite Havg, Htotal.
Qed.

End QueryFailures.

Lemma handleQuery_connection_failure_witness :
  exists st',
    handleQuery Toy.env DEFAULT_CONFIG Toy.clock toy_wrong_password Toy.st0
    = (Throw (connection_error (Toy.creds "guess") Toy.login_failed), st') /\
    calls st' = [Connect (make_poolConfig DEFAULT_CONFIG (Toy.creds "guess"))] /\
    totalQueries (metrics st') = 1 /\
    failedQueries (metrics st') = 2 /\
    avgExecutionTime (metrics st') = 0%Q.
Proof.
  apply (handleQuery_connection_failure Toy.env DEFAULT_CONFIG Toy.clock
           toy_wrong_password (Toy.creds "guess") Toy.login_failed Toy.st0);
    reflexivity.
Defined.

Lemma handleQuery_no_result_set_witness :
  exists st',
    handleQuery Toy.env DEFAULT_CONFIG Toy.clock toy_insert Toy.st0
    = (Throw (Error "TypeError"
                "Cannot read properties of undefined (reading 'length')"), st') /\
    calls st'
    = [Connect (make_poolConfig DEFAULT_CONFIG (Toy.creds "secret"));
       Query 0 "USE [shop]; INSERT INTO Customers (CustomerID) VALUES ('C8')" []] /\
    failedQueries (metrics st') = 1 /\
    avgExecutionTime (metrics st') = Qdiv (Qplus 0 (inject_Z 20)) (inject_Z 1).
Proof.
  destruct (handleQuery_no_result_set Toy.env DEFAULT_CONFIG Toy.clock toy_insert
              (Toy.creds "secret") 0%nat
              {| recordset := None; rowsAffected := [1] |} Toy.st0
              (snd (getConnection Toy.env DEFAULT_CONFIG (Toy.creds "secret")
                      (with_metrics inc_totalQueries Toy.st0))))
    as (st' & Hrun & Hcalls & Hfailed & Havg); try reflexivity.
  exists st'. split; [exact Hrun|]. split; [|split; [exact Hfailed | exact Havg]].
  rewrite Hcalls. vm_compute. reflexivity.
Defined.

(** ** Bulk-insert engine: any number of rows *)

Section BatchFacts.
Context {A : Type}.

Lemma batches_of_nil (fuel : nat) : batches_of fuel (@nil A) = [].
Proof. now destruct fuel. Qed.




End BatchFacts.

Section BulkInsertLoop.
Context {F : Type} `{JsNumber F}.
Variable env : Env.
Variable config : MCPConfig.






(** Queries change the log only. *)
Lemma run_query_frame {pool text params} {st st' : State F} {r} :
  run_query env pool text params st = (r, st') ->
  connectionPools st' = connectionPools st /\ metrics st' = metrics st /\
  heap st' = heap st.
Proof.
  unfold run_query. destruct (db_query env _ _ _ _); intros [= <- <-]; now cbn.
Qed.

End BulkInsertLoop.

Section BulkInsertAnySize.
Context {F : Type} `{JsNumber F}.
Variable env : Env.
Variable config : MCPConfig.




(** X15.  Of the error codes written in [handleBulkInsert] only two can
    reach a caller: every error the handler throws is the schema error of
    the connection fields, the [INVALID_DATA] error, or a
    [BULK_INSERT_ERROR] wrapped around the message of what went wrong;
    [TABLE_NOT_FOUND], [INVALID_COLUMNS] and the registry's
    [CONNECTION_ERROR] never leave it. *)
Theorem handleBulkInsert_error_codes (args : BulkInsertArgs) (st st' : State F)
    (e : JsError) :
  handleBulkInsert env config args st = (Throw e, st') ->
  e = Error "ZodError" (zod_message env (b_connection args)) \/
  e = MCPError "Data must be a non-empty array" "INVALID_DATA" NoDetails \/
  exists cause data,
    b_data args = Some data /\
    e = MCPError ("Bulk insert failed: " +:+ error_message cause)
          "BULK_INSERT_ERROR"
          (BulkInsertDetails (b_table args) (Z.of_nat (List.length data))).
Proof.
  unfold handleBulkInsert, parse_connection. unfold bind at 1.
  destruct (ConnectionSchema_parse (b_connection args)) as [c|].
  2:{ unfold throw. intros [= <- <-]. now left. }
  unfold ret at 1.
  destruct (b_data args) as [[|firstRow rest]|] eqn:Hdata.
  - unfold throw. intros [= <- <-]. right. now left.
  - unfold try_catch.
    destruct (bind _ _ st) as [[report|cause] st1].
    + discriminate.
    + unfold throw. intros [= <- <-]. right. right.
      exists cause, (firstRow :: rest). split; reflexivity.
  - unfold throw. intros [= <- <-]. right. now left.
Qed.

End BulkInsertAnySize.



Lemma handleBulkInsert_error_codes_witness :
  let e := MCPError
             "Bulk insert failed: Invalid columns: Bogus. Valid columns: CustomerID, CompanyName, Country"
             "BULK_INSERT_ERROR" (BulkInsertDetails "Customers" 2) in
  fst (handleBulkInsert Toy.env DEFAULT_CONFIG toy_bad_rows Toy.st0) = Throw e /\
  (e = Error "ZodError" (zod_message Toy.env (b_connection toy_bad_rows)) \/
   e = MCPError "Data must be a non-empty array" "INVALID_DATA" NoDetails \/
   exists cause data,
     b_data toy_bad_rows = Some data /\
     e = MCPError ("Bulk insert failed: " +:+ error_message cause)
           "BULK_INSERT_ERROR"
           (BulkInsertDetails (b_table toy_bad_rows) (Z.of_nat (List.length data)))).
Proof.
  split; [vm_compute; reflexivity|].
  apply (handleBulkInsert_error_codes Toy.env DEFAULT_CONFIG toy_bad_rows Toy.st0
           (snd (handleBulkInsert Toy.env DEFAULT_CONFIG toy_bad_rows Toy.st0))).
  vm_compute. reflexivity.
Defined.

(** ** Bulk-insert engine: placeholders and inputs *)

Section Placeholders.

Lemma append_empty_r (s : string) : s +:+ "" = s.
Proof.
  induction s as [|c s IH]; [reflexivity|]. now rewrite append_cons, IH.
Qed.

Lemma substring_prefix (pre rest : string) :
  substring 0 (String.length pre) (pre +:+ rest) = pre.
Proof.
  induction pre as [|c pre IH].
  - rewrite append_nil. now destruct rest.
  - rewrite append_cons. cbn [String.length substring]. now rewrite IH.
Qed.

Lemma append_snoc (pre : string) (c : ascii) (rest : string) :
  pre +:+ String c rest = (pre +:+ String c "") +:+ rest.
Proof. now rewrite append_assoc, append_cons, append_nil. Qed.

(** The callback of [replace] recounts the question marks before each
    match; a running counter gives the same text. *)
Lemma name_placeholders_number_from (pre rest : string) :
  name_placeholders (pre +:+ rest) (String.length pre) rest
  = number_from (count_char "?" pre) rest.
Proof.
  revert pre. induction rest as [|c rest IH]; intros pre; [reflexivity|].
  cbn [name_placeholders number_from].
  rewrite substring_prefix.
  rewrite (append_snoc pre c rest).
  replace (S (String.length pre)) with (String.length (pre +:+ String c ""))
    by (rewrite length_append; cbn; lia).
  rewrite IH. rewrite count_char_append. cbn [count_char].
  destruct (Ascii.eqb c "?").
  - now replace (count_char "?" pre + (1 + 0))%nat with (S (count_char "?" pre)) by lia.
  - now replace (count_char "?" pre + (0 + 0))%nat with (count_char "?" pre) by lia.
Qed.

Lemma number_from_append (n : nat) (a b : string) :
  number_from n (a +:+ b)
  = number_from n a +:+ number_from (n + count_char "?" a) b.
Proof.
  revert n. induction a as [|c a IH]; intros n.
  - cbn [count_char number_from]. rewrite !append_nil.
    now rewrite Nat.add_0_r.
  - rewrite append_cons. cbn [number_from count_char].
    destruct (Ascii.eqb c "?").
    + replace (n + (1 + count_char "?" a))%nat with (S n + count_char "?" a)%nat by lia.
      now rewrite IH, !append_assoc.
    + now rewrite IH, append_cons.
Qed.

Lemma number_from_plain (n : nat) (a : string) :
  count_char "?" a = 0%nat -> number_from n a = a.
Proof.
  induction a as [|c a IH]; [reflexivity|]. cbn [count_char number_from].
  destruct (Ascii.eqb c "?"); [discriminate|]. intros Ha. now rewrite IH.
Qed.

Lemma join_cons2 (sep x y : string) (l : list string) :
  JS.join sep (x :: y :: l) = x +:+ sep +:+ JS.join sep (y :: l).
Proof. reflexivity. Qed.

Lemma count_char_join (c : ascii) (sep : string) (l : list string) :
  count_char c sep = 0%nat ->
  Forall (fun s => count_char c s = 0%nat) l ->
  count_char c (JS.join sep l) = 0%nat.
Proof.
  intros Hsep Hl. induction Hl as [|x l Hx Hl IH]; [reflexivity|].
  destruct l as [|y l]; [exact Hx|].
  rewrite join_cons2, !count_char_append, Hx, Hsep, IH. reflexivity.
Qed.

Lemma number_from_sep (n : nat) (s : string) :
  number_from n (", " +:+ s) = ", " +:+ number_from n s.
Proof. reflexivity. Qed.

(** Numbering a list of pieces that hold [k] question marks each. *)
Lemma number_from_join (k : nat) (piece : string) (named : nat -> string)
    (rows : nat) (n : nat) :
  count_char "?" piece = k ->
  (forall m, number_from m piece = named m) ->
  number_from n (JS.join ", " (repeat piece rows))
  = JS.join ", " (map (fun r => named (n + r * k)%nat) (seq 0 rows)).
Proof.
  intros Hk Hnamed. revert n. induction rows as [|rows IH]; intros n; [reflexivity|].
  destruct rows as [|rows].
  - cbn [repeat seq map JS.join String.concat]. rewrite Hnamed.
    now replace (n + 0 * k)%nat with n by lia.
  - change (repeat piece (S (S rows))) with (piece :: piece :: repeat piece rows).
    change (piece :: repeat piece rows) with (repeat piece (S rows)).
    change (JS.join ", " (piece :: repeat piece (S rows)))
      with (piece +:+ ", " +:+ JS.join ", " (repeat piece (S rows))).
    rewrite number_from_append, Hnamed, Hk, number_from_sep, (IH (n + k)%nat).
    change (seq 0 (S (S rows))) with (0%nat :: seq 1 (S rows)).
    rewrite <- (seq_shift (S rows) 0). rewrite map_cons, map_map.
    replace (n + 0 * k)%nat with n by lia.
    change (seq 0 (S rows)) with (0%nat :: seq 1 rows).
    rewrite !map_cons, !join_cons2.
    replace (n + k + 0 * k)%nat with (n + 1 * k)%nat by lia.
    rewrite (map_ext (fun r => named (n + k + r * k)%nat)
               (fun x => named (n + S x * k)%nat)); [reflexivity|].
    intros r. f_equal. lia.
Qed.

Lemma number_from_skip (n : nat) (a rest : string) :
  count_char "?" a = 0%nat ->
  number_from n (a +:+ rest) = a +:+ number_from n rest.
Proof.
  intros Ha. rewrite number_from_append, Ha, Nat.add_0_r.
  now rewrite number_from_plain.
Qed.

Lemma count_char_marks (k : nat) :
  count_char "?" (JS.join ", " (repeat "?" k)) = k.
Proof.
  induction k as [|k IH]; [reflexivity|].
  destruct k as [|k]; [reflexivity|].
  change (repeat "?" (S (S k))) with ("?" :: "?" :: repeat "?" k).
  rewrite join_cons2. change ("?" :: repeat "?" k) with (repeat "?" (S k)).
  rewrite !count_char_append, IH. reflexivity.
Qed.

Lemma map_const_repeat {A B} (b : B) (l : list A) :
  map (fun _ => b) l = repeat b (List.length l).
Proof. induction l as [|x l IH]; [reflexivity|]. cbn. now rewrite IH. Qed.

(** The tuple [(?, ..., ?)] of one row, numbered from [first] on. *)
Lemma number_from_tuple (cols first : nat) :
  number_from first ("(" +:+ JS.join ", " (repeat "?" cols) +:+ ")")
  = placeholder_row cols first.
Proof.
  unfold placeholder_row.
  rewrite number_from_skip by reflexivity.
  rewrite number_from_append, count_char_marks.
  rewrite (number_from_join 1 "?" (fun m => "@param" +:+ JS.show (Z.of_nat m)))
    by (try reflexivity; intros m; cbn [number_from];
        change (Ascii.eqb "?" "?") with true; cbv iota;
        now rewrite append_empty_r).
  rewrite (map_ext (fun r => "@param" +:+ JS.show (Z.of_nat (first + r * 1)))
             (fun k => "@param" +:+ JS.show (Z.of_nat (first + k))))
    by (intros r; now rewrite Nat.mul_1_r).
  reflexivity.
Qed.

Lemma count_char_tuple (cols : nat) :
  count_char "?" ("(" +:+ JS.join ", " (repeat "?" cols) +:+ ")") = cols.
Proof.
  rewrite !count_char_append, count_char_marks. cbn. lia.
Qed.

Lemma imap_names {A} (name : nat -> string) (l : list A) :
  map fst (imap (fun index value => (name index, value)) l)
  = map name (seq 0 (List.length l)).
Proof.
  revert name. induction l as [|x l IH]; intros name; [reflexivity|].
  cbn [imap map fst List.length seq]. f_equal.
  rewrite <- seq_shift, map_map. apply (IH (fun i => name (S i))).
Qed.

Lemma imap_values {A} (name : nat -> string) (l : list A) :
  map snd (imap (fun index value => (name index, value)) l) = l.
Proof.
  revert name. induction l as [|x l IH]; intros name; [reflexivity|].
  cbn [imap map snd]. f_equal. apply (IH (fun i => name (S i))).
Qed.

End Placeholders.

(** What a row answers for a key it does not own. *)
Lemma get_missing (row : Row) (col : string) :
  ~ In col (keys row) ->
  get row col = if inherited col then JInherited col else JUndefined.
Proof.
  induction row as [|[k v] row IH]; intros Hmissing; [reflexivity|].
  cbn [get]. cbn [keys map fst In] in Hmissing.
  destruct (String.eqb_spec k col) as [->|Hne]; [tauto|].
  apply IH. unfold keys. tauto.
Qed.

(** X16.  As long as the database name, the table name and the keys of
    the first row hold no question mark, the statement of a batch and its
    inputs fit together: the tuple written for row [r] reads
    [(@param r*c, ..., @param r*c + c - 1)] for [c] columns, and the
    inputs are named [param0], [param1], ... in the same row-after-row
    order, each carrying what [row[col]] gives: the row's own value
    under the column; for a row without that key, the value every plain
    object inherits from [Object.prototype] when the column bears such a
    name ([constructor], [toString], ...), and undefined otherwise. *)
Theorem insert_request_binds_placeholders (c : ConnectionConfig) (table : string)
    (dataColumns : list string) (batch : list Row) :
  count_char "?" (show_optional (database c)) = 0%nat ->
  count_char "?" table = 0%nat ->
  Forall (fun col => count_char "?" col = 0%nat) dataColumns ->
  insert_text c table dataColumns batch
  = insert_query (show_optional (database c)) table (JS.join ", " dataColumns)
      (placeholder_rows (List.length dataColumns) (List.length batch)) /\
  map fst (insert_inputs c table dataColumns batch)
  = map (fun index => "param" +:+ JS.show (Z.of_nat index))
      (seq 0 (List.length batch * List.length dataColumns)) /\
  map snd (insert_inputs c table dataColumns batch)
  = flat_map (fun row => map (fun col => get row col) dataColumns) batch /\
  (forall row col,
     ~ In col (keys row) ->
     get row col = if inherited col then JInherited col else JUndefined).
Proof.
  intros Hdb Htable Hcols.
  assert (Hjoin : count_char "?" (JS.join ", " dataColumns) = 0%nat)
    by now apply count_char_join.
  split; [|split; [|split; [|exact get_missing]]].
  - unfold insert_text, insert_request. cbn [fst].
    match goal with
    | |- name_placeholders ?q 0 ?q = _ =>
        change (name_placeholders q 0 q)
          with (name_placeholders ("" +:+ q) (String.length "") q);
        rewrite (name_placeholders_number_from "" q)
    end.
    cbn [count_char].
    rewrite !map_const_repeat. unfold insert_query.
    do 12 (rewrite number_from_skip by (first [reflexivity | assumption])).
    rewrite number_from_append.
    rewrite (number_from_join (List.length dataColumns) _
               (placeholder_row (List.length dataColumns)))
      by (first [apply count_char_tuple | apply number_from_tuple]).
    rewrite number_from_plain by reflexivity.
    reflexivity.
  - unfold insert_inputs, insert_request. cbn [snd].
    rewrite imap_names. f_equal. f_equal.
    induction batch as [|row batch IH]; [reflexivity|].
    cbn [flat_map List.length]. rewrite length_app, length_map, IH. lia.
  - unfold insert_inputs, insert_request. cbn [snd]. apply imap_values.
Qed.

Lemma insert_request_binds_placeholders_witness :
  let c := Toy.creds "secret" in
  let dataColumns := ["CustomerID"; "Country"; "constructor"] in
  let batch := [[("CustomerID", JStr "C8"); ("Country", JStr "Peru");
                 ("constructor", JStr "ACME")];
                [("CustomerID", JStr "C9")]] in
  insert_text c "Customers" dataColumns batch
  = insert_query "shop" "Customers" "CustomerID, Country, constructor"
      "(@param0, @param1, @param2), (@param3, @param4, @param5)" /\
  map fst (insert_inputs c "Customers" dataColumns batch)
  = ["param0"; "param1"; "param2"; "param3"; "param4"; "param5"] /\
  map snd (insert_inputs c "Customers" dataColumns batch)
  = [JStr "C8"; JStr "Peru"; JStr "ACME";
     JStr "C9"; JUndefined; JInherited "constructor"] /\
  (forall row col,
     ~ In col (keys row) ->
     get row col = if inherited col then JInherited col else JUndefined).
Proof.
  apply (insert_request_binds_placeholders (Toy.creds "secret") "Customers"
           ["CustomerID"; "Country"; "constructor"]
           [[("CustomerID", JStr "C8"); ("Country", JStr "Peru");
             ("constructor", JStr "ACME")];
            [("CustomerID", JStr "C9")]]).
  - reflexivity.
  - reflexivity.
  - repeat constructor.
Defined.

(** Where a key of the first row holds a question mark the numbering
    slips: the mark inside the column list takes [@param0], and the
    first value is written [@param1] while its input is named [param0]. *)
Example question_mark_in_a_column_name :
  let batch := [[("why?", JNum 1)]] in
  insert_text (Toy.creds "secret") "Customers" ["why?"] batch
  = insert_query "shop" "Customers" "why@param0" "(@param1)" /\
  map fst (insert_inputs (Toy.creds "secret") "Customers" ["why?"] batch)
  = ["param0"].
Proof. vm_compute. split; reflexivity. Qed.

(** ** Query executor: what it can throw *)

Section QueryErrors.
Context {F : Type} `{JsNumber F}.
Variable env : Env.
Variable config : MCPConfig.


End QueryErrors.


(** ** Security validator: the other dangerous patterns *)

Section PatternFacts.
Import Regex SecurityValidator.

Lemma all_space_all_chars (s : string) : all_space s = all_chars JS.is_space s.
Proof. induction s as [|c s IH]; [reflexivity|]. cbn. now rewrite IH. Qed.

Lemma single_line_all_chars (s : string) :
  single_line s = all_chars (fun c => negb (JS.is_line_terminator c)) s.
Proof. induction s as [|c s IH]; [reflexivity|]. cbn. now rewrite IH. Qed.

(** A greedy star over a character class gets past a run of characters
    of the class whenever the rest of the pattern matches after it. *)
Lemma star_chr_reaches (p : ascii -> bool) (k : string -> option string)
    (prefix t : string) (fuel : nat) :
  all_chars p prefix = true ->
  k t <> None ->
  (String.length (prefix +:+ t) < fuel)%nat ->
  star_loop (run (Chr p)) true k fuel (prefix +:+ t) <> None.
Proof.
  revert fuel. induction prefix as [|c prefix IH]; intros fuel Hall Hk Hfuel;
    (destruct fuel as [|fuel]; [lia|]); cbn [star_loop].
  - rewrite append_nil.
    match goal with
    | |- match ?x with _ => _ end <> None => destruct x; [|exact Hk]
    end.
    discriminate.
  - cbn [all_chars] in Hall. apply andb_prop in Hall as [Hc Hall].
    rewrite append_cons in *.
    change (run (Chr p) (String c (prefix +:+ t)) ?more)
      with (if p c then more (prefix +:+ t) else None).
    rewrite Hc.
    cbn [String.length] in *. rewrite (proj2 (Nat.ltb_lt _ _)) by lia.
    specialize (IH fuel Hall Hk ltac:(lia)).
    destruct (star_loop (run (Chr p)) true k fuel (prefix +:+ t));
      [|congruence].
    discriminate.
Qed.

Lemma run_star_chr (p : ascii -> bool) (k : string -> option string)
    (prefix t : string) :
  all_chars p prefix = true ->
  k t <> None ->
  run (Star true (Chr p)) (prefix +:+ t) k <> None.
Proof.
  intros Hall Hk. cbn [run]. apply star_chr_reaches; [assumption..|lia].
Qed.

Lemma run_plus_chr (p : ascii -> bool) (k : string -> option string)
    (c : ascii) (prefix t : string) :
  p c = true ->
  all_chars p prefix = true ->
  k t <> None ->
  run (plus (Chr p)) (String c (prefix +:+ t)) k <> None.
Proof.
  intros Hc Hall Hk. unfold plus.
  change (run (Seq (Chr p) (Star true (Chr p))) ?s k)
    with (run (Chr p) s (fun s' => run (Star true (Chr p)) s' k)).
  cbn [run]. rewrite Hc. now apply star_chr_reaches; [..|lia].
Qed.

Lemma run_alt_l (r1 r2 : regex) (s : string) (k : string -> option string) :
  run r1 s k <> None -> run (Alt r1 r2) s k <> None.
Proof. cbn [run]. destruct (run r1 s k); congruence. Qed.

Lemma run_alt_r (r1 r2 : regex) (s : string) (k : string -> option string) :
  run r2 s k <> None -> run (Alt r1 r2) s k <> None.
Proof. cbn [run]. destruct (run r1 s k); congruence. Qed.

Lemma test_at (r : regex) (before s : string) :
  exec r s <> None -> test r (before +:+ s) = true.
Proof. intros Hx. apply test_exec. now exists before, s. Qed.

(** [/xp_[\w]+/i] and [/sp_[\w]+/i] *)
Lemma exec_procedure (name prefix after : string) (c : ascii) :
  JS.toLowerCase prefix = JS.toLowerCase name ->
  JS.is_word c = true ->
  exec (seq [lit_i name; plus word]) (prefix +:+ String c after) <> None.
Proof.
  intros Hprefix Hc. unfold exec. cbn [seq].
  change (run (Seq (lit_i name) (plus word)) ?s Some)
    with (run (lit_i name) s (fun s' => run (plus word) s' Some)).
  rewrite run_lit_i by exact Hprefix.
  rewrite <- (append_nil after). now apply run_plus_chr.
Qed.

(** [/;\s*(drop|truncate|alter)\s+/i] *)
Lemma exec_stacked_statement (spaces keyword after : string) (w : ascii) :
  all_space spaces = true ->
  In (JS.toLowerCase keyword) ["drop"; "truncate"; "alter"] ->
  JS.is_space w = true ->
  exec (seq [chr ";"; star ws;
             Alt (lit_i "drop") (Alt (lit_i "truncate") (lit_i "alter"));
             plus ws])
    (";" +:+ spaces +:+ keyword +:+ String w after) <> None.
Proof.
  intros Hspaces Hkeyword Hw. unfold exec. cbn [seq].
  set (alternatives := Alt (lit_i "drop") (Alt (lit_i "truncate") (lit_i "alter"))).
  change (run (Seq (chr ";") (Seq (star ws) (Seq alternatives (plus ws)))) ?s Some)
    with (run (chr ";") s
            (fun s1 => run (Star true (Chr JS.is_space)) s1
               (fun s2 => run alternatives s2 (fun s3 => run (plus ws) s3 Some)))).
  change (";" +:+ ?s) with (String ";" s). cbn [run chr].
  change (Ascii.eqb ";" ";") with true. cbv iota.
  apply run_star_chr; [now rewrite <- all_space_all_chars|].
  assert (Htail : run (plus ws) (String w after) Some <> None).
  { rewrite <- (append_nil after). now apply run_plus_chr. }
  subst alternatives.
  destruct Hkeyword as [Hk | [Hk | [Hk | []]]]; symmetry in Hk.
  - apply run_alt_l. now rewrite run_lit_i.
  - apply run_alt_r, run_alt_l. now rewrite run_lit_i.
  - apply run_alt_r, run_alt_r. now rewrite run_lit_i.
Qed.

(** [/union\s+.*select/i] *)
Lemma exec_union_select (union spaces middle select after : string) (w : ascii) :
  JS.toLowerCase union = "union" ->
  JS.is_space w = true ->
  all_space spaces = true ->
  single_line middle = true ->
  JS.toLowerCase select = "select" ->
  exec (seq [lit_i "union"; plus ws; star dot; lit_i "select"])
    (union +:+ String w (spaces +:+ middle +:+ select +:+ after)) <> None.
Proof.
  intros Hunion Hw Hspaces Hmiddle Hselect. unfold exec. cbn [seq].
  change (run (Seq (lit_i "union") (Seq (plus ws) (Seq (star dot) (lit_i "select"))))
            ?s Some)
    with (run (lit_i "union") s
            (fun s1 => run (plus ws) s1
               (fun s2 => run (Star true dot) s2
                  (fun s3 => run (lit_i "select") s3 Some)))).
  rewrite run_lit_i by exact Hunion.
  apply run_plus_chr; [exact Hw | now rewrite <- all_space_all_chars |].
  apply run_star_chr; [now rewrite <- single_line_all_chars|].
  now rewrite run_lit_i.
Qed.

End PatternFacts.

(** X25.  Under an enabled policy every query in which [xp_] or [sp_],
    in any letter case, is followed by a letter, digit or underscore is
    invalid, wherever this stands: inside an identifier such as
    [wasp_nest] as well.  The error list names the pattern. *)
Theorem validateQuery_rejects_procedure_prefix (config : SecurityConfig)
    (before prefix after : string) (c : ascii) :
  enableQueryValidation config = true ->
  JS.toLowerCase prefix = "xp_" \/ JS.toLowerCase prefix = "sp_" ->
  JS.is_word c = true ->
  let query := before +:+ prefix +:+ String c after in
  SecurityValidator.isValid (SecurityValidator.validateQuery config query) = false /\
  In ("Query contains potentially dangerous pattern: "
        +:+ JS.toLowerCase prefix +:+ "[\w]+")
     (SecurityValidator.errors (SecurityValidator.validateQuery config query)).
Proof.
  intros Hon [Hprefix | Hprefix] Hc query; rewrite Hprefix.
  - apply (pattern_reported config query
             {| SecurityValidator.source := "xp_[\w]+";
                SecurityValidator.re :=
                  Regex.seq [Regex.lit_i "xp_"; Regex.plus Regex.word] |} Hon).
    + cbn. tauto.
    + cbn [SecurityValidator.re]. apply test_at. now apply exec_procedure.
  - apply (pattern_reported config query
             {| SecurityValidator.source := "sp_[\w]+";
                SecurityValidator.re :=
                  Regex.seq [Regex.lit_i "sp_"; Regex.plus Regex.word] |} Hon).
    + cbn. tauto.
    + cbn [SecurityValidator.re]. apply test_at. now apply exec_procedure.
Qed.

Lemma validateQuery_rejects_procedure_prefix_witness :
  let config := security DEFAULT_CONFIG in
  let query := "SELECT * FROM wasp_nest" in
  SecurityValidator.isValid (SecurityValidator.validateQuery config query) = false /\
  In "Query contains potentially dangerous pattern: sp_[\w]+"
     (SecurityValidator.errors (SecurityValidator.validateQuery config query)).
Proof.
  apply (validateQuery_rejects_procedure_prefix (security DEFAULT_CONFIG)
           "SELECT * FROM wa" "sp_" "est" "n").
  - reflexivity.
  - now right.
  - reflexivity.
Defined.

(** X26.  Under an enabled policy a query is invalid as soon as a
    semicolon is followed, after any whitespace, by [drop], [truncate] or
    [alter] in any letter case and one whitespace character. *)
Theorem validateQuery_rejects_stacked_statement (config : SecurityConfig)
    (before spaces keyword after : string) (w : ascii) :
  enableQueryValidation config = true ->
  all_space spaces = true ->
  In (JS.toLowerCase keyword) ["drop"; "truncate"; "alter"] ->
  JS.is_space w = true ->
  let query := before +:+ ";" +:+ spaces +:+ keyword +:+ String w after in
  SecurityValidator.isValid (SecurityValidator.validateQuery config query) = false /\
  In "Query contains potentially dangerous pattern: ;\s*(drop|truncate|alter)\s+"
     (SecurityValidator.errors (SecurityValidator.validateQuery config query)).
Proof.
  intros Hon Hspaces Hkeyword Hw query.
  apply (pattern_reported config query
           {| SecurityValidator.source := ";\s*(drop|truncate|alter)\s+";
              SecurityValidator.re :=
                Regex.seq [Regex.chr ";"; Regex.star Regex.ws;
                           Regex.Alt (Regex.lit_i "drop")
                             (Regex.Alt (Regex.lit_i "truncate") (Regex.lit_i "alter"));
                           Regex.plus Regex.ws] |} Hon).
  - cbn. tauto.
  - cbn [SecurityValidator.re]. apply test_at. now apply exec_stacked_statement.
Qed.

Lemma validateQuery_rejects_stacked_statement_witness :
  let config := security DEFAULT_CONFIG in
  let query := "SELECT 1;  Drop TABLE Customers" in
  SecurityValidator.isValid (SecurityValidator.validateQuery config query) = false /\
  In "Query contains potentially dangerous pattern: ;\s*(drop|truncate|alter)\s+"
     (SecurityValidator.errors (SecurityValidator.validateQuery config query)).
Proof.
  apply (validateQuery_rejects_stacked_statement (security DEFAULT_CONFIG)
           "SELECT 1" "  " "Drop" "TABLE Customers" " ").
  - reflexivity.
  - reflexivity.
  - cbn. tauto.
  - reflexivity.
Defined.

(** X27.  Under an enabled policy a query is invalid as soon as [union],
    in any letter case, is followed by whitespace and, later on the same
    line, by [select]. *)
Theorem validateQuery_rejects_union_select (config : SecurityConfig)
    (before union spaces middle select after : string) (w : ascii) :
  enableQueryValidation config = true ->
  JS.toLowerCase union = "union" ->
  JS.is_space w = true ->
  all_space spaces = true ->
  single_line middle = true ->
  JS.toLowerCase select = "select" ->
  let query :=
    before +:+ union +:+ String w (spaces +:+ middle +:+ select +:+ after) in
  SecurityValidator.isValid (SecurityValidator.validateQuery config query) = false /\
  In "Query contains potentially dangerous pattern: union\s+.*select"
     (SecurityValidator.errors (SecurityValidator.validateQuery config query)).
Proof.
  intros Hon Hunion Hw Hspaces Hmiddle Hselect query.
  apply (pattern_reported config query
           {| SecurityValidator.source := "union\s+.*select";
              SecurityValidator.re :=
                Regex.seq [Regex.lit_i "union"; Regex.plus Regex.ws;
                           Regex.star Regex.dot; Regex.lit_i "select"] |} Hon).
  - cbn. tauto.
  - cbn [SecurityValidator.re]. apply test_at. now apply exec_union_select.
Qed.

Lemma validateQuery_rejects_union_select_witness :
  let config := security DEFAULT_CONFIG in
  let query := "SELECT a FROM t UNION ALL SELECT b FROM u" in
  SecurityValidator.isValid (SecurityValidator.validateQuery config query) = false /\
  In "Query contains potentially dangerous pattern: union\s+.*select"
     (SecurityValidator.errors (SecurityValidator.validateQuery config query)).
Proof.
  apply (validateQuery_rejects_union_select (security DEFAULT_CONFIG)
           "SELECT a FROM t " "UNION" "" "ALL " "SELECT" " b FROM u" " ");
    reflexivity.
Defined.

(** ** The other tools: what every handler respects *)

Section Respects.
Context {F : Type} `{JsNumber F}.
Variable env : Env.
Variable config : MCPConfig.

(** A relation between the state before and the state after. *)
Variable R : State F -> State F -> Prop.
Hypothesis R_refl : forall st, R st st.
Hypothesis R_trans : forall st1 st2 st3, R st1 st2 -> R st2 st3 -> R st1 st3.

Lemma respects_ret {A} (a : A) : respects R (ret a).
Proof. intros st. apply R_refl. Qed.

Lemma respects_throw {A} (e : JsError) : respects R (@throw F A e).
Proof. intros st. apply R_refl. Qed.

Lemma respects_gets {A} (f : State F -> A) : respects R (gets f).
Proof. intros st. apply R_refl. Qed.

Lemma respects_bind {A B} (m : M F A) (k : A -> M F B) :
  respects R m -> (forall a, respects R (k a)) -> respects R (bind m k).
Proof.
  intros Hm Hk st. unfold bind. specialize (Hm st).
  destruct (m st) as [[a|e] st1]; cbn [snd] in *.
  - eapply R_trans; [exact Hm | apply Hk].
  - exact Hm.
Qed.

Lemma respects_try_catch {A} (m : M F A) (handler : JsError -> M F A) :
  respects R m -> (forall e, respects R (handler e)) -> respects R (try_catch m handler).
Proof.
  intros Hm Hh st. unfold try_catch. specialize (Hm st).
  destruct (m st) as [[a|e] st1]; cbn [snd] in *.
  - exact Hm.
  - eapply R_trans; [exact Hm | apply Hh].
Qed.

Hypothesis R_getConnection : forall c, respects R (getConnection env config c).
Hypothesis R_run_query :
  forall pool text params, respects R (run_query env pool text params).

Lemma respects_parse_connection (raw : RawConnection) :
  respects R (parse_connection env raw).
Proof.
  unfold parse_connection. destruct (ConnectionSchema_parse raw);
    [apply respects_ret | apply respects_throw].
Qed.

Ltac respects_step :=
  first [ apply respects_ret | apply respects_throw | apply respects_gets
        | apply respects_parse_connection | apply R_getConnection
        | apply R_run_query
        | apply respects_bind; [|intros ?]
        | apply respects_try_catch; [|intros ?] ].

Lemma handleListDatabases_respects (args : RawConnection) :
  respects R (handleListDatabases env config args).
Proof. unfold handleListDatabases. repeat respects_step. Qed.

Lemma handleListTables_respects (args : RawConnection) :
  respects R (handleListTables env config args).
Proof. unfold handleListTables. repeat respects_step. Qed.

Lemma handleDescribeTable_respects (args : TableArgs) :
  respects R (handleDescribeTable env config args).
Proof. unfold handleDescribeTable. repeat respects_step. Qed.

Lemma handleSampleData_respects (args : SampleArgs) :
  respects R (handleSampleData env config args).
Proof.
  unfold handleSampleData. repeat respects_step.
  destruct (recordset _); repeat respects_step.
Qed.

Lemma handleGetRelationships_respects (args : TableArgs) :
  respects R (handleGetRelationships env config args).
Proof. unfold handleGetRelationships. repeat respects_step. Qed.

Lemma first_row_respects (result : QueryResult) : respects R (first_row result).
Proof. unfold first_row. destruct (recordset result); repeat respects_step. Qed.

Lemma handleHealthCheck_respects (probe : HealthProbe) (args : HealthArgs) :
  respects R (handleHealthCheck env config probe args).
Proof.
  unfold handleHealthCheck. repeat respects_step.
  - destruct (truthy_option _); repeat respects_step. apply first_row_respects.
  - apply first_row_respects.
  - apply first_row_respects.
Qed.

Lemma handleValidateQuery_respects (args : option ValidateArgs) :
  respects R (handleValidateQuery config args).
Proof.
  unfold handleValidateQuery. destruct args as [given|]; repeat respects_step.
  destruct (v_query given); repeat respects_step.
Qed.

Lemma insert_batches_respects (fuel pool : nat) (db table : string)
    (dataColumns : list string) (data : list Row) (i : nat) (total : Z) :
  respects R (insert_batches env fuel pool db table dataColumns data i total).
Proof.
  revert i total. induction fuel as [|fuel IH]; intros i total;
    cbn [insert_batches]; [apply respects_ret|].
  destruct (i <? List.length data)%nat; [|apply respects_ret].
  apply respects_bind; [apply R_run_query | intros result; apply IH].
Qed.

Lemma handleBulkInsert_respects (args : BulkInsertArgs) :
  respects R (handleBulkInsert env config args).
Proof.
  unfold handleBulkInsert. apply respects_bind; [apply respects_parse_connection|].
  intros c. destruct (b_data args) as [[|firstRow rest]|]; try apply respects_throw.
  apply respects_try_catch; [|intros e; apply respects_throw].
  apply respects_bind; [apply R_getConnection | intros pool].
  apply respects_bind; [apply R_run_query | intros sr].
  destruct (recordset sr) as [columns|]; [|apply respects_throw].
  destruct (List.length columns =? 0)%nat; [apply respects_throw|].
  match goal with |- context [if ?b then _ else _] => destruct b end;
    [apply respects_throw|].
  apply respects_bind; [apply insert_batches_respects | intros total].
  apply respects_ret.
Qed.

(** Every tool but the query tool. *)
Lemma dispatch_respects (clock : Clock) (probe : HealthProbe) (call : ToolCall) :
  (forall args, call <> mssql_query args) ->
  respects R (dispatch env config clock probe call).
Proof.
  intros Hcall. destruct call; cbn [dispatch]; unfold plain, flagged;
    try (apply respects_bind; [|intros ?; apply respects_ret]).
  - apply handleListDatabases_respects.
  - apply handleListTables_respects.
  - apply handleDescribeTable_respects.
  - now destruct (Hcall args).
  - apply handleSampleData_respects.
  - apply handleGetRelationships_respects.
  - apply handleHealthCheck_respects.
  - apply handleValidateQuery_respects.
  - apply handleBulkInsert_respects.
  - apply respects_throw.
Qed.

(** The counters [handleQuery] itself updates are the query counters. *)
Hypothesis R_metrics :
  forall f,
    (forall m, connectionCount (f m) = connectionCount m
               /\ cacheHits (f m) = cacheHits m) ->
    respects R (modify (with_metrics f)).

Lemma handleQuery_respects (clock : Clock) (args : QueryArgs) :
  respects R (handleQuery env config clock args).
Proof.
  assert (Hcounters : forall f : Metrics F -> Metrics F,
            (forall m, connectionCount (f m) = connectionCount m
                       /\ cacheHits (f m) = cacheHits m) ->
            respects R (modify (with_metrics f))) by exact R_metrics.
  unfold handleQuery.
  apply respects_bind; [apply Hcounters; now split | intros _].
  apply respects_try_catch.
  - apply respects_bind; [apply respects_parse_connection | intros c].
    destruct (negb _); [apply respects_throw|].
    apply respects_bind; [apply R_getConnection | intros pool].
    apply respects_bind; [apply R_run_query | intros result].
    apply respects_bind; [apply Hcounters; now split | intros _].
    destruct (recordset result); [apply respects_ret | apply respects_throw].
  - intros e. apply respects_bind; [apply Hcounters; now split | intros _].
    apply respects_throw.
Qed.

Lemma callTool_respects (clock : Clock) (probe : HealthProbe) (call : ToolCall) :
  respects R (callTool env config clock probe call).
Proof.
  unfold callTool. apply respects_try_catch; [|intros e; apply respects_ret].
  destruct call; try (apply dispatch_respects; discriminate).
  cbn [dispatch]. unfold plain.
  apply respects_bind; [apply handleQuery_respects | intros ?; apply respects_ret].
Qed.

End Respects.

(** ** The server as a whole *)

Section ServerInvariants.
Context {F : Type} `{JsNumber F}.
Variable env : Env.

Lemma run_query_cache_consistent (pool : nat) (text : string)
    (params : list (string * JsValue)) (st : State F) :
  cache_consistent st ->
  cache_consistent (snd (run_query env pool text params st)).
Proof.
  intros Hinv. unfold run_query. now destruct (db_query env _ _ _ _).
Qed.

Lemma reachable_consistent (config : MCPConfig) (st : State F) :
  reachable env config st -> cache_consistent st.
Proof.
  intros Hreach.
  induction Hreach as [|st clock probe call Hreach IH|st st' Hreach IH Hdrift Hm Hc].
  - intros key pool Hlook. cbn in Hlook. now rewrite lookup_empty in Hlook.
  - revert IH.
    apply (callTool_respects env config
             (fun st st' => cache_consistent st -> cache_consistent st')).
    + auto.
    + auto.
    + intros c st0. apply getConnection_cache_consistent.
    + intros pool text params st0. apply run_query_cache_consistent.
    + intros f _ st0 Hst0. exact Hst0.
  - exact (drift_cache_consistent st st' Hdrift IH).
Qed.

(** X17.  In every state the server can reach, by any sequence of tool
    calls with the driver flipping pool flags in between, the cache is
    consistent: each cached key points to an existing pool object, that
    object was built for a configuration with this very key, and no pool
    object is filed under two keys. *)
Theorem reachable_cache_consistent (config : MCPConfig) (st : State F) :
  reachable env config st ->
  (forall key pool,
     connectionPools st !! key = Some pool ->
     exists o, heap st !! pool = Some o /\ pool_key (poolConfig o) = key) /\
  (forall key1 key2 pool,
     connectionPools st !! key1 = Some pool ->
     connectionPools st !! key2 = Some pool ->
     key1 = key2).
Proof.
  intros Hreach. pose proof (reachable_consistent config st Hreach) as Hinv.
  split; [exact Hinv|].
  intros key1 key2 pool H1 H2.
  destruct (Hinv key1 pool H1) as (o1 & Ho1 & <-).
  destruct (Hinv key2 pool H2) as (o2 & Ho2 & <-).
  congruence.
Qed.

Lemma cache_size_bound (st : State F) :
  cache_consistent st ->
  (size (connectionPools st) <= List.length (heap st))%nat.
Proof.
  intros Hinv. rewrite <- length_map_to_list.
  rewrite <- (length_fmap snd).
  set (n := List.length (heap st)). rewrite <- (length_seq n 0). subst n.
  apply NoDup_incl_length.
  - apply NoDup_ListNoDup.
    apply NoDup_fmap_2_strong; [|apply NoDup_map_to_list].
    intros [k1 i1] [k2 i2] H1%elem_of_map_to_list H2%elem_of_map_to_list Heq.
    cbn in Heq. subst i2.
    destruct (Hinv k1 i1 H1) as (o1 & Ho1 & <-).
    destruct (Hinv k2 i1 H2) as (o2 & Ho2 & <-).
    congruence.
  - intros i Hi. apply list_elem_of_In in Hi.
    apply list_elem_of_fmap in Hi as ([k j] & -> & Hkj%elem_of_map_to_list).
    destruct (Hinv k j Hkj) as (o & Ho & _).
    apply in_seq. apply lookup_lt_Some in Ho. cbn. lia.
Qed.

Lemma getConnection_connectionCount (config : MCPConfig) (c : ConnectionConfig)
    (st : State F) :
  let st' := snd (getConnection env config c st) in
  connectionCount (metrics st') - connectionCount (metrics st)
  = Z.of_nat (List.length (heap st')) - Z.of_nat (List.length (heap st)).
Proof.
  intros st'. pose proof (getConnection_outcome env config c st) as Hout.
  fold st' in Hout. clearbody st'.
  destruct Hout as [pool Hc Hl | Hdead Hconn | e Hdead Hconn];
    cbn [connectionPools heap calls metrics with_metrics with_pools registered
         refused connectionCount inc_cacheHits inc_connectionCount
         inc_failedQueries]; rewrite ?length_app; cbn [List.length]; lia.
Qed.

(** X18.  In every reachable state [connectionCount] is the number of
    pools the server has ever opened, closed ones included: it is never
    decremented when a disconnected pool is dropped from the cache.  The
    number of cached pools, which the health check reports as
    [activeConnections], never exceeds it. *)
Theorem reachable_connectionCount (config : MCPConfig) (st : State F) :
  reachable env config st ->
  connectionCount (metrics st) = Z.of_nat (List.length (heap st)) /\
  Z.of_nat (size (connectionPools st)) <= connectionCount (metrics st).
Proof.
  intros Hreach.
  assert (Hcount : connectionCount (metrics st) = Z.of_nat (List.length (heap st))).
  { induction Hreach as [|st clock probe call Hreach IH|st st' Hreach IH Hdrift Hm Hc].
    - reflexivity.
    - assert (Hstep :
        connectionCount (metrics (snd (callTool env config clock probe call st)))
        - connectionCount (metrics st)
        = Z.of_nat (List.length (heap (snd (callTool env config clock probe call st))))
          - Z.of_nat (List.length (heap st))).
      { apply (callTool_respects env config
                 (fun st st' =>
                    connectionCount (metrics st') - connectionCount (metrics st)
                    = Z.of_nat (List.length (heap st'))
                      - Z.of_nat (List.length (heap st)))).
        + intros st0. lia.
        + intros st1 st2 st3 H12 H23. lia.
        + intros c st0. apply getConnection_connectionCount.
        + intros pool text params st0.
          destruct (run_query env pool text params st0) as [r st1] eqn:Hq.
          destruct (run_query_frame env Hq) as (_ & Hm & Hh). cbn [snd].
          rewrite Hm, Hh. lia.
        + intros f Hf st0. cbn [modify snd with_metrics metrics heap].
          destruct (Hf (metrics st0)) as [-> _]. lia. }
      lia.
    - rewrite Hm, IH. f_equal. symmetry. now apply drift_length. }
  split; [exact Hcount|].
  rewrite Hcount. apply inj_le. apply cache_size_bound.
  now apply (reachable_consistent config).
Qed.

(** X19.  Only the query tool counts queries: a call of any other tool,
    the bulk insert with all its statements included, leaves
    [totalQueries] and [avgExecutionTime] as they are. *)
Theorem callTool_counts_queries_of_mssql_query_only (config : MCPConfig)
    (clock : Clock) (probe : HealthProbe) (call : ToolCall) (st : State F) :
  (forall args, call <> mssql_query args) ->
  let st' := snd (callTool env config clock probe call st) in
  totalQueries (metrics st') = totalQueries (metrics st) /\
  avgExecutionTime (metrics st') = avgExecutionTime (metrics st).
Proof.
  intros Hcall st'. subst st'. unfold callTool.
  apply (respects_try_catch
           (fun st st' =>
              totalQueries (metrics st') = totalQueries (metrics st) /\
              avgExecutionTime (metrics st') = avgExecutionTime (metrics st))).
  - intros st1 st2 st3 [H12 H12'] [H23 H23']. split; congruence.
  - apply dispatch_respects.
    + now split.
    + intros st1 st2 st3 [H12 H12'] [H23 H23']. split; congruence.
    + intros c st0.
      destruct (getConnection env config c st0) as [r st1] eqn:Hconn.
      destruct (getConnection_metrics env config c _ _ _ Hconn) as (Ht & Ha & _).
      now split.
    + intros pool text params st0.
      destruct (run_query env pool text params st0) as [r st1] eqn:Hq.
      destruct (run_query_frame env Hq) as (_ & Hm & _). cbn [snd].
      now rewrite Hm.
    + exact Hcall.
  - intros e st0. now split.
Qed.

Lemma getConnection_config_ext (config1 config2 : MCPConfig)
    (c : ConnectionConfig) (st : State F) :
  connectionDefaults config1 = connectionDefaults config2 ->
  getConnection env config1 c st = getConnection env config2 c st.
Proof.
  intros Heq. unfold getConnection, connect_and_register, make_poolConfig.
  now rewrite Heq.
Qed.

Ltac config_ext config1 config2 :=
  unfold bind, try_catch, parse_connection;
  destruct (ConnectionSchema_parse _); [|reflexivity]; unfold ret at 1;
  try (destruct (b_data _) as [[|? ?]|]; try reflexivity);
  now rewrite (getConnection_config_ext config1 config2).

Lemma handlers_config_ext (config1 config2 : MCPConfig) (probe : HealthProbe)
    (st : State F) :
  connectionDefaults config1 = connectionDefaults config2 ->
  (forall args, handleListDatabases env config1 args st
                = handleListDatabases env config2 args st) /\
  (forall args, handleListTables env config1 args st
                = handleListTables env config2 args st) /\
  (forall args, handleDescribeTable env config1 args st
                = handleDescribeTable env config2 args st) /\
  (forall args, handleSampleData env config1 args st
                = handleSampleData env config2 args st) /\
  (forall args, handleGetRelationships env config1 args st
                = handleGetRelationships env config2 args st) /\
  (forall args, handleHealthCheck env config1 probe args st
                = handleHealthCheck env config2 probe args st) /\
  (forall args, handleBulkInsert env config1 args st
                = handleBulkInsert env config2 args st).
Proof.
  intros Heq. repeat split; intros args.
  - unfold handleListDatabases. config_ext config1 config2.
  - unfold handleListTables. config_ext config1 config2.
  - unfold handleDescribeTable. config_ext config1 config2.
  - unfold handleSampleData. config_ext config1 config2.
  - unfold handleGetRelationships. config_ext config1 config2.
  - unfold handleHealthCheck. config_ext config1 config2.
  - unfold handleBulkInsert. config_ext config1 config2.
Qed.

(** X20.  The security policy is consulted by the query tool and the
    validate tool and by no other: for every other call, two servers
    whose configurations differ in the policy only (same connection
    defaults) give the same answer and reach the same state.  Neither the
    row cap nor the validator applies to the sample, catalog, health or
    bulk-insert tools. *)
Theorem callTool_ignores_security_policy (config1 config2 : MCPConfig)
    (clock : Clock) (probe : HealthProbe) (call : ToolCall) (st : State F) :
  connectionDefaults config1 = connectionDefaults config2 ->
  (forall args, call <> mssql_query args) ->
  (forall args, call <> mssql_validate_query args) ->
  callTool env config1 clock probe call st
  = callTool env config2 clock probe call st.
Proof.
  intros Heq Hquery Hvalidate.
  destruct (handlers_config_ext config1 config2 probe st Heq)
    as (Hdbs & Htables & Hdescribe & Hsample & Hrel & Hhealth & Hbulk).
  unfold callTool, try_catch.
  assert (Hd : dispatch env config1 clock probe call st
               = dispatch env config2 clock probe call st);
    [|now rewrite Hd].
  destruct call; cbn [dispatch]; unfold plain, flagged, bind;
    try (now destruct (Hquery args)); try (now destruct (Hvalidate args));
    try reflexivity.
  - now rewrite Hdbs.
  - now rewrite Htables.
  - now rewrite Hdescribe.
  - now rewrite Hsample.
  - now rewrite Hrel.
  - now rewrite Hhealth.
  - now rewrite Hbulk.
Qed.

(** X21.  The [features] block of the configuration is never consulted:
    two servers that agree on the security policy and on the connection
    defaults answer every call alike.  Pools are cached with
    [enableCaching] off, the counters move with [enableMetrics] off, and
    neither [cacheTimeout] nor [maxConcurrentQueries] limits anything. *)
Theorem callTool_ignores_features (config1 config2 : MCPConfig)
    (clock : Clock) (probe : HealthProbe) (call : ToolCall) (st : State F) :
  security config1 = security config2 ->
  connectionDefaults config1 = connectionDefaults config2 ->
  callTool env config1 clock probe call st
  = callTool env config2 clock probe call st.
Proof.
  intros Hsec Heq.
  destruct (handlers_config_ext config1 config2 probe st Heq)
    as (Hdbs & Htables & Hdescribe & Hsample & Hrel & Hhealth & Hbulk).
  unfold callTool, try_catch.
  assert (Hd : dispatch env config1 clock probe call st
               = dispatch env config2 clock probe call st);
    [|now rewrite Hd].
  destruct call; cbn [dispatch]; unfold plain, flagged, bind; try reflexivity.
  - now rewrite Hdbs.
  - now rewrite Htables.
  - now rewrite Hdescribe.
  - assert (Hq : handleQuery env config1 clock args st
                 = handleQuery env config2 clock args st); [|now rewrite Hq].
    unfold handleQuery, bind, try_catch, modify, parse_connection.
    destruct (ConnectionSchema_parse _); [|reflexivity]. unfold ret at 1 3.
    unfold finalQuery_of, top_clause. rewrite Hsec.
    destruct (negb _); [reflexivity|].
    now rewrite (getConnection_config_ext config1 config2).
  - now rewrite Hsample.
  - now rewrite Hrel.
  - now rewrite Hhealth.
  - unfold handleValidateQuery, try_catch, analyse, undefined_query_error.
    destruct args as [given|]; [|reflexivity]. now rewrite Hsec.
  - now rewrite Hbulk.
Qed.

End ServerInvariants.

(** ** Health check and query analysis *)

Section HealthAndAnalysis.
Context {F : Type} `{JsNumber F}.
Variable env : Env.
Variable config : MCPConfig.



Lemma push_if_nil (b : bool) (msg : string) (l : list string) :
  SecurityValidator.push_if b msg l = [] <-> b = false /\ l = [].
Proof.
  unfold SecurityValidator.push_if. destruct b.
  - split; [|intros [? _]; discriminate].
    intros Hnil. now apply app_eq_nil in Hnil as [_ ?].
  - tauto.
Qed.

(** X23.  [handleValidateQuery] touches neither the database nor the
    state.  It throws in one case only: called without an arguments
    object, the destructuring of line 783, which stands before the [try],
    throws a [TypeError].  Given an arguments object it never throws.
    For a query that is a string its verdict is stricter than the
    validator used by the query tool: the report is valid exactly when
    [validateQuery] accepts the query and the text names [where] or
    neither [update] nor [delete] (as substrings, in any letter case);
    and the report is valid exactly when it lists no error.  Given an
    object without a query the answer is flagged [isError]. *)
Theorem handleValidateQuery_verdict (args : option ValidateArgs) (st : State F) :
  exists result,
    handleValidateQuery config args st = (result, st) /\
    match args with
    | None =>
        exists error, result = Throw error /\ error_name error = "TypeError"
    | Some given =>
        exists answer,
          result = Ok answer /\
          match v_query given with
          | Some query =>
              let lowered := JS.toLowerCase (JS.trim query) in
              isError answer = false /\
              exists report,
                content answer = Analysis report /\
                (v_isValid report = true <->
                 SecurityValidator.isValid
                   (SecurityValidator.validateQuery (security config) query) = true /\
                 (JS.includes lowered "where" = true \/
                  JS.includes lowered "update" = false /\
                  JS.includes lowered "delete" = false)) /\
                (v_isValid report = true <-> v_errors report = [])
          | None =>
              isError answer = true /\
              exists error, content answer = AnalysisFailed error
          end
    end.
Proof.
  unfold handleValidateQuery, try_catch.
  destruct args as [given|].
  2:{ unfold throw. eexists. split; [reflexivity|]. eexists. split; reflexivity. }
  destruct (v_query given) as [query|].
  - unfold ret. eexists. split; [reflexivity|]. eexists. split; [reflexivity|].
    cbn [content isError].
    split; [reflexivity|]. eexists. split; [reflexivity|].
    unfold analyse. cbn [v_isValid v_errors]. unfold missing_where.
    set (lowered := JS.toLowerCase (JS.trim query)).
    pose proof (validateQuery_valid_iff_no_errors (security config) query) as Hverdict.
    rewrite push_if_nil.
    destruct (JS.includes lowered "where"), (JS.includes lowered "update"),
      (JS.includes lowered "delete"); cbn [negb andb orb];
      split; split; intuition congruence.
  - unfold throw, ret. eexists. split; [reflexivity|]. eexists.
    split; [reflexivity|]. cbn [content isError].
    split; [reflexivity|]. eexists. reflexivity.
Qed.

(** X24.  The request handler never throws.  What a handler throws comes
    back as an answer flagged [isError] whose text is ["Error: "]
    followed by the message; the error's code and details are dropped.
    What a handler returns comes back as it is.  A name that is none of
    the nine tools is answered [Error: Unknown tool: name] without
    touching the state. *)
Theorem callTool_never_throws (clock : Clock) (probe : HealthProbe)
    (call : ToolCall) (st : State F) :
  exists answer st',
    callTool env config clock probe call st = (Ok answer, st') /\
    match dispatch env config clock probe call st with
    | (Ok returned, st1) => answer = returned /\ st' = st1
    | (Throw error, st1) =>
        answer = {| content := ErrorText ("Error: " +:+ error_message error);
                    isError := true |} /\
        st' = st1
    end /\
    (forall name,
       call = other_tool name ->
       answer = {| content := ErrorText ("Error: Unknown tool: " +:+ name);
                   isError := true |} /\
       st' = st).
Proof.
  unfold callTool, try_catch.
  destruct (dispatch env config clock probe call st) as [[returned|error] st1] eqn:Hd.
  - exists returned, st1. split; [reflexivity|]. split; [now split|].
    intros name ->. cbn in Hd. discriminate.
  - eexists. exists st1. unfold ret. split; [reflexivity|]. split; [now split|].
    intros name ->. cbn in Hd. injection Hd as <- <-. now split.
Qed.

End HealthAndAnalysis.

Lemma reachable_cache_consistent_witness :
  let st := snd (callTool Toy.env DEFAULT_CONFIG Toy.clock toy_probe
                   (mssql_query toy_select) initial_state) in
  connectionPools st !! createConnectionKey (Toy.creds "secret") = Some 0%nat /\
  cache_consistent st /\
  (forall key1 key2 pool,
     connectionPools st !! key1 = Some pool ->
     connectionPools st !! key2 = Some pool ->
     key1 = key2).
Proof.
  split; [vm_compute; reflexivity|].
  apply (reachable_cache_consistent Toy.env DEFAULT_CONFIG).
  apply reach_call. apply reach_initial.
Defined.

Lemma callTool_counts_queries_of_mssql_query_only_witness :
  let st' := snd (callTool Toy.env DEFAULT_CONFIG Toy.clock toy_probe
                    (mssql_bulk_insert toy_101) Toy.st0) in
  totalQueries (metrics st') = 0 /\ avgExecutionTime (metrics st') = 0%Q.
Proof.
  apply (callTool_counts_queries_of_mssql_query_only Toy.env DEFAULT_CONFIG Toy.clock
           toy_probe (mssql_bulk_insert toy_101) Toy.st0).
  discriminate.
Defined.

Lemma callTool_ignores_security_policy_witness :
  callTool clinic_env DEFAULT_CONFIG Toy.clock toy_probe (mssql_sample_data toy_sample)
    Toy.st0
  = callTool clinic_env PRODUCTION_CONFIG Toy.clock toy_probe
      (mssql_sample_data toy_sample) Toy.st0.
Proof.
  apply callTool_ignores_security_policy; [reflexivity | discriminate..].
Defined.

(** The sample tool under the production policy, whose row cap is 1000:
    the statement asks for 50000 rows and the seven rows of the table
    come back. *)
Example sample_data_is_not_capped :
  let run := handleSampleData clinic_env PRODUCTION_CONFIG toy_sample Toy.st0 in
  maxRowsPerQuery (security PRODUCTION_CONFIG) = 1000 /\
  List.filter is_query (calls (snd run))
  = [Query 0 (sample_data_query "shop" "50000" "Customers") []] /\
  exists report, fst run = Ok report /\ sampleSize report = 7.
Proof.
  vm_compute. split; [reflexivity|]. split; [reflexivity|].
  eexists. split; reflexivity.
Qed.


Lemma reachable_connectionCount_witness :
  let st := snd (callTool Toy.env DEFAULT_CONFIG Toy.clock toy_probe
                   (mssql_query toy_select) initial_state) in
  List.length (heap st) = 1%nat /\
  connectionCount (metrics st) = Z.of_nat (List.length (heap st)) /\
  Z.of_nat (size (connectionPools st)) <= connectionCount (metrics st).
Proof.
  split; [vm_compute; reflexivity|].
  apply (reachable_connectionCount Toy.env DEFAULT_CONFIG).
  apply reach_call. apply reach_initial.
Defined.

Lemma callTool_ignores_features_witness :
  let config := {| security := security DEFAULT_CONFIG;
                   connectionDefaults := connectionDefaults DEFAULT_CONFIG;
                   features := {| enableCaching := false;
                                  cacheTimeout := 0;
                                  enableMetrics := false;
                                  maxConcurrentQueries := 0 |} |} in
  callTool Toy.env DEFAULT_CONFIG Toy.clock toy_probe (mssql_query toy_select) toy_st1
  = callTool Toy.env config Toy.clock toy_probe (mssql_query toy_select) toy_st1.
Proof.
  apply callTool_ignores_features; reflexivity.
Defined.
